(** * UrbanScan teleoperation console: a shallow embedding of the control plane

    The development follows the console's sources:
    - [Js]        : the JavaScript values and built-ins the sources rely on
                    (numbers, [split], [parseFloat], [parseInt], [toFixed], plain
                    objects with ordered keys);
    - [Constants] : components/Common/constants;
    - [Utils]     : components/Common/utils.js ([limitCacheSize], [applyDeadzone],
                    [mapToPWM]);
    - [WebRTC]    : the useWebRTC hook ([cleanupPeer], [handleOffer], [handleTrack],
                    [sendCommand]);
    - [Joystick]  : the useJoystick hook (the [setCurrentPWMValues] updater of
                    [pollJoystick]);
    - [Elevation] : the useElevation hook (the cache insertion of [fetchElevation]);
    - [Admin]     : the WebRTCAdmin component (heartbeat check, inbound message
                    handlers, [finalizeArea]);
    - [MapPanel]  : components/Map/MapPanel.jsx ([startSurveillanceMission]).

    Further parts of the same sources follow the first block of facts:
    - [JsMath]       : [Math.floor], [%], [>=] and [||] on numbers;
    - [Colour]       : [hsvToRgb] of utils.js and [setLedColorAndSend];
    - [JoystickSend] : the effect of useJoystick that sends the PWM values, and
                       the buttons of [pollJoystick];
    - [Operator]     : the operator's actions in WebRTCAdmin ([controlCameraTilt],
                       [handleCaptureImages], [handleVideoRecording],
                       [handleMapClick], [toggleSurveillanceMode]) and the height
                       the status bar shows;
    - [Playback]     : the video element starting to play;
    - [MapControls]  : the number inputs and [handleGoto] of MapPanel.jsx;
    - [Wiring]       : the two effects that register a data listener, and
                       [handleRemoteICE];
    - [Display]      : [toggleVideoDisplayMode];
    - [Keyboard]     : the key handlers of WebRTCAdmin.

    The modules above hold the embedding; the modules whose names end in
    [Facts] hold what is proved about it.

    Numbers.  A JavaScript number is modelled as an exact rational extended with
    the two infinities and NaN.  Rounding to binary64 and the sign of zero are not
    modelled; every statement below is about the exact values.  Time is counted
    in whole milliseconds, as [Date.now()] reports it.  Calls to [console] are
    left out. *)

From Stdlib Require Import ZArith QArith Qabs Qround Lia Lqa List Bool Ascii String.
From Stdlib Require Import DecimalString.
Import ListNotations.

Set Implicit Arguments.

(* ================================================================== *)
(** * JavaScript values and built-ins                                  *)
(* ================================================================== *)

Module Js.

(** ** Numbers *)

Inductive number : Type :=
| Fin (q : Q)
| PosInf
| NegInf
| NaN.

Definition Qltb (x y : Q) : bool := negb (Qle_bool y x).
Definition Qeqb (x y : Q) : bool := Qeq_bool x y.

Definition ofZ (z : Z) : number := Fin (inject_Z z).

Definition isNaN (x : number) : bool :=
  match x with NaN => true | _ => false end.

(** [Boolean(x)] for a number: zero and NaN are falsy. *)
Definition truthy (x : number) : bool :=
  match x with
  | Fin q => negb (Qeqb q 0)
  | PosInf | NegInf => true
  | NaN => false
  end.

Definition neg (x : number) : number :=
  match x with
  | Fin q => Fin (- q)
  | PosInf => NegInf
  | NegInf => PosInf
  | NaN => NaN
  end.

Definition add (x y : number) : number :=
  match x, y with
  | NaN, _ | _, NaN => NaN
  | Fin a, Fin b => Fin (a + b)
  | PosInf, NegInf | NegInf, PosInf => NaN
  | PosInf, _ | _, PosInf => PosInf
  | NegInf, _ | _, NegInf => NegInf
  end.

Definition sub (x y : number) : number := add x (neg y).

(** An infinity of the given sign. *)
Definition signedInf (positive : bool) : number :=
  if positive then PosInf else NegInf.

(** An infinity times a finite number; zero times infinity is NaN. *)
Definition infTimes (positive : bool) (q : Q) : number :=
  if Qeqb q 0 then NaN
  else signedInf (Bool.eqb positive (Qltb 0 q)).

Definition mul (x y : number) : number :=
  match x, y with
  | NaN, _ | _, NaN => NaN
  | Fin a, Fin b => Fin (a * b)
  | PosInf, Fin q | Fin q, PosInf => infTimes true q
  | NegInf, Fin q | Fin q, NegInf => infTimes false q
  | PosInf, PosInf | NegInf, NegInf => PosInf
  | PosInf, NegInf | NegInf, PosInf => NegInf
  end.

(** Division.  A zero divisor is read as [+0]. *)
Definition div (x y : number) : number :=
  match x, y with
  | NaN, _ | _, NaN => NaN
  | Fin a, Fin b =>
      if Qeqb b 0
      then (if Qeqb a 0 then NaN else signedInf (Qltb 0 a))
      else Fin (a / b)
  | Fin _, PosInf | Fin _, NegInf => Fin 0
  | PosInf, Fin q => signedInf (Qle_bool 0 q)
  | NegInf, Fin q => signedInf (negb (Qle_bool 0 q))
  | _, _ => NaN
  end.

(** [Math.abs] *)
Definition abs (x : number) : number :=
  match x with
  | Fin q => Fin (Qabs q)
  | PosInf | NegInf => PosInf
  | NaN => NaN
  end.

(** [x < y]; any comparison with NaN is false. *)
Definition lt (x y : number) : bool :=
  match x, y with
  | NaN, _ | _, NaN => false
  | Fin a, Fin b => Qltb a b
  | NegInf, NegInf => false
  | NegInf, _ => true
  | _, PosInf => match x with PosInf => false | _ => true end
  | _, _ => false
  end.

Definition gt (x y : number) : bool := lt y x.

(** [x === y] on numbers. *)
Definition strictEq (x y : number) : bool :=
  match x, y with
  | Fin a, Fin b => Qeqb a b
  | PosInf, PosInf | NegInf, NegInf => true
  | _, _ => false
  end.

(** [Math.max(x, y)] and [Math.min(x, y)]: NaN when either argument is. *)
Definition max (x y : number) : number :=
  match x, y with
  | NaN, _ | _, NaN => NaN
  | _, _ => if lt x y then y else x
  end.

Definition min (x y : number) : number :=
  match x, y with
  | NaN, _ | _, NaN => NaN
  | _, _ => if lt y x then y else x
  end.

(** [Math.round]: the nearest integer, a tie going up. *)
Definition round (x : number) : number :=
  match x with
  | Fin q => Fin (inject_Z (Qfloor (q + (1 # 2))))
  | _ => x
  end.

(** ** Strings *)

Definition charIs (c : ascii) (n : nat) : bool := Nat.eqb (nat_of_ascii c) n.

Definition isDigit (c : ascii) : bool :=
  Nat.leb 48 (nat_of_ascii c) && Nat.leb (nat_of_ascii c) 57.

Definition digitVal (c : ascii) : Z := Z.of_nat (nat_of_ascii c - 48).

(** The ASCII members of [StrWhiteSpaceChar]. *)
Definition isWhite (c : ascii) : bool :=
  let n := nat_of_ascii c in
  Nat.eqb n 32 || (Nat.leb 9 n && Nat.leb n 13).

Fixpoint skipWhite (s : string) : string :=
  match s with
  | String c r => if isWhite c then skipWhite r else s
  | EmptyString => s
  end.

(** [s.startsWith(p)] *)
Definition startsWith (s p : string) : bool := String.prefix p s.

(** [s.substring(n)] *)
Fixpoint substringFrom (n : nat) (s : string) : string :=
  match n, s with
  | O, _ => s
  | S n', String _ r => substringFrom n' r
  | S _, EmptyString => EmptyString
  end.

(** [s.split(sep)] for a one-character separator: [cur] holds the characters
    of the field being read, most recent first. *)
Fixpoint splitAux (sep : ascii) (cur : list ascii) (s : string) : list string :=
  match s with
  | EmptyString => [string_of_list_ascii (rev cur)]
  | String c r =>
      if Ascii.eqb c sep
      then string_of_list_ascii (rev cur) :: splitAux sep [] r
      else splitAux sep (c :: cur) r
  end.

Definition split (sep : ascii) (s : string) : list string := splitAux sep [] s.

(** [parts.join(sep)] *)
Fixpoint join (sep : string) (parts : list string) : string :=
  match parts with
  | [] => EmptyString
  | [p] => p
  | p :: rest => p ++ sep ++ join sep rest
  end.

(** ** Number parsing *)

(** Reads a run of decimal digits: the value accumulated on [acc], the number
    of digits read added to [n], and the rest of the string. *)
Fixpoint scanDigits (acc : Z) (n : nat) (s : string) : Z * nat * string :=
  match s with
  | String c r =>
      if isDigit c then scanDigits (10 * acc + digitVal c) (S n) r
      else (acc, n, s)
  | EmptyString => (acc, n, s)
  end.

Definition readSign (s : string) : bool * string :=
  match s with
  | String c r =>
      if charIs c 45 then (true, r)
      else if charIs c 43 then (false, r)
      else (false, s)
  | EmptyString => (false, s)
  end.

(** The value of an [ExponentPart] at the head of [s]; [0] when there is none. *)
Definition readExponent (s : string) : Z :=
  match s with
  | String c r =>
      if charIs c 101 || charIs c 69 then
        let (negative, r') := readSign r in
        let '(v, n, _) := scanDigits 0 0 r' in
        match n with
        | O => 0
        | S _ => if negative then - v else v
        end
      else 0
  | EmptyString => 0
  end%Z.

(** [m * 10^e] as a rational in lowest terms. *)
Definition scale10 (m e : Z) : Q :=
  if (0 <=? e)%Z then Qred (inject_Z (m * 10 ^ e))
  else Qred (Qmake m (Z.to_pos (10 ^ (- e)))).

(** [parseFloat]: leading white space is skipped and the longest prefix that
    is a [StrDecimalLiteral] is read; NaN when there is none. *)
Definition parseFloat (str : string) : number :=
  let (negative, s1) := readSign (skipWhite str) in
  if startsWith s1 "Infinity" then signedInf (negb negative)
  else
    let '(ip, ni, s2) := scanDigits 0 0 s1 in
    let '(m, nf, s3) :=
      match s2 with
      | String c r => if charIs c 46 then scanDigits ip 0 r else (ip, O, s2)
      | EmptyString => (ip, O, s2)
      end in
    match (ni + nf)%nat with
    | O => NaN
    | S _ =>
        let e := readExponent s3 in
        Fin (scale10 (if negative then - m else m) (e - Z.of_nat nf))
    end.

(** [parseInt(str, 10)] *)
Definition parseInt10 (str : string) : number :=
  let (negative, s1) := readSign (skipWhite str) in
  let '(v, n, _) := scanDigits 0 0 s1 in
  match n with
  | O => NaN
  | S _ => ofZ (if negative then - v else v)
  end.

(** ** Number printing *)

(** The decimal digits of a natural number, as [String(n)] prints an integer. *)
Definition decimal (n : Z) : string := NilZero.string_of_uint (N.to_uint (Z.to_N n)).

(** [String(n)] for an integer. *)
Definition intToString (n : Z) : string :=
  if (n <? 0)%Z then String (ascii_of_nat 45) (decimal (- n)) else decimal n.

(** The [k] low decimal digits of [n], zero-padded. *)
Fixpoint lowDigits (k : nat) (n : Z) : list ascii :=
  match k with
  | O => []
  | S k' => lowDigits k' (n / 10) ++ [ascii_of_nat (48 + Z.to_nat (n mod 10))]
  end.

(** [x.toFixed(6)]: the nearest multiple of 1e-6, a tie going away from zero,
    printed in positional notation (the exponent form used from 1e21 upwards
    is not modelled). *)
Definition toFixed6 (x : number) : string :=
  match x with
  | NaN => "NaN"
  | PosInf => "Infinity"
  | NegInf => "-Infinity"
  | Fin q =>
      let n := Qfloor (Qabs q * inject_Z 1000000 + (1 # 2)) in
      (if Qltb q 0 then "-" else "")
        ++ decimal (n / 1000000)
        ++ "."
        ++ string_of_list_ascii (lowDigits 6 (n mod 1000000))
  end%string.

(** ** Plain objects used as maps

    The own properties of an object in the order [Object.keys] lists them.  For
    keys that are not array indices (every key of the elevation cache contains
    a comma) that is the order in which the properties were created. *)

Section Obj.
Variable V : Type.

Definition obj : Type := list (string * V).

(** [Object.keys(o)] *)
Definition keys (o : obj) : list string := map fst o.

(** [o[k]] *)
Fixpoint get (o : obj) (k : string) : option V :=
  match o with
  | [] => None
  | (k', v) :: r => if String.eqb k' k then Some v else get r k
  end.

(** [{ ...o, [k]: v }]: an existing property keeps its place, a new one goes
    last. *)
Fixpoint set (o : obj) (k : string) (v : V) : obj :=
  match o with
  | [] => [(k, v)]
  | (k', v') :: r =>
      if String.eqb k' k then (k', v) :: r else (k', v') :: set r k v
  end.

(** [delete o[k]] *)
Fixpoint delete (o : obj) (k : string) : obj :=
  match o with
  | [] => []
  | (k', v') :: r =>
      if String.eqb k' k then delete r k else (k', v') :: delete r k
  end.

(** The keys of an object are pairwise distinct. *)
Definition wf (o : obj) : Prop := NoDup (keys o).
End Obj.

End Js.


(* ================================================================== *)
(** * components/Common/constants                                     *)
(* ================================================================== *)

Module Constants.

Record IceServer := {
  urls : list string;
  username : option string;
  credential : option string
}.

Definition ICE_SERVERS : list IceServer :=
  [ {| urls := ["stun:stun.expressturn.com:3478"%string];
       username := None; credential := None |};
    {| urls := [ "turn:relay1.expressturn.com:3480?transport=udp";
                 "turn:relay1.expressturn.com:3480?transport=tcp";
                 "turn:relay1.expressturn.com:80?transport=tcp";
                 "turns:relay1.expressturn.com:443?transport=tcp";
                 "turns:relay1.expressturn.com:5349?transport=tcp" ]%string;
       username := Some "174686931792636027"%string;
       credential := Some "+Kc1neP2q0un1Z2OTMxU6JDKcv0="%string |} ].

Definition MAX_ELEVATION_CACHE_SIZE : nat := 100.

Definition JOYSTICK_POLL_INTERVAL : Z := 50.
Definition JOYSTICK_DEADZONE : Js.number := Js.Fin (5 # 100).
Definition THROTTLE_CHANGE_RATE : Js.number := Js.Fin 5.

End Constants.

(* ================================================================== *)
(** * components/Common/utils.js                                      *)
(* ================================================================== *)

Module Utils.

(** [limitCacheSize(cache, maxSize)] *)
Definition limitCacheSize {V : Type} (cache : Js.obj V) (maxSize : nat) : Js.obj V :=
  let keys := Js.keys cache in
  if Nat.leb (List.length keys) maxSize then cache
  else
    let keysToRemove := firstn (List.length keys - maxSize) keys in
    fold_left (fun newCache key => Js.delete newCache key) keysToRemove cache.

(** [applyDeadzone(value, deadzone)] *)
Definition applyDeadzone (value deadzone : Js.number) : Js.number :=
  if Js.lt (Js.abs value) deadzone then Js.Fin 0
  else if Js.gt value (Js.Fin 0)
       then Js.div (Js.sub value deadzone) (Js.sub (Js.Fin 1) deadzone)
       else Js.div (Js.add value deadzone) (Js.sub (Js.Fin 1) deadzone).

(** [mapToPWM(value)] *)
Definition mapToPWM (value : Js.number) : Js.number :=
  Js.round (Js.add (Js.Fin 1500) (Js.mul value (Js.Fin 500))).

End Utils.

(* ================================================================== *)
(** * The useWebRTC hook                                              *)
(* ================================================================== *)

Module WebRTC.

Inductive VideoDisplayMode : Type := REGULAR | THERMAL | SIDE_BY_SIDE | PICTURE_IN_PICTURE.

(** A media track, as far as the hook reads it. *)
Record Track : Type := mkTrack {
  id : string;
  kind : string;
  label : string
}.

(** A video element: [srcObject] holds the tracks of the stream bound to it. *)
Record VideoElement : Type := mkVideo {
  srcObject : option (list Track);
  autoplay : bool;
  playsInline : bool;
  muted : bool;
  onloadedmetadata : bool
}.

Definition blankVideo : VideoElement :=
  {| srcObject := None; autoplay := false; playsInline := false; muted := false;
     onloadedmetadata := false |}.

Record VideoTracks : Type := mkTracks {
  regular : option Track;
  thermal : option Track
}.

(** The data listeners the component installs on a peer. *)
Inductive DataListener : Type := InitialDataListener | HandleDataMessage.

(** The callbacks registered on a peer, named after their event. *)
Inductive Listener : Type :=
| OnSignal | OnConnect | OnClose | OnError | OnStream | OnTrack
| OnData (l : DataListener).

(** A signaling payload: a session description ([type], [sdp]) or a candidate. *)
Record Signal : Type := mkSignal {
  sdp : option string;
  type : option string;
  candidate : option string
}.

(** A SimplePeer instance: the options it was created with, its listeners,
    and the part of its life the hook can observe. *)
Record Peer : Type := mkPeer {
  initiator : bool;
  trickle : bool;
  iceServers : list Constants.IceServer;
  listeners : list (string * Listener);
  destroyed : bool;
  channelOpen : bool;
  signalled : list Signal;
  sent : list string
}.

Definition setp_listeners (v : list (string * Listener)) (p : Peer) : Peer :=
  {| initiator := initiator p;
     trickle := trickle p;
     iceServers := iceServers p;
     listeners := v;
     destroyed := destroyed p;
     channelOpen := channelOpen p;
     signalled := signalled p;
     sent := sent p |}.

Definition setp_destroyed (v : bool) (p : Peer) : Peer :=
  {| initiator := initiator p;
     trickle := trickle p;
     iceServers := iceServers p;
     listeners := listeners p;
     destroyed := v;
     channelOpen := channelOpen p;
     signalled := signalled p;
     sent := sent p |}.

Definition setp_channelOpen (v : bool) (p : Peer) : Peer :=
  {| initiator := initiator p;
     trickle := trickle p;
     iceServers := iceServers p;
     listeners := listeners p;
     destroyed := destroyed p;
     channelOpen := v;
     signalled := signalled p;
     sent := sent p |}.

Definition setp_signalled (v : list Signal) (p : Peer) : Peer :=
  {| initiator := initiator p;
     trickle := trickle p;
     iceServers := iceServers p;
     listeners := listeners p;
     destroyed := destroyed p;
     channelOpen := channelOpen p;
     signalled := v;
     sent := sent p |}.

Definition setp_sent (v : list string) (p : Peer) : Peer :=
  {| initiator := initiator p;
     trickle := trickle p;
     iceServers := iceServers p;
     listeners := listeners p;
     destroyed := destroyed p;
     channelOpen := channelOpen p;
     signalled := signalled p;
     sent := v |}.


Record Hook : Type := mkHook {
  connectionStatus : string;
  videoActive : bool;
  videoDisplayMode : VideoDisplayMode;
  thermalAvailable : bool;
  peerRef : option nat;
  peers : list Peer;
  regularVideoRef : option VideoElement;
  thermalVideoRef : option VideoElement;
  videoTracksRef : VideoTracks;
  activeListenersRef : option DataListener;
  streamRef : option (list Track);
  trackCountRef : nat;
  stopped : list Track;
  onended : list Track
}.

Definition set_connectionStatus (v : string) (h : Hook) : Hook :=
  {| connectionStatus := v;
     videoActive := videoActive h;
     videoDisplayMode := videoDisplayMode h;
     thermalAvailable := thermalAvailable h;
     peerRef := peerRef h;
     peers := peers h;
     regularVideoRef := regularVideoRef h;
     thermalVideoRef := thermalVideoRef h;
     videoTracksRef := videoTracksRef h;
     activeListenersRef := activeListenersRef h;
     streamRef := streamRef h;
     trackCountRef := trackCountRef h;
     stopped := stopped h;
     onended := onended h |}.

Definition set_peerRef (v : option nat) (h : Hook) : Hook :=
  {| connectionStatus := connectionStatus h;
     videoActive := videoActive h;
     videoDisplayMode := videoDisplayMode h;
     thermalAvailable := thermalAvailable h;
     peerRef := v;
     peers := peers h;
     regularVideoRef := regularVideoRef h;
     thermalVideoRef := thermalVideoRef h;
     videoTracksRef := videoTracksRef h;
     activeListenersRef := activeListenersRef h;
     streamRef := streamRef h;
     trackCountRef := trackCountRef h;
     stopped := stopped h;
     onended := onended h |}.

Definition set_peers (v : list Peer) (h : Hook) : Hook :=
  {| connectionStatus := connectionStatus h;
     videoActive := videoActive h;
     videoDisplayMode := videoDisplayMode h;
     thermalAvailable := thermalAvailable h;
     peerRef := peerRef h;
     peers := v;
     regularVideoRef := regularVideoRef h;
     thermalVideoRef := thermalVideoRef h;
     videoTracksRef := videoTracksRef h;
     activeListenersRef := activeListenersRef h;
     streamRef := streamRef h;
     trackCountRef := trackCountRef h;
     stopped := stopped h;
     onended := onended h |}.

Definition set_regularVideoRef (v : option VideoElement) (h : Hook) : Hook :=
  {| connectionStatus := connectionStatus h;
     videoActive := videoActive h;
     videoDisplayMode := videoDisplayMode h;
     thermalAvailable := thermalAvailable h;
     peerRef := peerRef h;
     peers := peers h;
     regularVideoRef := v;
     thermalVideoRef := thermalVideoRef h;
     videoTracksRef := videoTracksRef h;
     activeListenersRef := activeListenersRef h;
     streamRef := streamRef h;
     trackCountRef := trackCountRef h;
     stopped := stopped h;
     onended := onended h |}.

Definition set_thermalVideoRef (v : option VideoElement) (h : Hook) : Hook :=
  {| connectionStatus := connectionStatus h;
     videoActive := videoActive h;
     videoDisplayMode := videoDisplayMode h;
     thermalAvailable := thermalAvailable h;
     peerRef := peerRef h;
     peers := peers h;
     regularVideoRef := regularVideoRef h;
     thermalVideoRef := v;
     videoTracksRef := videoTracksRef h;
     activeListenersRef := activeListenersRef h;
     streamRef := streamRef h;
     trackCountRef := trackCountRef h;
     stopped := stopped h;
     onended := onended h |}.

Definition set_videoTracksRef (v : VideoTracks) (h : Hook) : Hook :=
  {| connectionStatus := connectionStatus h;
     videoActive := videoActive h;
     videoDisplayMode := videoDisplayMode h;
     thermalAvailable := thermalAvailable h;
     peerRef := peerRef h;
     peers := peers h;
     regularVideoRef := regularVideoRef h;
     thermalVideoRef := thermalVideoRef h;
     videoTracksRef := v;
     activeListenersRef := activeListenersRef h;
     streamRef := streamRef h;
     trackCountRef := trackCountRef h;
     stopped := stopped h;
     onended := onended h |}.

Definition set_activeListenersRef (v : option DataListener) (h : Hook) : Hook :=
  {| connectionStatus := connectionStatus h;
     videoActive := videoActive h;
     videoDisplayMode := videoDisplayMode h;
     thermalAvailable := thermalAvailable h;
     peerRef := peerRef h;
     peers := peers h;
     regularVideoRef := regularVideoRef h;
     thermalVideoRef := thermalVideoRef h;
     videoTracksRef := videoTracksRef h;
     activeListenersRef := v;
     streamRef := streamRef h;
     trackCountRef := trackCountRef h;
     stopped := stopped h;
     onended := onended h |}.

Definition set_streamRef (v : option (list Track)) (h : Hook) : Hook :=
  {| connectionStatus := connectionStatus h;
     videoActive := videoActive h;
     videoDisplayMode := videoDisplayMode h;
     thermalAvailable := thermalAvailable h;
     peerRef := peerRef h;
     peers := peers h;
     regularVideoRef := regularVideoRef h;
     thermalVideoRef := thermalVideoRef h;
     videoTracksRef := videoTracksRef h;
     activeListenersRef := activeListenersRef h;
     streamRef := v;
     trackCountRef := trackCountRef h;
     stopped := stopped h;
     onended := onended h |}.

Definition set_trackCountRef (v : nat) (h : Hook) : Hook :=
  {| connectionStatus := connectionStatus h;
     videoActive := videoActive h;
     videoDisplayMode := videoDisplayMode h;
     thermalAvailable := thermalAvailable h;
     peerRef := peerRef h;
     peers := peers h;
     regularVideoRef := regularVideoRef h;
     thermalVideoRef := thermalVideoRef h;
     videoTracksRef := videoTracksRef h;
     activeListenersRef := activeListenersRef h;
     streamRef := streamRef h;
     trackCountRef := v;
     stopped := stopped h;
     onended := onended h |}.

Definition set_stopped (v : list Track) (h : Hook) : Hook :=
  {| connectionStatus := connectionStatus h;
     videoActive := videoActive h;
     videoDisplayMode := videoDisplayMode h;
     thermalAvailable := thermalAvailable h;
     peerRef := peerRef h;
     peers := peers h;
     regularVideoRef := regularVideoRef h;
     thermalVideoRef := thermalVideoRef h;
     videoTracksRef := videoTracksRef h;
     activeListenersRef := activeListenersRef h;
     streamRef := streamRef h;
     trackCountRef := trackCountRef h;
     stopped := v;
     onended := onended h |}.

Definition set_onended (v : list Track) (h : Hook) : Hook :=
  {| connectionStatus := connectionStatus h;
     videoActive := videoActive h;
     videoDisplayMode := videoDisplayMode h;
     thermalAvailable := thermalAvailable h;
     peerRef := peerRef h;
     peers := peers h;
     regularVideoRef := regularVideoRef h;
     thermalVideoRef := thermalVideoRef h;
     videoTracksRef := videoTracksRef h;
     activeListenersRef := activeListenersRef h;
     streamRef := streamRef h;
     trackCountRef := trackCountRef h;
     stopped := stopped h;
     onended := v |}.


Definition initialHook (regularEl thermalEl : option VideoElement) : Hook :=
  {| connectionStatus := "disconnected";
     videoActive := false;
     videoDisplayMode := REGULAR;
     thermalAvailable := false;
     peerRef := None;
     peers := [];
     regularVideoRef := regularEl;
     thermalVideoRef := thermalEl;
     videoTracksRef := {| regular := None; thermal := None |};
     activeListenersRef := None;
     streamRef := None;
     trackCountRef := 0;
     stopped := [];
     onended := [] |}.

(** ** Peer objects *)

Fixpoint updateAt {A : Type} (i : nat) (f : A -> A) (l : list A) : list A :=
  match l, i with
  | [], _ => []
  | x :: r, O => f x :: r
  | x :: r, S i' => x :: updateAt i' f r
  end.

(** The peer [peerRef.current] points to. *)
Definition currentPeer (h : Hook) : option Peer :=
  match peerRef h with
  | Some i => nth_error (peers h) i
  | None => None
  end.

Definition withPeer (i : nat) (f : Peer -> Peer) (h : Hook) : Hook :=
  set_peers (updateAt i f (peers h)) h.

(** [peer.removeAllListeners(event)] *)
Definition removeAllListeners (event : string) (p : Peer) : Peer :=
  setp_listeners
    (filter (fun l => negb (String.eqb (fst l) event)) (listeners p)) p.

(** [peer.on(event, l)] *)
Definition on (event : string) (l : Listener) (p : Peer) : Peer :=
  setp_listeners (listeners p ++ [(event, l)]) p.

(** [peer.destroy()] *)
Definition destroy (p : Peer) : Peer :=
  setp_channelOpen false (setp_destroyed true p).

(** [peer.send(chunk)]: it throws ([None]) on a destroyed peer and on a peer
    whose data channel is not open. *)
Definition send (chunk : string) (p : Peer) : option Peer :=
  if destroyed p || negb (channelOpen p) then None
  else Some (setp_sent (sent p ++ [chunk]) p).

(** [new SimplePeer({ initiator, trickle, config: { iceServers } })] *)
Definition newSimplePeer (init trick : bool) (servers : list Constants.IceServer) : Peer :=
  {| initiator := init; trickle := trick; iceServers := servers;
     listeners := []; destroyed := false; channelOpen := false;
     signalled := []; sent := [] |}.

(** ** cleanupPeer *)

Definition teardownEvents : list string :=
  ["signal"; "connect"; "close"; "error"; "data"; "stream"; "track"]%string.

Definition cleanupPeer (h : Hook) : Hook :=
  match peerRef h with
  | Some i =>
      let h1 := fold_left (fun h' event => withPeer i (removeAllListeners event) h')
                          teardownEvents h in
      let h2 := withPeer i destroy h1 in
      set_trackCountRef 0 (set_activeListenersRef None (set_peerRef None h2))
  | None => h
  end.

(** ** handleTrack *)

Definition stopAll (ts : list Track) (h : Hook) : Hook :=
  set_stopped (stopped h ++ ts) h.

Definition stopBound (t : option Track) (h : Hook) : Hook :=
  match t with
  | Some t' => stopAll [t'] h
  | None => h
  end.

Definition stopSource (el : VideoElement) (h : Hook) : Hook :=
  match srcObject el with
  | Some ts => stopAll ts h
  | None => h
  end.

(** The element once a stream of the single [track] is bound to it. *)
Definition bindStream (track : Track) : VideoElement :=
  {| srcObject := Some [track]; autoplay := true; playsInline := true;
     muted := true; onloadedmetadata := true |}.

Definition handleTrack (track : Track) (h : Hook) : Hook :=
  if negb (String.eqb (kind track) "video") then h
  else
    let h := set_trackCountRef (trackCountRef h + 1) h in
    let trackCount := trackCountRef h in
    let isRegular := Nat.eqb trackCount 1 in
    let isThermal := Nat.eqb trackCount 2 in
    match isRegular, regularVideoRef h with
    | true, Some el =>
        let h := stopBound (regular (videoTracksRef h)) h in
        let h := set_videoTracksRef
                   {| regular := Some track;
                      thermal := thermal (videoTracksRef h) |} h in
        let h := stopSource el h in
        let h := set_regularVideoRef (Some (bindStream track)) h in
        set_onended (onended h ++ [track]) h
    | _, _ =>
        match isThermal, thermalVideoRef h with
        | true, Some el =>
            let h := stopBound (thermal (videoTracksRef h)) h in
            let h := set_videoTracksRef
                       {| regular := regular (videoTracksRef h);
                          thermal := Some track |} h in
            let h := stopSource el h in
            let h := set_thermalVideoRef (Some (bindStream track)) h in
            set_onended (onended h ++ [track]) h
        | _, _ => h
        end
    end.

(** ** handleOffer *)

(** [offerData && offerData.sdp && offerData.type === "offer"] *)
Definition wellFormedOffer (offerData : option Signal) : bool :=
  match offerData with
  | None => false
  | Some o =>
      match sdp o, type o with
      | Some s, Some t => negb (String.eqb s "") && String.eqb t "offer"
      | _, _ => false
      end
  end.

(** [peer.signal(data)]; it throws ([None]) on a destroyed peer. *)
Definition signal (data : Signal) (p : Peer) : option Peer :=
  if destroyed p then None
  else Some (setp_signalled (signalled p ++ [data]) p).

Definition handleOffer (offerData : option Signal) (h : Hook) : Hook :=
  match offerData with
  | Some offer =>
      if negb (wellFormedOffer offerData) then h
      else
        let h := cleanupPeer h in
        let h := set_trackCountRef 0 h in
        let peer := newSimplePeer false false Constants.ICE_SERVERS in
        let i := List.length (peers h) in
        let h := set_peerRef (Some i) (set_peers (peers h ++ [peer]) h) in
        let h := withPeer i (on "signal" OnSignal) h in
        let h := withPeer i (on "connect" OnConnect) h in
        let h := withPeer i (on "close" OnClose) h in
        let h := withPeer i (on "error" OnError) h in
        let h := withPeer i (on "stream" OnStream) h in
        let h := withPeer i (on "track" OnTrack) h in
        (* try { peer.signal(offerData) } catch (err) { ... } *)
        withPeer i (fun p => match signal offer p with
                             | Some p' => p'
                             | None => p
                             end) h
  | None => h
  end.

(** ** The peer events the hook listens to *)

(** "connect": the data channel is open. *)
Definition onConnect (h : Hook) : Hook :=
  match peerRef h with
  | Some i => set_connectionStatus "connected" (withPeer i (setp_channelOpen true) h)
  | None => h
  end.

(** "close" *)
Definition onClose (h : Hook) : Hook :=
  cleanupPeer (set_connectionStatus "disconnected" h).

(** "error" *)
Definition onError (h : Hook) : Hook := set_connectionStatus "failed" h.

(** ** sendCommand *)

(** What a call does: it returns, leaving the hook in a state, or it throws. *)
Inductive Outcome : Type :=
| Returns (h : Hook)
| Throws.

Definition mayCommand (h : Hook) : bool :=
  match peerRef h with
  | Some _ => String.eqb (connectionStatus h) "connected" || videoActive h
  | None => false
  end.

Definition sendCommand (command : string) (h : Hook) : Outcome :=
  match peerRef h with
  | Some i =>
      if negb (String.eqb (connectionStatus h) "connected" || videoActive h)
      then Returns h
      else
        match nth_error (peers h) i with
        | Some p =>
            match send command p with
            | Some p' => Returns (withPeer i (fun _ => p') h)
            | None => Throws
            end
        | None => Throws
        end
  | None => Returns h
  end.

(** What each peer has been handed to transmit. *)
Definition transmitted (h : Hook) : list (list string) := map sent (peers h).

End WebRTC.

(* ================================================================== *)
(** * The useJoystick hook                                            *)
(* ================================================================== *)

Module Joystick.

(** [currentPWMValues], one field per RC channel (1 roll, 2 pitch, 3 throttle,
    4 yaw). *)
Record PWMValues : Type := mkPWM {
  ROLL : Js.number;
  PITCH : Js.number;
  THROTTLE : Js.number;
  YAW : Js.number
}.

Definition initialPWMValues : PWMValues :=
  {| ROLL := Js.Fin 1500; PITCH := Js.Fin 1500;
     THROTTLE := Js.Fin 1000; YAW := Js.Fin 1500 |}.

(** [gamepad.axes[i]]; an axis the device does not have reads [undefined],
    which every use below coerces to NaN. *)
Definition axis (axes : list Js.number) (i : nat) : Js.number := nth i axes Js.NaN.

(** The updater [pollJoystick] hands to [setCurrentPWMValues]. *)
Definition pollUpdate (axes : list Js.number) (prev : PWMValues) : PWMValues :=
  let rawYaw := axis axes 0 in
  let rawThrottle := Js.neg (axis axes 1) in
  let rawRoll := axis axes 2 in
  let rawPitch := Js.neg (axis axes 3) in
  let yaw := Utils.applyDeadzone rawYaw Constants.JOYSTICK_DEADZONE in
  let roll := Utils.applyDeadzone rawRoll Constants.JOYSTICK_DEADZONE in
  let pitch := Utils.applyDeadzone rawPitch Constants.JOYSTICK_DEADZONE in
  let throttle :=
    if Js.gt (Js.abs rawThrottle) Constants.JOYSTICK_DEADZONE then
      let throttleChange := Js.mul rawThrottle Constants.THROTTLE_CHANGE_RATE in
      Js.round (Js.max (Js.Fin 1000)
                  (Js.min (Js.Fin 2000) (Js.add (THROTTLE prev) throttleChange)))
    else THROTTLE prev in
  {| ROLL := Utils.mapToPWM roll;
     PITCH := Utils.mapToPWM pitch;
     THROTTLE := throttle;
     YAW := Utils.mapToPWM yaw |}.

(** One poll tick: nothing happens without a gamepad. *)
Definition pollJoystick (gamepad : option (list Js.number)) (prev : PWMValues) : PWMValues :=
  match gamepad with
  | Some axes => pollUpdate axes prev
  | None => prev
  end.

(** The values after a run of poll ticks, oldest first. *)
Definition pollMany (ticks : list (option (list Js.number))) (start : PWMValues) : PWMValues :=
  fold_left (fun prev g => pollJoystick g prev) ticks start.

End Joystick.

(* ================================================================== *)
(** * The useElevation hook                                           *)
(* ================================================================== *)

Module Elevation.

Record ElevationResult : Type := mkElevation {
  elevation : Js.number;
  lat : Js.number;
  lng : Js.number
}.

Definition Cache : Type := Js.obj ElevationResult.

(** [`${lat.toFixed(6)},${lng.toFixed(6)}`] *)
Definition cacheKey (lat lng : Js.number) : string :=
  (Js.toFixed6 lat ++ "," ++ Js.toFixed6 lng)%string.

(** The updater handed to [setElevationCache]. *)
Definition insert (key : string) (result : ElevationResult) (prevCache : Cache) : Cache :=
  let newCache := Js.set prevCache key result in
  Utils.limitCacheSize newCache Constants.MAX_ELEVATION_CACHE_SIZE.




End Elevation.

(* ================================================================== *)
(** * The WebRTCAdmin component                                       *)
(* ================================================================== *)

Module Admin.

Record Frames : Type := mkFrames {
  normal : Js.number;
  thermal : Js.number;
  thermal_data : Js.number
}.

Record VideoRecordingStatus : Type := mkRecording {
  recording : bool;
  timestamp : option string;
  frames : Frames;
  error : option string
}.

Record CaptureStatus : Type := mkCapture {
  capturing : bool;
  lastCapture : option string;
  captureError : option string
}.

Record ThermalSettings : Type := mkThermal {
  colormap : Js.number;
  contrast : Js.number;
  blur : Js.number;
  rotation : Js.number;
  threshold : Js.number;
  detectRegions : bool;
  showHud : bool;
  detectionMode : string
}.

(** [droneLocation]; the two ground fields are absent until an elevation is
    known. *)
Record Location : Type := mkLocation {
  lat : Js.number;
  lon : Js.number;
  alt : Js.number;
  mslAlt : Js.number;
  groundElevation : option Js.number;
  heightAboveGround : option Js.number
}.

Record LatLng : Type := mkLatLng {
  pointLat : Js.number;
  pointLng : Js.number
}.

(** The component's state, with the hook it composes.  [heartbeatCheckSince]
    is the time the heartbeat-check interval was last installed;
    [captureSafeguardTimeout] tells whether the capture timeout is pending. *)
Record Admin : Type := mkAdmin {
  rtc : WebRTC.Hook;
  elevationCache : Js.obj Elevation.ElevationResult;
  lastValidAGL : option Js.number;
  heartbeatError : bool;
  lastHeartbeatTime : Z;
  heartbeatCheckSince : Z;
  videoRecording : bool;
  videoRecordingFps : Js.number;
  videoRecordingStatus : VideoRecordingStatus;
  captureStatus : CaptureStatus;
  captureSafeguardTimeout : bool;
  thermalSettings : ThermalSettings;
  droneLocation : option Location;
  surveillanceMode : bool;
  surveillancePoints : list LatLng;
  isAreaFinalized : bool
}.

Definition set_rtc (v : WebRTC.Hook) (a : Admin) : Admin :=
  {| rtc := v;
     elevationCache := elevationCache a;
     lastValidAGL := lastValidAGL a;
     heartbeatError := heartbeatError a;
     lastHeartbeatTime := lastHeartbeatTime a;
     heartbeatCheckSince := heartbeatCheckSince a;
     videoRecording := videoRecording a;
     videoRecordingFps := videoRecordingFps a;
     videoRecordingStatus := videoRecordingStatus a;
     captureStatus := captureStatus a;
     captureSafeguardTimeout := captureSafeguardTimeout a;
     thermalSettings := thermalSettings a;
     droneLocation := droneLocation a;
     surveillanceMode := surveillanceMode a;
     surveillancePoints := surveillancePoints a;
     isAreaFinalized := isAreaFinalized a |}.

Definition set_elevationCache (v : Js.obj Elevation.ElevationResult) (a : Admin) : Admin :=
  {| rtc := rtc a;
     elevationCache := v;
     lastValidAGL := lastValidAGL a;
     heartbeatError := heartbeatError a;
     lastHeartbeatTime := lastHeartbeatTime a;
     heartbeatCheckSince := heartbeatCheckSince a;
     videoRecording := videoRecording a;
     videoRecordingFps := videoRecordingFps a;
     videoRecordingStatus := videoRecordingStatus a;
     captureStatus := captureStatus a;
     captureSafeguardTimeout := captureSafeguardTimeout a;
     thermalSettings := thermalSettings a;
     droneLocation := droneLocation a;
     surveillanceMode := surveillanceMode a;
     surveillancePoints := surveillancePoints a;
     isAreaFinalized := isAreaFinalized a |}.

Definition set_lastValidAGL (v : option Js.number) (a : Admin) : Admin :=
  {| rtc := rtc a;
     elevationCache := elevationCache a;
     lastValidAGL := v;
     heartbeatError := heartbeatError a;
     lastHeartbeatTime := lastHeartbeatTime a;
     heartbeatCheckSince := heartbeatCheckSince a;
     videoRecording := videoRecording a;
     videoRecordingFps := videoRecordingFps a;
     videoRecordingStatus := videoRecordingStatus a;
     captureStatus := captureStatus a;
     captureSafeguardTimeout := captureSafeguardTimeout a;
     thermalSettings := thermalSettings a;
     droneLocation := droneLocation a;
     surveillanceMode := surveillanceMode a;
     surveillancePoints := surveillancePoints a;
     isAreaFinalized := isAreaFinalized a |}.

Definition set_heartbeatError (v : bool) (a : Admin) : Admin :=
  {| rtc := rtc a;
     elevationCache := elevationCache a;
     lastValidAGL := lastValidAGL a;
     heartbeatError := v;
     lastHeartbeatTime := lastHeartbeatTime a;
     heartbeatCheckSince := heartbeatCheckSince a;
     videoRecording := videoRecording a;
     videoRecordingFps := videoRecordingFps a;
     videoRecordingStatus := videoRecordingStatus a;
     captureStatus := captureStatus a;
     captureSafeguardTimeout := captureSafeguardTimeout a;
     thermalSettings := thermalSettings a;
     droneLocation := droneLocation a;
     surveillanceMode := surveillanceMode a;
     surveillancePoints := surveillancePoints a;
     isAreaFinalized := isAreaFinalized a |}.

Definition set_lastHeartbeatTime (v : Z) (a : Admin) : Admin :=
  {| rtc := rtc a;
     elevationCache := elevationCache a;
     lastValidAGL := lastValidAGL a;
     heartbeatError := heartbeatError a;
     lastHeartbeatTime := v;
     heartbeatCheckSince := heartbeatCheckSince a;
     videoRecording := videoRecording a;
     videoRecordingFps := videoRecordingFps a;
     videoRecordingStatus := videoRecordingStatus a;
     captureStatus := captureStatus a;
     captureSafeguardTimeout := captureSafeguardTimeout a;
     thermalSettings := thermalSettings a;
     droneLocation := droneLocation a;
     surveillanceMode := surveillanceMode a;
     surveillancePoints := surveillancePoints a;
     isAreaFinalized := isAreaFinalized a |}.

Definition set_heartbeatCheckSince (v : Z) (a : Admin) : Admin :=
  {| rtc := rtc a;
     elevationCache := elevationCache a;
     lastValidAGL := lastValidAGL a;
     heartbeatError := heartbeatError a;
     lastHeartbeatTime := lastHeartbeatTime a;
     heartbeatCheckSince := v;
     videoRecording := videoRecording a;
     videoRecordingFps := videoRecordingFps a;
     videoRecordingStatus := videoRecordingStatus a;
     captureStatus := captureStatus a;
     captureSafeguardTimeout := captureSafeguardTimeout a;
     thermalSettings := thermalSettings a;
     droneLocation := droneLocation a;
     surveillanceMode := surveillanceMode a;
     surveillancePoints := surveillancePoints a;
     isAreaFinalized := isAreaFinalized a |}.

Definition set_videoRecording (v : bool) (a : Admin) : Admin :=
  {| rtc := rtc a;
     elevationCache := elevationCache a;
     lastValidAGL := lastValidAGL a;
     heartbeatError := heartbeatError a;
     lastHeartbeatTime := lastHeartbeatTime a;
     heartbeatCheckSince := heartbeatCheckSince a;
     videoRecording := v;
     videoRecordingFps := videoRecordingFps a;
     videoRecordingStatus := videoRecordingStatus a;
     captureStatus := captureStatus a;
     captureSafeguardTimeout := captureSafeguardTimeout a;
     thermalSettings := thermalSettings a;
     droneLocation := droneLocation a;
     surveillanceMode := surveillanceMode a;
     surveillancePoints := surveillancePoints a;
     isAreaFinalized := isAreaFinalized a |}.

Definition set_videoRecordingStatus (v : VideoRecordingStatus) (a : Admin) : Admin :=
  {| rtc := rtc a;
     elevationCache := elevationCache a;
     lastValidAGL := lastValidAGL a;
     heartbeatError := heartbeatError a;
     lastHeartbeatTime := lastHeartbeatTime a;
     heartbeatCheckSince := heartbeatCheckSince a;
     videoRecording := videoRecording a;
     videoRecordingFps := videoRecordingFps a;
     videoRecordingStatus := v;
     captureStatus := captureStatus a;
     captureSafeguardTimeout := captureSafeguardTimeout a;
     thermalSettings := thermalSettings a;
     droneLocation := droneLocation a;
     surveillanceMode := surveillanceMode a;
     surveillancePoints := surveillancePoints a;
     isAreaFinalized := isAreaFinalized a |}.

Definition set_captureStatus (v : CaptureStatus) (a : Admin) : Admin :=
  {| rtc := rtc a;
     elevationCache := elevationCache a;
     lastValidAGL := lastValidAGL a;
     heartbeatError := heartbeatError a;
     lastHeartbeatTime := lastHeartbeatTime a;
     heartbeatCheckSince := heartbeatCheckSince a;
     videoRecording := videoRecording a;
     videoRecordingFps := videoRecordingFps a;
     videoRecordingStatus := videoRecordingStatus a;
     captureStatus := v;
     captureSafeguardTimeout := captureSafeguardTimeout a;
     thermalSettings := thermalSettings a;
     droneLocation := droneLocation a;
     surveillanceMode := surveillanceMode a;
     surveillancePoints := surveillancePoints a;
     isAreaFinalized := isAreaFinalized a |}.

Definition set_captureSafeguardTimeout (v : bool) (a : Admin) : Admin :=
  {| rtc := rtc a;
     elevationCache := elevationCache a;
     lastValidAGL := lastValidAGL a;
     heartbeatError := heartbeatError a;
     lastHeartbeatTime := lastHeartbeatTime a;
     heartbeatCheckSince := heartbeatCheckSince a;
     videoRecording := videoRecording a;
     videoRecordingFps := videoRecordingFps a;
     videoRecordingStatus := videoRecordingStatus a;
     captureStatus := captureStatus a;
     captureSafeguardTimeout := v;
     thermalSettings := thermalSettings a;
     droneLocation := droneLocation a;
     surveillanceMode := surveillanceMode a;
     surveillancePoints := surveillancePoints a;
     isAreaFinalized := isAreaFinalized a |}.

Definition set_thermalSettings (v : ThermalSettings) (a : Admin) : Admin :=
  {| rtc := rtc a;
     elevationCache := elevationCache a;
     lastValidAGL := lastValidAGL a;
     heartbeatError := heartbeatError a;
     lastHeartbeatTime := lastHeartbeatTime a;
     heartbeatCheckSince := heartbeatCheckSince a;
     videoRecording := videoRecording a;
     videoRecordingFps := videoRecordingFps a;
     videoRecordingStatus := videoRecordingStatus a;
     captureStatus := captureStatus a;
     captureSafeguardTimeout := captureSafeguardTimeout a;
     thermalSettings := v;
     droneLocation := droneLocation a;
     surveillanceMode := surveillanceMode a;
     surveillancePoints := surveillancePoints a;
     isAreaFinalized := isAreaFinalized a |}.

Definition set_droneLocation (v : option Location) (a : Admin) : Admin :=
  {| rtc := rtc a;
     elevationCache := elevationCache a;
     lastValidAGL := lastValidAGL a;
     heartbeatError := heartbeatError a;
     lastHeartbeatTime := lastHeartbeatTime a;
     heartbeatCheckSince := heartbeatCheckSince a;
     videoRecording := videoRecording a;
     videoRecordingFps := videoRecordingFps a;
     videoRecordingStatus := videoRecordingStatus a;
     captureStatus := captureStatus a;
     captureSafeguardTimeout := captureSafeguardTimeout a;
     thermalSettings := thermalSettings a;
     droneLocation := v;
     surveillanceMode := surveillanceMode a;
     surveillancePoints := surveillancePoints a;
     isAreaFinalized := isAreaFinalized a |}.

Definition set_surveillanceMode (v : bool) (a : Admin) : Admin :=
  {| rtc := rtc a;
     elevationCache := elevationCache a;
     lastValidAGL := lastValidAGL a;
     heartbeatError := heartbeatError a;
     lastHeartbeatTime := lastHeartbeatTime a;
     heartbeatCheckSince := heartbeatCheckSince a;
     videoRecording := videoRecording a;
     videoRecordingFps := videoRecordingFps a;
     videoRecordingStatus := videoRecordingStatus a;
     captureStatus := captureStatus a;
     captureSafeguardTimeout := captureSafeguardTimeout a;
     thermalSettings := thermalSettings a;
     droneLocation := droneLocation a;
     surveillanceMode := v;
     surveillancePoints := surveillancePoints a;
     isAreaFinalized := isAreaFinalized a |}.

Definition set_surveillancePoints (v : list LatLng) (a : Admin) : Admin :=
  {| rtc := rtc a;
     elevationCache := elevationCache a;
     lastValidAGL := lastValidAGL a;
     heartbeatError := heartbeatError a;
     lastHeartbeatTime := lastHeartbeatTime a;
     heartbeatCheckSince := heartbeatCheckSince a;
     videoRecording := videoRecording a;
     videoRecordingFps := videoRecordingFps a;
     videoRecordingStatus := videoRecordingStatus a;
     captureStatus := captureStatus a;
     captureSafeguardTimeout := captureSafeguardTimeout a;
     thermalSettings := thermalSettings a;
     droneLocation := droneLocation a;
     surveillanceMode := surveillanceMode a;
     surveillancePoints := v;
     isAreaFinalized := isAreaFinalized a |}.

Definition set_isAreaFinalized (v : bool) (a : Admin) : Admin :=
  {| rtc := rtc a;
     elevationCache := elevationCache a;
     lastValidAGL := lastValidAGL a;
     heartbeatError := heartbeatError a;
     lastHeartbeatTime := lastHeartbeatTime a;
     heartbeatCheckSince := heartbeatCheckSince a;
     videoRecording := videoRecording a;
     videoRecordingFps := videoRecordingFps a;
     videoRecordingStatus := videoRecordingStatus a;
     captureStatus := captureStatus a;
     captureSafeguardTimeout := captureSafeguardTimeout a;
     thermalSettings := thermalSettings a;
     droneLocation := droneLocation a;
     surveillanceMode := surveillanceMode a;
     surveillancePoints := surveillancePoints a;
     isAreaFinalized := v |}.


Definition initialAdmin (now : Z) (h : WebRTC.Hook) : Admin :=
  {| rtc := h;
     elevationCache := [];
     lastValidAGL := None;
     heartbeatError := false;
     lastHeartbeatTime := now;
     heartbeatCheckSince := now;
     videoRecording := false;
     videoRecordingFps := Js.Fin 1;
     videoRecordingStatus :=
       {| recording := false; timestamp := None;
          frames := {| normal := Js.Fin 0; thermal := Js.Fin 0; thermal_data := Js.Fin 0 |};
          error := None |};
     captureStatus := {| capturing := false; lastCapture := None; captureError := None |};
     captureSafeguardTimeout := false;
     thermalSettings :=
       {| colormap := Js.Fin 0; contrast := Js.Fin 1; blur := Js.Fin 0;
          rotation := Js.Fin 270; threshold := Js.Fin 30;
          detectRegions := true; showHud := true; detectionMode := "over" |};
     droneLocation := None;
     surveillanceMode := false;
     surveillancePoints := [];
     isAreaFinalized := false |}.

(** ** Survey area *)

(** [finalizeArea]: the state, and the alert shown when the area is refused. *)
Definition finalizeArea (a : Admin) : Admin * option string :=
  if Nat.ltb (List.length (surveillancePoints a)) 3
  then (a, Some "Please add at least 3 points to create a valid area"%string)
  else (set_isAreaFinalized true a, None).

Definition resetArea (a : Admin) : Admin :=
  set_isAreaFinalized false (set_surveillancePoints [] a).

(** The surveillance branch of [handleMapClick]. *)
Definition addSurveillancePoint (p : LatLng) (a : Admin) : Admin :=
  if surveillanceMode a && negb (isAreaFinalized a)
  then set_surveillancePoints (surveillancePoints a ++ [p]) a
  else a.

(** ** Heartbeat *)

(** The callback of the heartbeat-check interval, run at time [now]. *)
Definition heartbeatCheck (now : Z) (a : Admin) : Admin :=
  if WebRTC.videoActive (rtc a) then set_heartbeatError false a
  else if (now - lastHeartbeatTime a >? 5000)%Z then set_heartbeatError true a
  else set_heartbeatError false a.

Definition HEARTBEAT_CHECK_PERIOD : Z := 300.

(** [n] successive firings of the interval, the first one period after [t]. *)
Fixpoint fireTicks (n : nat) (t : Z) (a : Admin) : Admin :=
  match n with
  | O => a
  | S n' =>
      let t' := (t + HEARTBEAT_CHECK_PERIOD)%Z in
      fireTicks n' t' (heartbeatCheck t' a)
  end.

(** The firings due by time [t], counted from the installation of the
    interval. *)
Definition ticksDue (t : Z) (a : Admin) : nat :=
  Z.to_nat ((t - heartbeatCheckSince a) / HEARTBEAT_CHECK_PERIOD).

(** The component at time [t], when nothing but the interval runs until then. *)
Definition elapse (t : Z) (a : Admin) : Admin :=
  fireTicks (ticksDue t a) (heartbeatCheckSince a) a.

(** The heartbeat-check effect depends on [lastHeartbeatTime] and
    [videoActive]: when either changed in an update made at time [now], the
    interval is cleared and installed again. *)
Definition rerunHeartbeatEffect (now : Z) (before after : Admin) : Admin :=
  if (lastHeartbeatTime before =? lastHeartbeatTime after)%Z
     && Bool.eqb (WebRTC.videoActive (rtc before)) (WebRTC.videoActive (rtc after))
  then after
  else set_heartbeatCheckSince now after.

(** ** Inbound messages *)

(** What the elevation service answers: the request fails, the answer has
    no result, or it carries an elevation. *)
Inductive FetchOutcome : Type :=
| FetchFails
| FetchEmpty
| FetchResult (elevation : Js.number).

Definition part (parts : list string) (i : nat) : string := nth i parts EmptyString.

(** [droneLocation && droneLocation.groundElevation], when truthy. *)
Definition knownGround (a : Admin) : option Js.number :=
  match droneLocation a with
  | Some d =>
      match groundElevation d with
      | Some g => if Js.truthy g then Some g else None
      | None => None
      end
  | None => None
  end.

(** [!droneLocation || |Δlat| > 0.0001 || |Δlon| > 0.0001] *)
Definition needsLookup (a : Admin) (lat lon : Js.number) : bool :=
  match droneLocation a with
  | None => true
  | Some d =>
      Js.gt (Js.abs (Js.sub (Admin.lat d) lat)) (Js.Fin (1 # 10000))
      || Js.gt (Js.abs (Js.sub (Admin.lon d) lon)) (Js.Fin (1 # 10000))
  end.

Definition withGround (g : Js.number) (l : Location) : Location :=
  {| lat := lat l; lon := lon l; alt := alt l; mslAlt := mslAlt l;
     groundElevation := Some g;
     heightAboveGround := Some (Js.sub (mslAlt l) g) |}.

Definition handleLocationMessage (fetch : FetchOutcome) (msg : string) (a : Admin) : Admin :=
  if negb (Js.startsWith msg "LOCATION:") then a
  else
    let parts := Js.split ":" msg in
    if negb (Nat.eqb (List.length parts) 5) then a
    else
      let lat := Js.parseFloat (part parts 1) in
      let lon := Js.parseFloat (part parts 2) in
      let relAlt := Js.parseFloat (part parts 3) in
      let mslAlt := Js.parseFloat (part parts 4) in
      if Js.isNaN lat || Js.isNaN lon || Js.isNaN relAlt || Js.isNaN mslAlt then a
      else
        let currentLocation :=
          {| lat := lat; lon := lon; alt := relAlt; mslAlt := mslAlt;
             groundElevation := None; heightAboveGround := None |} in
        if needsLookup a lat lon then
          let cacheKey := Elevation.cacheKey lat lon in
          match Js.get (elevationCache a) cacheKey with
          | Some entry =>
              let l := withGround (Elevation.elevation entry) currentLocation in
              set_droneLocation (Some l) (set_lastValidAGL (heightAboveGround l) a)
          | None =>
              match fetch with
              | FetchResult g =>
                  let l := withGround g currentLocation in
                  let entry := {| Elevation.elevation := g;
                                  Elevation.lat := lat; Elevation.lng := lon |} in
                  set_droneLocation (Some l)
                    (set_elevationCache (Elevation.insert cacheKey entry (elevationCache a))
                       (set_lastValidAGL (heightAboveGround l) a))
              | FetchEmpty => set_droneLocation (Some currentLocation) a
              | FetchFails =>
                  (* catch (elevError) *)
                  match knownGround a with
                  | Some g => set_droneLocation (Some (withGround g currentLocation)) a
                  | None => set_droneLocation (Some currentLocation) a
                  end
              end
          end
        else
          match knownGround a with
          | Some g =>
              let l := withGround g currentLocation in
              set_droneLocation (Some l) (set_lastValidAGL (heightAboveGround l) a)
          | None => set_droneLocation (Some currentLocation) a
          end.

Definition handleOtherMessages (now : Z) (msg : string) (a : Admin) : Admin :=
  if String.eqb msg "heartbeat" then set_lastHeartbeatTime now a
  else if Js.startsWith msg "CAPTURE_SUCCESS:" then
    let timestamp := part (Js.split ":" msg) 1 in
    set_captureStatus
      {| capturing := false; lastCapture := Some timestamp; captureError := None |}
      (set_captureSafeguardTimeout false a)
  else if Js.startsWith msg "CAPTURE_ERROR:" then
    let errorMsg := Js.substringFrom (String.length "CAPTURE_ERROR:") msg in
    set_captureStatus
      {| capturing := false; lastCapture := None; captureError := Some errorMsg |}
      (set_captureSafeguardTimeout false a)
  else if Js.startsWith msg "VIDEO_STARTED:" then
    let parts := Js.split ":" msg in
    if Nat.leb 2 (List.length parts) then
      let timestamp := part parts 1 in
      set_videoRecording true
        (set_videoRecordingStatus
           {| recording := true; timestamp := Some timestamp;
              frames := {| normal := Js.Fin 0; thermal := Js.Fin 0;
                           thermal_data := Js.Fin 0 |};
              error := None |} a)
    else a
  else if Js.startsWith msg "VIDEO_STOPPED:" then
    let parts := Js.split ":" msg in
    if Nat.leb 5 (List.length parts) then
      let timestamp := part parts 1 in
      let normalFrames := Js.parseInt10 (part parts 2) in
      let thermalFrames := Js.parseInt10 (part parts 3) in
      let thermalDataFrames := Js.parseInt10 (part parts 4) in
      set_videoRecording false
        (set_videoRecordingStatus
           {| recording := false; timestamp := Some timestamp;
              frames := {| normal := normalFrames; thermal := thermalFrames;
                           thermal_data := thermalDataFrames |};
              error := None |} a)
    else a
  else if Js.startsWith msg "VIDEO_ERROR:" then
    let errorMsg := Js.substringFrom (String.length "VIDEO_ERROR:") msg in
    let prev := videoRecordingStatus a in
    set_videoRecording false
      (set_videoRecordingStatus
         {| recording := false; timestamp := timestamp prev;
            frames := frames prev; error := Some errorMsg |} a)
  else if Js.startsWith msg "THERMAL_DETECT_REGIONS_STATUS:" then
    let status := part (Js.split ":" msg) 1 in
    let prev := thermalSettings a in
    set_thermalSettings
      {| colormap := colormap prev; contrast := contrast prev; blur := blur prev;
         rotation := rotation prev; threshold := threshold prev;
         detectRegions := String.eqb status "enabled";
         showHud := showHud prev; detectionMode := detectionMode prev |} a
  else if Js.startsWith msg "THERMAL_DETECTION_MODE_STATUS:" then
    let mode := part (Js.split ":" msg) 1 in
    let prev := thermalSettings a in
    set_thermalSettings
      {| colormap := colormap prev; contrast := contrast prev; blur := blur prev;
         rotation := rotation prev; threshold := threshold prev;
         detectRegions := detectRegions prev;
         showHud := showHud prev; detectionMode := mode |} a
  else a.

(** [handleDataMessage]: [now] is the clock when the message arrives and
    [fetch] what the elevation service would answer. *)
Definition handleDataMessage (now : Z) (fetch : FetchOutcome) (msg : string) (a : Admin) : Admin :=
  handleOtherMessages now msg (handleLocationMessage fetch msg a).

(** A message arrives at time [now] and the effects that depend on the
    changed state run. *)
Definition receive (now : Z) (fetch : FetchOutcome) (msg : string) (a : Admin) : Admin :=
  rerunHeartbeatEffect now a (handleDataMessage now fetch msg a).

End Admin.

(* ================================================================== *)
(** * components/Map/MapPanel.jsx                                     *)
(* ================================================================== *)

Module MapPanel.

(** The surveillance settings the panel keeps. *)
Record Settings : Type := mkSettings {
  droneSpeed : Js.number;
  surveillanceAltitude : Js.number;
  surveillanceStyle : string;
  lineSpacing : Js.number;
  bufferZone : Js.number
}.

Definition initialSettings : Settings :=
  {| droneSpeed := Js.Fin 5; surveillanceAltitude := Js.Fin 30;
     surveillanceStyle := "longest"; lineSpacing := Js.Fin 15;
     bufferZone := Js.Fin 5 |}.

Section Mission.
(** The conversion of a number to a string that a template literal applies. *)
Variable toStr : Js.number -> string.

Definition pointToken (p : Admin.LatLng) : string :=
  (toStr (Admin.pointLat p) ++ ":" ++ toStr (Admin.pointLng p))%string.

(** The command [startSurveillanceMission] builds. *)
Definition missionCommand (surveillancePoints : list Admin.LatLng) (st : Settings) : string :=
  let pointsStr := Js.join "," (map pointToken surveillancePoints) in
  let missionParams :=
    (toStr (droneSpeed st) ++ ":" ++ toStr (surveillanceAltitude st) ++ ":"
       ++ surveillanceStyle st ++ ":" ++ toStr (lineSpacing st) ++ ":"
       ++ toStr (bufferZone st))%string in
  ("START_SURVEILLANCE:" ++ pointsStr ++ "|" ++ missionParams)%string.

(** [startSurveillanceMission]: the command goes straight to the peer; the
    alert is shown when the console is not connected. *)
Definition startSurveillanceMission (st : Settings) (a : Admin.Admin)
  : WebRTC.Outcome * option string :=
  let h := Admin.rtc a in
  match WebRTC.peerRef h with
  | Some i =>
      if String.eqb (WebRTC.connectionStatus h) "connected" || WebRTC.videoActive h then
        match nth_error (WebRTC.peers h) i with
        | Some p =>
            match WebRTC.send (missionCommand (Admin.surveillancePoints a) st) p with
            | Some p' => (WebRTC.Returns (WebRTC.withPeer i (fun _ => p') h), None)
            | None => (WebRTC.Throws, None)
            end
        | None => (WebRTC.Throws, None)
        end
      else (WebRTC.Returns h, Some "Not connected to drone"%string)
  | None => (WebRTC.Returns h, Some "Not connected to drone"%string)
  end.
End Mission.

(** ** Reading a mission command back *)

Definition vertexFields (v : string) : option (string * string) :=
  match Js.split ":" v with
  | [la; lo] => Some (la, lo)
  | _ => None
  end.

Fixpoint allSome {A : Type} (l : list (option A)) : option (list A) :=
  match l with
  | [] => Some []
  | Some x :: r =>
      match allSome r with
      | Some xs => Some (x :: xs)
      | None => None
      end
  | None :: _ => None
  end.

(** Modelled from the spec: the reader of a START_SURVEILLANCE message runs on
    the vehicle and is not among the console's sources.  Following the grammar
    [START_SURVEILLANCE:<lat1>:<lon1>,...|<speed>:<altitude>:<style>:<lineSpacing>:<bufferZone>],
    the message is split at the bar, the points at the commas and each point
    and the parameters at the colons. *)
Definition resplit (msg : string)
  : option (list (string * string) * (string * string * string * string * string)) :=
  if Js.startsWith msg "START_SURVEILLANCE:" then
    match Js.split "|" (Js.substringFrom (String.length "START_SURVEILLANCE:") msg) with
    | [pointsStr; paramsStr] =>
        match allSome (map vertexFields (Js.split "," pointsStr)),
              Js.split ":" paramsStr with
        | Some vertices, [speed; altitude; style; spacing; buffer] =>
            Some (vertices, (speed, altitude, style, spacing, buffer))
        | _, _ => None
        end
    | _ => None
    end
  else None.

(** Modelled from the spec: the vertex list and the parameter tuple a re-split
    message stands for, every numeric field read with [parseFloat]. *)
Definition decodeMission (msg : string) : option (list Admin.LatLng * Settings) :=
  match resplit msg with
  | Some (vertices, (speed, altitude, style, spacing, buffer)) =>
      Some (map (fun v => {| Admin.pointLat := Js.parseFloat (fst v);
                             Admin.pointLng := Js.parseFloat (snd v) |}) vertices,
            {| droneSpeed := Js.parseFloat speed;
               surveillanceAltitude := Js.parseFloat altitude;
               surveillanceStyle := style;
               lineSpacing := Js.parseFloat spacing;
               bufferZone := Js.parseFloat buffer |})
  | None => None
  end.

End MapPanel.

(* ================================================================== *)
(** * Facts about the built-ins                                       *)
(* ================================================================== *)

Module JsFacts.
Import Js.

Lemma Qltb_true (x y : Q) : Qltb x y = true <-> x < y.
Proof.
  unfold Qltb. rewrite negb_true_iff.
  destruct (Qle_bool y x) eqn:E.
  - apply Qle_bool_iff in E. split; [discriminate | intro H; exfalso; lra].
  - split; [intros _ | reflexivity].
    apply Qnot_le_lt. intro H. apply Qle_bool_iff in H. congruence.
Qed.

Lemma Qltb_false (x y : Q) : Qltb x y = false <-> y <= x.
Proof.
  destruct (Qltb x y) eqn:E.
  - apply Qltb_true in E. split; [discriminate | intro; exfalso; lra].
  - split; [intros _ | reflexivity].
    apply Qnot_lt_le. intro H. apply Qltb_true in H. congruence.
Qed.

Lemma Qeqb_true (x y : Q) : Qeqb x y = true <-> x == y.
Proof. apply Qeq_bool_iff. Qed.

Lemma Qeqb_false (x y : Q) : Qeqb x y = false <-> ~ x == y.
Proof.
  destruct (Qeqb x y) eqn:E.
  - apply Qeqb_true in E. split; [discriminate | tauto].
  - split; [intros _ H | reflexivity]. apply Qeqb_true in H. congruence.
Qed.

(** Turns the boolean tests of a goal on rationals into facts. *)
Ltac qtests :=
  repeat match goal with
  | H : Qltb _ _ = true |- _ => apply Qltb_true in H
  | H : Qltb _ _ = false |- _ => apply Qltb_false in H
  | H : Qeqb _ _ = true |- _ => apply Qeqb_true in H
  | H : Qeqb _ _ = false |- _ => apply Qeqb_false in H
  | H : Qle_bool _ _ = true |- _ => apply Qle_bool_iff in H
  end.

(** Splits on the next rational test of the goal. *)
Ltac qcase :=
  match goal with
  | |- context [Qltb ?a ?b] => destruct (Qltb a b) eqn:?
  | |- context [Qeqb ?a ?b] => destruct (Qeqb a b) eqn:?
  end; qtests.

Lemma Qabs_lt_iff (x d : Q) : Qabs x < d <-> - d < x /\ x < d.
Proof.
  split.
  - intro H. destruct (Qabs_Qle_condition x (Qabs x)) as [Hc _].
    specialize (Hc (Qle_refl _)). lra.
  - intros [H1 H2]. apply Qabs_case; intros; lra.
Qed.

Lemma Qabs_le_iff (x d : Q) : Qabs x <= d <-> - d <= x /\ x <= d.
Proof. apply Qabs_Qle_condition. Qed.

(** The quotient by a positive number, characterised by a product. *)
Lemma Qdiv_pos_spec (a b : Q) : 0 < b -> (a / b) * b == a.
Proof. intro H. field. lra. Qed.

(** The character [c] occurs in [s]. *)
Fixpoint occurs (c : ascii) (s : string) : bool :=
  match s with
  | EmptyString => false
  | String b r => Ascii.eqb b c || occurs c r
  end.

Lemma occurs_app c (a b : string) :
  occurs c (a ++ b) = occurs c a || occurs c b.
Proof.
  induction a as [ | x a IH]; cbn; [reflexivity | ].
  rewrite IH, orb_assoc. reflexivity.
Qed.

(** The built-ins on a few inputs. *)
Example builtin_samples :
  parseFloat "46.77" = Fin (4677 # 100)
  /\ parseFloat "  -1.5e2xyz" = Fin (-150 # 1)
  /\ parseFloat ".5" = Fin (1 # 2)
  /\ parseFloat "." = NaN
  /\ parseFloat "abc" = NaN
  /\ parseFloat "450.0" = Fin (450 # 1)
  /\ parseFloat "-Infinity" = NegInf
  /\ parseFloat "5.e3" = Fin (5000 # 1)
  /\ parseFloat "1e" = Fin (1 # 1)
  /\ parseInt10 " 42abc" = Fin (42 # 1)
  /\ parseInt10 "x" = NaN
  /\ toFixed6 (Fin (4677 # 100)) = "46.770000"%string
  /\ toFixed6 (Fin (-1 # 3)) = "-0.333333"%string
  /\ split ":" "a:b::c" = ["a"; "b"; ""; "c"]%string
  /\ split ":" "" = [""]%string
  /\ intToString (-30) = "-30"%string.
Proof. repeat split; reflexivity. Qed.

End JsFacts.

(* ================================================================== *)
(** * utils.js: the deadzone filter and the PWM map                   *)
(* ================================================================== *)

Module UtilsFacts.
Import Js JsFacts.

(** Inside the band [0 <= d < 1] the filter of a finite input is finite, and
    it is given by the three branches of the source. *)
Lemma applyDeadzone_cases (x d : Q) :
  0 <= d -> d < 1 ->
  (Qabs x < d /\ Utils.applyDeadzone (Fin x) (Fin d) = Fin 0)
  \/ (d <= Qabs x /\ 0 < x
      /\ Utils.applyDeadzone (Fin x) (Fin d) = Fin ((x + - d) / (1 + - d)))
  \/ (d <= Qabs x /\ x <= 0
      /\ Utils.applyDeadzone (Fin x) (Fin d) = Fin ((x + d) / (1 + - d))).
Proof.
  intros Hd0 Hd1. unfold Utils.applyDeadzone. cbn.
  destruct (Qltb (Qabs x) d) eqn:Habs; qtests.
  - left. auto.
  - right. destruct (Qltb 0 x) eqn:Hpos; qtests.
    + left. repeat split; auto.
      destruct (Qeqb (1 + - d) 0) eqn:Hz; qtests; [exfalso; lra | reflexivity].
    + right. repeat split; auto.
      destruct (Qeqb (1 + - d) 0) eqn:Hz; qtests; [exfalso; lra | reflexivity].
Qed.

(** The filter as a rational function: [r] is the output for the input [x]
    exactly when [r * (1 - d)] is the distance of [x] past the band. *)
Lemma applyDeadzone_value (x d : Q) :
  0 <= d -> d < 1 ->
  exists r c,
    Utils.applyDeadzone (Fin x) (Fin d) = Fin r
    /\ r * (1 - d) == c
    /\ ((- d <= x /\ x <= d /\ c == 0)
        \/ (d <= x /\ c == x - d)
        \/ (x <= - d /\ c == x + d)).
Proof.
  intros Hd0 Hd1.
  destruct (applyDeadzone_cases x Hd0 Hd1) as [[Ha E] | [[Ha [Hx E]] | [Ha [Hx E]]]].
  - exists 0, 0. split; [exact E | split; [ring | ]].
    apply Qabs_lt_iff in Ha. left. repeat split; lra.
  - exists ((x + - d) / (1 + - d)), (x - d).
    split; [exact E | split; [field; lra | ]].
    right; left. split; [ | reflexivity].
    revert Ha. apply Qabs_case; intros; lra.
  - exists ((x + d) / (1 + - d)), (x + d).
    split; [exact E | split; [field; lra | ]].
    revert Ha. apply Qabs_case; intros Hs Ha.
    + assert (x == 0) by lra. assert (d == 0) by lra. left. repeat split; lra.
    + right; right. split; [lra | reflexivity].
Qed.

(** The filter is Lipschitz, with constant [1 / (1 - d)]. *)
Lemma applyDeadzone_lipschitz (d x y : Q) :
  0 <= d -> d < 1 ->
  exists r r',
    Utils.applyDeadzone (Fin x) (Fin d) = Fin r
    /\ Utils.applyDeadzone (Fin y) (Fin d) = Fin r'
    /\ Qabs (r - r') * (1 - d) <= Qabs (x - y).
Proof.
  intros Hd0 Hd1.
  destruct (applyDeadzone_value x Hd0 Hd1) as (r & c & Er & Hc & Hx).
  destruct (applyDeadzone_value y Hd0 Hd1) as (r' & c' & Er' & Hc' & Hy).
  exists r, r'. split; [exact Er | split; [exact Er' | ]].
  assert (Hdiff : (r - r') * (1 - d) == c - c') by (rewrite <- Hc, <- Hc'; ring).
  assert (Habs : Qabs (r - r') * (1 - d) == Qabs (c - c')).
  { rewrite <- Hdiff, Qabs_Qmult. rewrite (Qabs_pos (1 - d)); [reflexivity | lra]. }
  rewrite Habs.
  apply Qabs_case; intros H1; apply Qabs_case; intros H2;
    destruct Hx as [(?&?&?) | [(?&?) | (?&?)]];
    destruct Hy as [(?&?&?) | [(?&?) | (?&?)]]; lra.
Qed.

Lemma scaled_zero (r k : Q) : 0 < k -> (r * k == 0 <-> r == 0).
Proof.
  intro Hk. split; intro H.
  - apply (Qmult_inj_r r 0 k); [lra | rewrite H; ring].
  - rewrite H. ring.
Qed.

Lemma scaled_quotient (r c k : Q) : 0 < k -> r * k == c -> r == c / k.
Proof.
  intros Hk H. apply (Qmult_inj_r r (c / k) k); [lra | ].
  rewrite H. field. lra.
Qed.

Lemma scaled_sign (r c k : Q) : 0 < k -> r * k == c -> (0 < c <-> 0 < r).
Proof.
  intros Hk H. split; intro Hs.
  - destruct (Qlt_le_dec 0 r) as [Hr | Hr]; [assumption | exfalso].
    assert (r * k <= 0) by nra. lra.
  - assert (0 < r * k) by nra. lra.
Qed.

Lemma scaled_le (r c k b : Q) : 0 < k -> r * k == c -> (c <= b * k <-> r <= b).
Proof.
  intros Hk H. split; intro Hs.
  - destruct (Qlt_le_dec b r) as [Hr | Hr]; [exfalso | assumption].
    assert (b * k < r * k) by nra. lra.
  - assert (r * k <= b * k) by nra. lra.
Qed.

(** C5, as amended: for a deadzone [d] in [0,1) and an input [x] in [-1,1],
    [applyDeadzone(x,d)] is a finite number that is zero exactly when
    [|x| <= d] (the band is closed: the filter is zero at [x = d] and
    [x = -d] too); past the band the remaining range is rescaled linearly and
    sign-preserving, [(x - d)/(1 - d)] in (0,1] above it and
    [(x + d)/(1 - d)] in [-1,0) below it; the filter is 1 at 1 and -1 at -1;
    and it is continuous at every point. *)
Theorem applyDeadzone_filter (d : Q) :
  0 <= d -> d < 1 ->
  (forall x, -1 <= x -> x <= 1 ->
     exists r,
       Utils.applyDeadzone (Fin x) (Fin d) = Fin r
       /\ (r == 0 <-> Qabs x <= d)
       /\ (d < x -> r == (x - d) / (1 - d) /\ 0 < r /\ r <= 1)
       /\ (x < - d -> r == (x + d) / (1 - d) /\ -1 <= r /\ r < 0))
  /\ (exists r, Utils.applyDeadzone (Fin 1) (Fin d) = Fin r /\ r == 1)
  /\ (exists r, Utils.applyDeadzone (Fin (-1)) (Fin d) = Fin r /\ r == -1)
  /\ (forall x eps, 0 < eps ->
        exists delta, 0 < delta /\
          forall y, Qabs (x - y) < delta ->
            exists r r',
              Utils.applyDeadzone (Fin x) (Fin d) = Fin r
              /\ Utils.applyDeadzone (Fin y) (Fin d) = Fin r'
              /\ Qabs (r - r') < eps).
Proof.
  intros Hd0 Hd1.
  assert (Hk : 0 < 1 - d) by lra.
  assert (Hrange : forall x, -1 <= x -> x <= 1 ->
     exists r,
       Utils.applyDeadzone (Fin x) (Fin d) = Fin r
       /\ (r == 0 <-> Qabs x <= d)
       /\ (d < x -> r == (x - d) / (1 - d) /\ 0 < r /\ r <= 1)
       /\ (x < - d -> r == (x + d) / (1 - d) /\ -1 <= r /\ r < 0)).
  { intros x Hlo Hhi.
    destruct (applyDeadzone_value x Hd0 Hd1) as (r & c & Er & Hc & Hx).
    exists r. split; [exact Er | ].
    pose proof (scaled_zero r Hk) as Hz. rewrite Hc in Hz.
    pose proof (scaled_sign Hk Hc) as Hpos.
    pose proof (scaled_le 1 Hk Hc) as Hle1.
    assert (Hneg : c < 0 <-> r < 0).
    { pose proof (@scaled_sign (- r) (- c) _ Hk) as Hn.
      assert (Hm : - r * (1 - d) == - c) by (rewrite <- Hc; ring).
      specialize (Hn Hm). split; intro; [assert (0 < - r) by (apply Hn; lra) | assert (0 < - c) by (apply Hn; lra)]; lra. }
    assert (Hge : - (1 - d) <= c <-> -1 <= r).
    { pose proof (@scaled_le (- r) (- c) _ 1 Hk) as Hn.
      assert (Hm : - r * (1 - d) == - c) by (rewrite <- Hc; ring).
      specialize (Hn Hm). split; intro; [assert (- r <= 1) by (apply Hn; lra) | assert (- c <= 1 * (1 - d)) by (apply Hn; lra)]; lra. }
    rewrite Qabs_le_iff.
    destruct Hx as [(H1 & H2 & H3) | [(H1 & H3) | (H1 & H3)]].
    - split; [ | split].
      + split; intro; [lra | apply Hz; exact H3].
      + intro; exfalso; lra.
      + intro; exfalso; lra.
    - split; [ | split].
      + split; intro H.
        * apply Hz in H. lra.
        * apply Hz. lra.
      + intro Hgt. split; [ | split].
        * apply scaled_quotient; [exact Hk | rewrite Hc; exact H3].
        * apply Hpos. lra.
        * apply Hle1. lra.
      + intro; exfalso; lra.
    - split; [ | split].
      + split; intro H.
        * apply Hz in H. lra.
        * apply Hz. lra.
      + intro; exfalso; lra.
      + intro Hlt. split; [ | split].
        * apply scaled_quotient; [exact Hk | rewrite Hc; exact H3].
        * apply Hge. lra.
        * apply Hneg. lra. }
  split; [exact Hrange | ].
  split; [ | split].
  - destruct (applyDeadzone_value 1 Hd0 Hd1) as (r & c & Er & Hc & Hx).
    exists r. split; [exact Er | ].
    apply (Qmult_inj_r r 1 (1 - d)); [lra | ].
    destruct Hx as [(H1 & H2 & H3) | [(H1 & H3) | (H1 & H3)]]; lra.
  - destruct (applyDeadzone_value (-1) Hd0 Hd1) as (r & c & Er & Hc & Hx).
    exists r. split; [exact Er | ].
    apply (Qmult_inj_r r (-1) (1 - d)); [lra | ].
    destruct Hx as [(H1 & H2 & H3) | [(H1 & H3) | (H1 & H3)]]; lra.
  - intros x eps Heps. exists (eps * (1 - d)). split; [nra | ].
    intros y Hy.
    destruct (applyDeadzone_lipschitz x y Hd0 Hd1) as (r & r' & Er & Er' & Hl).
    exists r, r'. split; [exact Er | split; [exact Er' | ]].
    destruct (Qlt_le_dec (Qabs (r - r')) eps) as [Hlt | Hge]; [exact Hlt | exfalso].
    assert (eps * (1 - d) <= Qabs (r - r') * (1 - d)) by nra. lra.
Qed.

(** The filter at the joystick's deadzone, 0.05, for a stick pushed half way. *)
Lemma applyDeadzone_filter_witness :
  exists r,
    Utils.applyDeadzone (Fin (1 # 2)) Constants.JOYSTICK_DEADZONE = Fin r
    /\ (r == 0 <-> Qabs (1 # 2) <= 5 # 100)
    /\ (5 # 100 < 1 # 2 ->
        r == ((1 # 2) - (5 # 100)) / (1 - (5 # 100)) /\ 0 < r /\ r <= 1)
    /\ (1 # 2 < - (5 # 100) ->
        r == ((1 # 2) + (5 # 100)) / (1 - (5 # 100)) /\ -1 <= r /\ r < 0).
Proof.
  destruct (@applyDeadzone_filter (5 # 100)) as [H _]; [lra | lra | ].
  apply H; lra.
Defined.

(** C5, the claim as stated fails on the edge of the band: at [x = d = 0.05]
    the filter is zero although [|x| < d] does not hold. *)
Lemma applyDeadzone_band_edge :
  Js.strictEq (Utils.applyDeadzone (Fin (5 # 100)) (Fin (5 # 100))) (Fin 0) = true
  /\ ~ Qabs (5 # 100) < 5 # 100.
Proof.
  split; [reflexivity | ].
  intro H. apply Qabs_lt_iff in H. lra.
Qed.

End UtilsFacts.

(* ================================================================== *)
(** * useJoystick: the throttle channel                               *)
(* ================================================================== *)

Module JoystickFacts.
Import Js JsFacts.

(** A channel value inside the PWM range. *)
Definition pwmInRange (x : number) : bool :=
  match x with
  | Fin q => Qle_bool 1000 q && Qle_bool q 2000
  | _ => false
  end.

Lemma pwmInRange_spec (x : number) :
  pwmInRange x = true <-> exists q, x = Fin q /\ 1000 <= q /\ q <= 2000.
Proof.
  destruct x as [q | | | ]; cbn.
  - rewrite andb_true_iff, !Qle_bool_iff. split.
    + intros [H1 H2]. exists q. auto.
    + intros (q' & E & H1 & H2). inversion E; subst. auto.
  - split; [discriminate | intros (q & E & _); discriminate].
  - split; [discriminate | intros (q & E & _); discriminate].
  - split; [discriminate | intros (q & E & _); discriminate].
Qed.

(** Rounding keeps a value between two integers. *)
Lemma round_between (lo hi : Z) (v : Q) :
  inject_Z lo <= v -> v <= inject_Z hi ->
  (lo <= Qfloor (v + (1 # 2)) <= hi)%Z.
Proof.
  intros Hlo Hhi.
  pose proof (Qfloor_le (v + (1 # 2))) as Hf.
  pose proof (Qlt_floor (v + (1 # 2))) as Hc.
  split.
  - assert (H : inject_Z lo < inject_Z (Qfloor (v + (1 # 2)) + 1)) by lra.
    rewrite <- Zlt_Qlt in H. lia.
  - assert (H : inject_Z (Qfloor (v + (1 # 2))) < inject_Z (hi + 1)).
    { rewrite inject_Z_plus. change (inject_Z 1) with 1. lra. }
    rewrite <- Zlt_Qlt in H. lia.
Qed.

(** [Math.round(Math.max(1000, Math.min(2000, x)))] is in range for every
    [x] but NaN. *)
Lemma clamp_round_in_range (x : number) :
  isNaN x = false ->
  pwmInRange (round (max (Fin 1000) (min (Fin 2000) x))) = true.
Proof.
  destruct x as [q | | | ]; intros HN; try discriminate HN; try reflexivity.
  assert (Hr : forall v, 1000 <= v -> v <= 2000 ->
                 pwmInRange (round (Fin v)) = true).
  { intros v H1 H2. cbn.
    destruct (@round_between 1000 2000 v) as [Ha Hb]; [exact H1 | exact H2 | ].
    rewrite andb_true_iff, !Qle_bool_iff.
    split; [change 1000 with (inject_Z 1000) | change 2000 with (inject_Z 2000)];
      rewrite <- Zle_Qle; assumption. }
  cbn [min lt].
  destruct (Qltb q 2000) eqn:H2; qtests; cbn [max lt].
  - destruct (Qltb 1000 q) eqn:H1; qtests; apply Hr; lra.
  - destruct (Qltb 1000 2000) eqn:H1; qtests; apply Hr; lra.
Qed.

(** One poll tick keeps the throttle in range, whatever the device reports. *)
Lemma pollUpdate_throttle (axes : list number) (prev : Joystick.PWMValues) :
  pwmInRange (Joystick.THROTTLE prev) = true ->
  pwmInRange (Joystick.THROTTLE (Joystick.pollUpdate axes prev)) = true.
Proof.
  intro Hprev. unfold Joystick.pollUpdate. cbn [Joystick.THROTTLE].
  destruct (gt (abs (neg (Joystick.axis axes 1))) Constants.JOYSTICK_DEADZONE) eqn:Hdz;
    [ | exact Hprev].
  apply clamp_round_in_range.
  apply pwmInRange_spec in Hprev. destruct Hprev as (q & Eq & _). rewrite Eq.
  destruct (Joystick.axis axes 1) as [a | | | ]; cbn in Hdz |- *;
    try reflexivity; try discriminate.
Qed.

Lemma pollJoystick_throttle (g : option (list number)) (prev : Joystick.PWMValues) :
  pwmInRange (Joystick.THROTTLE prev) = true ->
  pwmInRange (Joystick.THROTTLE (Joystick.pollJoystick g prev)) = true.
Proof.
  destruct g as [axes | ]; cbn; [apply pollUpdate_throttle | auto].
Qed.

Lemma pollMany_throttle (ticks : list (option (list number))) :
  forall start,
    pwmInRange (Joystick.THROTTLE start) = true ->
    pwmInRange (Joystick.THROTTLE (Joystick.pollMany ticks start)) = true.
Proof.
  induction ticks as [ | g ticks IH]; intros start Hs; cbn.
  - exact Hs.
  - apply IH. apply pollJoystick_throttle. exact Hs.
Qed.

(** C4: starting from the neutral values, after any finite run of joystick
    poll ticks, whatever the axes report at each tick, the throttle channel is
    a number between 1000 and 2000. *)
Theorem throttle_stays_in_range (ticks : list (option (list number))) :
  exists q,
    Joystick.THROTTLE (Joystick.pollMany ticks Joystick.initialPWMValues) = Fin q
    /\ 1000 <= q /\ q <= 2000.
Proof.
  apply pwmInRange_spec. apply pollMany_throttle. reflexivity.
Qed.

(** A stick held fully up for three ticks, then released. *)
Example throttle_climbs :
  Joystick.THROTTLE
    (Joystick.pollMany
       [Some [Fin 0; Fin (-1); Fin 0; Fin 0]; Some [Fin 0; Fin (-1); Fin 0; Fin 0];
        Some [Fin 0; Fin (-1); Fin 0; Fin 0]; Some [Fin 0; Fin 0; Fin 0; Fin 0]]
       Joystick.initialPWMValues)
  = Fin (inject_Z 1015).
Proof. reflexivity. Qed.

End JoystickFacts.

(* ================================================================== *)
(** * The elevation cache                                             *)
(* ================================================================== *)

Module CacheFacts.
Import Js.

Section ObjFacts.
Variable V : Type.
Implicit Types (o : obj V) (k : string) (v : V).

Lemma keys_length o : List.length (keys o) = List.length o.
Proof. apply length_map. Qed.

Lemma get_present o k : In k (keys o) <-> exists v, get o k = Some v.
Proof.
  induction o as [ | [k' v'] r IH]; cbn.
  - split; [tauto | intros [v H]; discriminate].
  - destruct (String.eqb_spec k' k) as [E | N].
    + split; [intros _; eauto | auto].
    + rewrite <- IH. split; [intros [E | H]; [congruence | exact H] | auto].
Qed.

Lemma set_present o k v : In k (keys o) -> keys (set o k v) = keys o.
Proof.
  induction o as [ | [k' v'] r IH]; cbn; [tauto | ].
  destruct (String.eqb_spec k' k) as [E | N]; cbn; [reflexivity | ].
  intros [E | H]; [congruence | ]. f_equal. apply IH. exact H.
Qed.

Lemma set_absent o k v : ~ In k (keys o) -> set o k v = o ++ [(k, v)].
Proof.
  induction o as [ | [k' v'] r IH]; cbn; [reflexivity | ].
  intro H. destruct (String.eqb_spec k' k) as [E | N]; [tauto | ].
  rewrite IH; [reflexivity | tauto].
Qed.

Lemma get_set_same o k v : get (set o k v) k = Some v.
Proof.
  induction o as [ | [k' v'] r IH]; cbn.
  - rewrite String.eqb_refl. reflexivity.
  - destruct (String.eqb_spec k' k) as [E | N]; cbn.
    + subst. rewrite String.eqb_refl. reflexivity.
    + destruct (String.eqb_spec k' k); [contradiction | exact IH].
Qed.

Lemma wf_set o k v : wf o -> wf (set o k v).
Proof.
  unfold wf. intro H.
  destruct (in_dec string_dec k (keys o)) as [Hin | Hout].
  - rewrite set_present; assumption.
  - rewrite set_absent by assumption. unfold keys. rewrite map_app. cbn.
    apply NoDup_app; [exact H | repeat constructor; auto | ].
    intros x Hx [E | []]. subst. auto.
Qed.

Lemma delete_absent o k : ~ In k (keys o) -> delete o k = o.
Proof.
  induction o as [ | [k' v'] r IH]; cbn; [reflexivity | ].
  intro H. destruct (String.eqb_spec k' k) as [E | N]; [tauto | ].
  rewrite IH; [reflexivity | tauto].
Qed.

(** Deleting the first [n] keys of an object leaves its other properties,
    in their order. *)
Lemma delete_oldest o :
  wf o -> forall n,
  fold_left (fun newCache key => delete newCache key) (firstn n (keys o)) o
  = skipn n o.
Proof.
  induction o as [ | [k v] r IH]; intros Hwf n.
  - destruct n; reflexivity.
  - destruct n as [ | n']; [reflexivity | ].
    inversion Hwf as [ | ? ? Hout Hr]; subst.
    cbn [keys map fst firstn fold_left skipn delete].
    rewrite String.eqb_refl. rewrite delete_absent by exact Hout.
    apply IH. exact Hr.
Qed.

Lemma limitCacheSize_spec o (maxSize : nat) :
  wf o ->
  Utils.limitCacheSize o maxSize = skipn (List.length o - maxSize) o.
Proof.
  intro Hwf. unfold Utils.limitCacheSize. rewrite keys_length.
  destruct (Nat.leb_spec (List.length o) maxSize) as [Hle | Hgt].
  - replace (List.length o - maxSize)%nat with 0%nat by lia. reflexivity.
  - apply delete_oldest. exact Hwf.
Qed.

Lemma in_skipn (A : Type) (x : A) n (l : list A) : In x (skipn n l) -> In x l.
Proof.
  intro H. rewrite <- (firstn_skipn n l). apply in_or_app. right. exact H.
Qed.

Lemma wf_skipn o n : wf o -> wf (skipn n o).
Proof.
  unfold wf, keys. intro H. rewrite <- (firstn_skipn n o), map_app in H.
  apply NoDup_app_remove_l in H. exact H.
Qed.
End ObjFacts.

Import Elevation.

Local Abbreviation MAX := Constants.MAX_ELEVATION_CACHE_SIZE.


Lemma insert_spec (c : Cache) key result :
  wf c ->
  insert key result c
  = skipn (List.length (set c key result) - MAX) (set c key result).
Proof. intro H. unfold insert. apply limitCacheSize_spec, wf_set, H. Qed.

Lemma insert_wf (c : Cache) key result : wf c -> wf (insert key result c).
Proof. intro H. rewrite insert_spec by exact H. apply wf_skipn, wf_set, H. Qed.

Lemma insert_bound (c : Cache) key result :
  wf c -> (List.length (insert key result c) <= MAX)%nat.
Proof. intro H. rewrite insert_spec by exact H. rewrite length_skipn. lia. Qed.











(** A cache key holds a comma, so it is no array index and the keys of the
    cache are listed in the order of their creation. *)
Lemma cacheKey_not_an_index lat lng :
  JsFacts.occurs "," (cacheKey lat lng) = true.
Proof.
  unfold cacheKey. rewrite JsFacts.occurs_app. cbn. apply orb_true_r.
Qed.

(** ** A run that overflows *)

Fixpoint nodupb (l : list string) : bool :=
  match l with
  | [] => true
  | x :: r => negb (existsb (String.eqb x) r) && nodupb r
  end.

Lemma nodupb_sound (l : list string) : nodupb l = true -> NoDup l.
Proof.
  induction l as [ | x r IH]; cbn; intro H; constructor.
  - apply andb_true_iff in H. destruct H as [H _]. apply negb_true_iff in H.
    intro Hin. assert (E : existsb (String.eqb x) r = true).
    { apply existsb_exists. exists x. split; [exact Hin | apply String.eqb_refl]. }
    congruence.
  - apply IH. apply andb_true_iff in H. tauto.
Qed.



(** ** A position fetched again *)



End CacheFacts.

(* ================================================================== *)
(** * useWebRTC: negotiation, track classification, commands          *)
(* ================================================================== *)

Module WebRTCFacts.
Import WebRTC.

(** ** Peer objects *)

Lemma updateAt_length (A : Type) (f : A -> A) (l : list A) :
  forall i, List.length (updateAt i f l) = List.length l.
Proof.
  induction l as [ | x r IH]; intros [ | i]; cbn; auto.
Qed.

Lemma updateAt_same (A : Type) (f : A -> A) (l : list A) :
  forall i, nth_error (updateAt i f l) i = option_map f (nth_error l i).
Proof.
  induction l as [ | x r IH]; intros [ | i]; cbn; auto.
Qed.

Lemma updateAt_other (A : Type) (f : A -> A) (l : list A) :
  forall i j, i <> j -> nth_error (updateAt i f l) j = nth_error l j.
Proof.
  induction l as [ | x r IH]; intros [ | i] [ | j] H; cbn; auto.
  contradiction.
Qed.

Lemma updateAt_fuse (A : Type) (f g : A -> A) (l : list A) :
  forall i, updateAt i f (updateAt i g l) = updateAt i (fun x => f (g x)) l.
Proof.
  induction l as [ | x r IH]; intros [ | i]; cbn; auto.
  rewrite IH. reflexivity.
Qed.

Lemma updateAt_app_old (A : Type) (f : A -> A) (l r : list A) :
  forall i, (i < List.length l)%nat -> updateAt i f (l ++ r) = updateAt i f l ++ r.
Proof.
  induction l as [ | x l' IH]; intros [ | i] H; cbn in *; try lia; auto.
  rewrite IH by lia. reflexivity.
Qed.

Lemma updateAt_app_new (A : Type) (f : A -> A) (l : list A) (x : A) :
  updateAt (List.length l) f (l ++ [x]) = l ++ [f x].
Proof.
  induction l as [ | y l' IH]; cbn; [reflexivity | rewrite IH; reflexivity].
Qed.

Lemma nth_error_last (A : Type) (l : list A) (x : A) :
  nth_error (l ++ [x]) (List.length l) = Some x.
Proof.
  rewrite nth_error_app2 by lia. rewrite Nat.sub_diag. reflexivity.
Qed.

(** ** Listeners *)

Lemma removeAllListeners_In event p e l :
  In (e, l) (listeners (removeAllListeners event p))
  <-> In (e, l) (listeners p) /\ e <> event.
Proof.
  unfold removeAllListeners. cbn. rewrite filter_In. cbn.
  rewrite negb_true_iff. split; intros [H1 H2]; split; auto.
  - intro E. subst. rewrite String.eqb_refl in H2. discriminate.
  - apply String.eqb_neq. exact H2.
Qed.

(** What [cleanupPeer] does to the peer it finds. *)
Definition torn (p : Peer) : Peer :=
  destroy (fold_left (fun q event => removeAllListeners event q) teardownEvents p).

Lemma torn_destroyed p : destroyed (torn p) = true /\ channelOpen (torn p) = false.
Proof. split; reflexivity. Qed.

Lemma torn_listeners p e l :
  In (e, l) (listeners (torn p)) <-> In (e, l) (listeners p) /\ ~ In e teardownEvents.
Proof.
  unfold torn, teardownEvents. cbn [fold_left].
  match goal with
  | |- context [listeners (destroy ?q)] =>
      change (listeners (destroy q)) with (listeners q)
  end.
  rewrite !removeAllListeners_In. cbn [In]. intuition congruence.
Qed.

(** The listeners the console registers are all on the seven events that
    [cleanupPeer] names. *)
Definition consoleListeners (p : Peer) : Prop :=
  forall e l, In (e, l) (listeners p) -> In e teardownEvents.

Lemma torn_silent p : consoleListeners p -> listeners (torn p) = [].
Proof.
  intro H. destruct (listeners (torn p)) as [ | [e l] r] eqn:E; [reflexivity | ].
  exfalso. assert (Hin : In (e, l) (listeners (torn p))) by (rewrite E; left; reflexivity).
  apply torn_listeners in Hin. destruct Hin as [Hin Hout]. apply Hout, (H e l Hin).
Qed.

Lemma cleanupPeer_spec h i :
  peerRef h = Some i ->
  peers (cleanupPeer h) = updateAt i torn (peers h)
  /\ peerRef (cleanupPeer h) = None
  /\ activeListenersRef (cleanupPeer h) = None
  /\ trackCountRef (cleanupPeer h) = 0%nat
  /\ connectionStatus (cleanupPeer h) = connectionStatus h
  /\ videoActive (cleanupPeer h) = videoActive h.
Proof.
  intro Hp. unfold cleanupPeer. rewrite Hp.
  unfold teardownEvents. cbn [fold_left]. unfold withPeer. cbn.
  rewrite !updateAt_fuse. repeat split; reflexivity.
Qed.

Lemma cleanupPeer_idle h : peerRef h = None -> cleanupPeer h = h.
Proof. intro Hp. unfold cleanupPeer. rewrite Hp. reflexivity. Qed.

(** The peer [handleOffer] creates, once its listeners are registered and
    the offer is handed to it. *)
Definition answering (offer : Signal) : Peer :=
  {| initiator := false; trickle := false; iceServers := Constants.ICE_SERVERS;
     listeners := [("signal", OnSignal); ("connect", OnConnect); ("close", OnClose);
                   ("error", OnError); ("stream", OnStream); ("track", OnTrack)]%string;
     destroyed := false; channelOpen := false;
     signalled := [offer]; sent := [] |}.

Lemma handleOffer_spec offer h :
  wellFormedOffer (Some offer) = true ->
  let h0 := cleanupPeer h in
  let h' := handleOffer (Some offer) h in
  peers h' = peers h0 ++ [answering offer]
  /\ peerRef h' = Some (List.length (peers h0))
  /\ trackCountRef h' = 0%nat
  /\ activeListenersRef h' = activeListenersRef h0
  /\ connectionStatus h' = connectionStatus h
  /\ videoActive h' = videoActive h.
Proof.
  intros Hwf h0 h'. unfold h', handleOffer. rewrite Hwf. cbn [negb].
  unfold withPeer.
  cbn [peers peerRef trackCountRef activeListenersRef connectionStatus videoActive
       set_peers set_peerRef set_trackCountRef].
  rewrite !updateAt_fuse, updateAt_app_new.
  fold h0.
  assert (Hs : connectionStatus h0 = connectionStatus h /\ videoActive h0 = videoActive h).
  { unfold h0, cleanupPeer. destruct (peerRef h); [ | auto].
    unfold teardownEvents, withPeer. cbn. auto. }
  destruct Hs as [Hs1 Hs2]. repeat split; auto.
Qed.

Lemma wellFormedOffer_true offer :
  wellFormedOffer (Some offer) = true
  <-> (exists s, sdp offer = Some s /\ s <> EmptyString) /\ type offer = Some "offer"%string.
Proof.
  unfold wellFormedOffer. destruct (sdp offer) as [s | ], (type offer) as [t | ].
  - rewrite andb_true_iff, negb_true_iff. split.
    + intros [H1 H2]. apply String.eqb_neq in H1. apply String.eqb_eq in H2.
      subst. split; [exists s; auto | reflexivity].
    + intros [(s' & E & N) Ht]. inversion E; subst. inversion Ht; subst.
      split; [apply String.eqb_neq; exact N | apply String.eqb_refl].
  - split; [discriminate | intros [_ H]; discriminate].
  - split; [discriminate | intros [(s & E & _) _]; discriminate].
  - split; [discriminate | intros [_ H]; discriminate].
Qed.

(** C3: [handleOffer] leaves the hook exactly as it was when the offer is
    missing, has no (or an empty) session description, or is not of type
    "offer"; for a well-formed offer the peer the hook held, if any, is
    destroyed with no listener left on any of the seven events (none at all,
    the console registering on those events only), every other peer is left
    alone, and the hook points to a new peer created with [initiator: false]
    and [trickle: false] that has been handed the offer. *)
Theorem handleOffer_contract :
  (forall offerData h,
     offerData = None
     \/ (exists o, offerData = Some o
                   /\ (sdp o = None \/ sdp o = Some EmptyString
                       \/ type o <> Some "offer"%string)) ->
     handleOffer offerData h = h)
  /\ (forall offer h,
        (exists s, sdp offer = Some s /\ s <> EmptyString) ->
        type offer = Some "offer"%string ->
        let h' := handleOffer (Some offer) h in
        (exists p,
           currentPeer h' = Some p
           /\ initiator p = false /\ trickle p = false
           /\ iceServers p = Constants.ICE_SERVERS
           /\ destroyed p = false /\ signalled p = [offer])
        /\ peerRef h' = Some (List.length (peers h))
        /\ trackCountRef h' = 0%nat
        /\ (forall i old,
              peerRef h = Some i -> nth_error (peers h) i = Some old ->
              exists old',
                nth_error (peers h') i = Some old'
                /\ destroyed old' = true /\ channelOpen old' = false
                /\ (forall e l, In (e, l) (listeners old') -> ~ In e teardownEvents)
                /\ (consoleListeners old -> listeners old' = []))
        /\ (forall j other,
              peerRef h <> Some j -> nth_error (peers h) j = Some other ->
              nth_error (peers h') j = Some other)).
Proof.
  split.
  - intros offerData h [E | (o & E & Hbad)]; subst; [reflexivity | ].
    unfold handleOffer.
    destruct (wellFormedOffer (Some o)) eqn:Hwf; [exfalso | reflexivity].
    apply wellFormedOffer_true in Hwf. destruct Hwf as [(s & Es & Ns) Ht].
    destruct Hbad as [H | [H | H]]; congruence.
  - intros offer h Hsdp Htype h'.
    assert (Hwf : wellFormedOffer (Some offer) = true)
      by (apply wellFormedOffer_true; auto).
    destruct (@handleOffer_spec offer h Hwf) as (Hpeers & Href & Hcount & _).
    fold h' in Hpeers, Href, Hcount.
    assert (Hlen : List.length (peers (cleanupPeer h)) = List.length (peers h)).
    { destruct (peerRef h) as [i | ] eqn:Hp.
      - destruct (@cleanupPeer_spec h i Hp) as [E _]. rewrite E. apply updateAt_length.
      - rewrite cleanupPeer_idle by exact Hp. reflexivity. }
    split; [ | split; [ | split; [ | split]]].
    + exists (answering offer). unfold currentPeer. rewrite Href, Hpeers.
      rewrite nth_error_last. repeat split; reflexivity.
    + rewrite Href, Hlen. reflexivity.
    + exact Hcount.
    + intros i old Hp Hold.
      destruct (@cleanupPeer_spec h i Hp) as [E _].
      assert (Hi : (i < List.length (peers h))%nat)
        by (apply nth_error_Some; congruence).
      exists (torn old). split; [ | split; [ | split; [ | split]]].
      * rewrite Hpeers, E, nth_error_app1 by (rewrite updateAt_length; exact Hi).
        rewrite updateAt_same, Hold. reflexivity.
      * reflexivity.
      * reflexivity.
      * intros e l Hin. apply torn_listeners in Hin. tauto.
      * apply torn_silent.
    + intros j other Hj Hother.
      assert (Hjlt : (j < List.length (peers h))%nat)
        by (apply nth_error_Some; congruence).
      rewrite Hpeers.
      destruct (peerRef h) as [i | ] eqn:Hp.
      * destruct (@cleanupPeer_spec h i Hp) as [E _]. rewrite E.
        rewrite nth_error_app1 by (rewrite updateAt_length; exact Hjlt).
        rewrite updateAt_other by congruence. exact Hother.
      * rewrite cleanupPeer_idle by exact Hp.
        rewrite nth_error_app1 by exact Hjlt. exact Hother.
Qed.

(** A console with both video elements mounted, and a first offer. *)
Definition mountedHook : Hook := initialHook (Some blankVideo) (Some blankVideo).

Definition sampleOffer : Signal :=
  {| sdp := Some "v=0"%string; type := Some "offer"%string; candidate := None |}.

(** A second offer arriving while the first session stands: the first peer is
    torn down and a second one answers. *)
Lemma handleOffer_contract_witness :
  let h := handleOffer (Some sampleOffer) mountedHook in
  let h' := handleOffer (Some sampleOffer) h in
  peerRef h = Some 0%nat
  /\ peerRef h' = Some 1%nat
  /\ (exists old',
        nth_error (peers h') 0 = Some old'
        /\ destroyed old' = true /\ listeners old' = [])
  /\ (exists p,
        currentPeer h' = Some p /\ initiator p = false /\ trickle p = false).
Proof.
  intros h h'.
  destruct handleOffer_contract as [_ H].
  destruct (H sampleOffer h) as ((p & Hp & Hi & Ht & _) & Href & _ & Hold & _).
  - exists "v=0"%string. split; [reflexivity | discriminate].
  - reflexivity.
  - split; [reflexivity | split; [exact Href | split]].
    + destruct (Hold 0%nat (answering sampleOffer) eq_refl eq_refl)
        as (old' & E & Hd & _ & _ & Hsilent).
      exists old'. split; [exact E | split; [exact Hd | ]].
      apply Hsilent. intros e l Hin. cbn in Hin. unfold teardownEvents.
      repeat (destruct Hin as [Hin | Hin]; [inversion Hin; subst; cbn; tauto | ]).
      destruct Hin.
    + exists p. auto.
Defined.

(** ** Track classification *)

Definition isVideo (t : Track) : bool := String.eqb (kind t) "video".

(** The tracks of an arrival sequence that are video tracks, in order. *)
Definition videoOnly (ts : list Track) : list Track := filter isVideo ts.

(** The hook after the tracks [ts] arrived, oldest first. *)
Definition arrive (ts : list Track) (h : Hook) : Hook :=
  fold_left (fun h' t => handleTrack t h') ts h.

Definition mounted (h : Hook) : Prop :=
  regularVideoRef h <> None /\ thermalVideoRef h <> None.

(** The binding of the role with ordinal [k] once the video tracks [vs]
    arrived at a hook that had counted [c] video tracks. *)
Definition boundAfter (k c : nat) (vs : list Track) (before : option Track) : option Track :=
  if Nat.ltb c k then
    match nth_error vs (k - 1 - c) with
    | Some t => Some t
    | None => before
    end
  else before.

Lemma handleTrack_other t h : isVideo t = false -> handleTrack t h = h.
Proof. unfold isVideo, handleTrack. intros ->. reflexivity. Qed.

Lemma handleTrack_video t h :
  isVideo t = true -> mounted h ->
  let h' := handleTrack t h in
  mounted h'
  /\ trackCountRef h' = S (trackCountRef h)
  /\ regular (videoTracksRef h')
     = (if Nat.eqb (trackCountRef h) 0 then Some t else regular (videoTracksRef h))
  /\ thermal (videoTracksRef h')
     = (if Nat.eqb (trackCountRef h) 1 then Some t else thermal (videoTracksRef h)).
Proof.
  unfold isVideo, handleTrack, mounted. intros -> [Hr Ht]. cbn [negb].
  cbn [trackCountRef set_trackCountRef regularVideoRef thermalVideoRef].
  replace (trackCountRef h + 1)%nat with (S (trackCountRef h)) by lia.
  destruct (regularVideoRef h) as [rel | ] eqn:Er; [ | congruence].
  destruct (thermalVideoRef h) as [tel | ] eqn:Et; [ | congruence].
  destruct rel as [[rsrc | ] ? ? ? ?], tel as [[tsrc | ] ? ? ? ?];
    destruct (regular (videoTracksRef h)) as [r0 | ] eqn:Er0;
    destruct (thermal (videoTracksRef h)) as [t0 | ] eqn:Et0;
    destruct (trackCountRef h) as [ | [ | n]] eqn:Ec; cbn;
    rewrite ?Er, ?Et, ?Ec, ?Er0, ?Et0; cbn;
    rewrite ?Er, ?Et, ?Ec, ?Er0, ?Et0; repeat split; congruence.
Qed.

Lemma arrive_bindings ts : forall h,
  mounted h ->
  let h' := arrive ts h in
  mounted h'
  /\ trackCountRef h' = (trackCountRef h + List.length (videoOnly ts))%nat
  /\ regular (videoTracksRef h')
     = boundAfter 1 (trackCountRef h) (videoOnly ts) (regular (videoTracksRef h))
  /\ thermal (videoTracksRef h')
     = boundAfter 2 (trackCountRef h) (videoOnly ts) (thermal (videoTracksRef h)).
Proof.
  induction ts as [ | t ts IH]; intros h Hm.
  - cbn. unfold boundAfter. repeat split; try apply Hm; try lia.
    + destruct (Nat.ltb _ _); [destruct (_ - _)%nat | ]; reflexivity.
    + destruct (Nat.ltb _ _); [destruct (_ - _)%nat | ]; reflexivity.
  - cbn [arrive fold_left videoOnly filter].
    change (fold_left (fun h' t0 => handleTrack t0 h') ts (handleTrack t h))
      with (arrive ts (handleTrack t h)).
    destruct (isVideo t) eqn:Ev.
    + destruct (@handleTrack_video t h Ev Hm) as (Hm' & Hc & Hr & Ht).
      destruct (IH _ Hm') as (Hm2 & Hc2 & Hr2 & Ht2).
      fold (videoOnly ts). cbn zeta.
      split; [exact Hm2 | split; [ | split]].
      * rewrite Hc2, Hc. cbn [List.length]. lia.
      * rewrite Hr2, Hc, Hr. unfold boundAfter.
        destruct (trackCountRef h) as [ | n]; cbn; [reflexivity | ].
        reflexivity.
      * rewrite Ht2, Hc, Ht. unfold boundAfter.
        destruct (trackCountRef h) as [ | [ | n]]; cbn; reflexivity.
    + rewrite handleTrack_other by exact Ev. apply IH. exact Hm.
Qed.

(** C7, as amended: on a console whose two video elements are mounted and
    whose session has counted no track yet, tracks are classified by arrival
    order alone: the first video track to arrive is bound to the regular
    ("primary") role and the second to the thermal ("secondary") role;
    tracks that are not video tracks change nothing and do not advance the
    count; and when a single video track arrives, whichever stream of the
    vehicle it carries, it is the one bound to the regular role, the thermal
    role keeping what it had. *)
Theorem track_classification_by_arrival (ts : list Track) (h : Hook) :
  mounted h -> trackCountRef h = 0%nat ->
  let h' := arrive ts h in
  trackCountRef h' = List.length (videoOnly ts)
  /\ (forall a rest, videoOnly ts = a :: rest ->
        regular (videoTracksRef h') = Some a)
  /\ (forall a b rest, videoOnly ts = a :: b :: rest ->
        thermal (videoTracksRef h') = Some b)
  /\ (forall a, videoOnly ts = [a] ->
        regular (videoTracksRef h') = Some a
        /\ thermal (videoTracksRef h') = thermal (videoTracksRef h))
  /\ (videoOnly ts = [] -> h' = h)
  /\ (forall t g, isVideo t = false -> handleTrack t g = g).
Proof.
  intros Hm Hc h'.
  destruct (@arrive_bindings ts h Hm) as (_ & Hn & Hr & Ht).
  fold h' in Hn, Hr, Ht. rewrite Hc in Hn, Hr, Ht. cbn in Hn.
  unfold boundAfter in Hr, Ht. cbn in Hr, Ht.
  split; [exact Hn | split; [ | split; [ | split; [ | split]]]].
  - intros a rest E. rewrite Hr, E. reflexivity.
  - intros a b rest E. rewrite Ht, E. reflexivity.
  - intros a E. rewrite Hr, Ht, E. split; reflexivity.
  - intro E. unfold h'. clear - E. revert h.
    induction ts as [ | t ts IH]; intro h; [reflexivity | ].
    cbn in E. cbn [arrive fold_left]. destruct (isVideo t) eqn:Ev; [discriminate E | ].
    rewrite handleTrack_other by exact Ev. apply IH. exact E.
  - intros t g. apply handleTrack_other.
Qed.

Definition audioTrack : Track := {| id := "a0"; kind := "audio"; label := "" |}.
Definition regularCamera : Track := {| id := "v0"; kind := "video"; label := "" |}.
Definition thermalCamera : Track := {| id := "v1"; kind := "video"; label := "" |}.

(** The two cameras arriving in order, an audio track between them. *)
Lemma track_classification_witness :
  let h' := arrive [regularCamera; audioTrack; thermalCamera] mountedHook in
  trackCountRef h' = 2%nat
  /\ regular (videoTracksRef h') = Some regularCamera
  /\ thermal (videoTracksRef h') = Some thermalCamera.
Proof.
  intro h'.
  destruct (@track_classification_by_arrival
              [regularCamera; audioTrack; thermalCamera] mountedHook)
    as (Hn & Hr & Ht & _).
  - split; discriminate.
  - reflexivity.
  - split; [exact Hn | split].
    + apply (Hr regularCamera [thermalCamera]). reflexivity.
    + apply (Ht regularCamera thermalCamera []). reflexivity.
Defined.

(** C7, the claim as stated fails: when the thermal camera's track is the only
    video track to arrive, the regular ("primary") role does not stay
    unbound; that track is bound to it. *)
Lemma lone_second_stream_is_bound_primary :
  let h' := arrive [audioTrack; thermalCamera] mountedHook in
  regular (videoTracksRef mountedHook) = None
  /\ regular (videoTracksRef h') = Some thermalCamera
  /\ thermal (videoTracksRef h') = None.
Proof. repeat split; reflexivity. Qed.

(** ** Commands *)

Lemma sendCommand_cases command h :
  (mayCommand h = false /\ sendCommand command h = Returns h)
  \/ (mayCommand h = true /\ sendCommand command h = Throws)
  \/ (exists i p,
        mayCommand h = true
        /\ peerRef h = Some i /\ nth_error (peers h) i = Some p
        /\ destroyed p = false /\ channelOpen p = true
        /\ sendCommand command h
           = Returns (withPeer i (fun _ => setp_sent (sent p ++ [command]) p) h)).
Proof.
  unfold mayCommand, sendCommand.
  destruct (peerRef h) as [i | ]; [ | left; auto].
  destruct (String.eqb (connectionStatus h) "connected" || videoActive h);
    [ | left; auto].
  cbn [negb]. right.
  destruct (nth_error (peers h) i) as [p | ] eqn:Ep; [ | left; auto].
  unfold send.
  destruct (destroyed p) eqn:Ed; [left; auto | ].
  destruct (channelOpen p) eqn:Eo; [ | left; auto].
  cbn. right. exists i, p. repeat split; auto.
Qed.

Lemma withPeer_sent i p (h : Hook) chunk :
  nth_error (peers h) i = Some p ->
  transmitted (withPeer i (fun _ => setp_sent (sent p ++ [chunk]) p) h)
  <> transmitted h.
Proof.
  intros Hp E. unfold transmitted, withPeer in E. cbn in E.
  assert (H : nth_error (map sent (updateAt i (fun _ => setp_sent (sent p ++ [chunk]) p) (peers h))) i
              = nth_error (map sent (peers h)) i) by (rewrite E; reflexivity).
  rewrite !nth_error_map, updateAt_same, Hp in H. cbn in H.
  inversion H as [H']. apply (f_equal (@List.length string)) in H'.
  rewrite length_app in H'. cbn in H'. lia.
Qed.

(** C10: [sendCommand] returns with the hook exactly as it was, nothing being
    handed to any peer and nothing thrown, when the hook holds no peer or
    when the connection status is not "connected" and video is not active;
    a call that hands something to a peer is one made with a peer held and
    either the status "connected" or video active; and then, the data channel
    being open, the command is what is appended to what the peer has sent. *)
Theorem sendCommand_guarded (command : string) (h : Hook) :
  (peerRef h = None
   \/ (connectionStatus h <> "connected"%string /\ videoActive h = false) ->
   sendCommand command h = Returns h)
  /\ (forall h', sendCommand command h = Returns h' ->
        transmitted h' <> transmitted h ->
        peerRef h <> None
        /\ (connectionStatus h = "connected"%string \/ videoActive h = true))
  /\ (forall i p,
        peerRef h = Some i -> nth_error (peers h) i = Some p ->
        connectionStatus h = "connected"%string \/ videoActive h = true ->
        destroyed p = false -> channelOpen p = true ->
        exists h',
          sendCommand command h = Returns h'
          /\ option_map sent (currentPeer h') = Some (sent p ++ [command])
          /\ peerRef h' = peerRef h
          /\ connectionStatus h' = connectionStatus h
          /\ transmitted h' <> transmitted h).
Proof.
  assert (Hguard : mayCommand h = true <->
            peerRef h <> None
            /\ (connectionStatus h = "connected"%string \/ videoActive h = true)).
  { unfold mayCommand. destruct (peerRef h) as [i | ].
    - rewrite orb_true_iff, String.eqb_eq. split; [intro H; split; [discriminate | exact H] | tauto].
    - split; [discriminate | intros [H _]; contradiction]. }
  split; [ | split].
  - intro Hno.
    destruct (sendCommand_cases command h) as [[_ E] | [[Hm _] | (i & p & Hm & _)]];
      [exact E | exfalso | exfalso];
      apply Hguard in Hm; destruct Hm as [Hp Hs];
      destruct Hno as [Hn | [Hc Hv]]; try contradiction;
      destruct Hs as [Hs | Hs]; congruence.
  - intros h' E Hsent.
    destruct (sendCommand_cases command h) as [[_ E'] | [[Hm _] | (i & p & Hm & _)]].
    + rewrite E' in E. inversion E; subst. contradiction.
    + apply Hguard. exact Hm.
    + apply Hguard. exact Hm.
  - intros i p Hi Hp Hs Hd Ho.
    unfold sendCommand. rewrite Hi, Hp.
    assert (Hb : String.eqb (connectionStatus h) "connected" || videoActive h = true).
    { apply orb_true_iff. rewrite String.eqb_eq. exact Hs. }
    rewrite Hb. cbn [negb]. unfold send. rewrite Hd, Ho. cbn [orb negb].
    eexists. split; [reflexivity | ].
    split; [ | split; [unfold withPeer; cbn; congruence | split; [reflexivity | ]]].
    + unfold currentPeer, withPeer. cbn. rewrite Hi, updateAt_same, Hp. reflexivity.
    + apply withPeer_sent. exact Hp.
Qed.

(** A connected console sends; the same console, its status back to
    "disconnected" and video off, does not. *)
Definition connectedHook : Hook :=
  onConnect (handleOffer (Some sampleOffer) mountedHook).

Lemma sendCommand_guarded_witness :
  sendCommand "CAMERA_TILT_UP" (set_connectionStatus "disconnected" connectedHook)
  = Returns (set_connectionStatus "disconnected" connectedHook)
  /\ (exists h',
        sendCommand "CAMERA_TILT_UP" connectedHook = Returns h'
        /\ option_map sent (currentPeer h') = Some ["CAMERA_TILT_UP"%string]).
Proof.
  split.
  - apply (@sendCommand_guarded "CAMERA_TILT_UP"
             (set_connectionStatus "disconnected" connectedHook)).
    right. split; [discriminate | reflexivity].
  - destruct (@sendCommand_guarded "CAMERA_TILT_UP" connectedHook) as (_ & _ & H).
    destruct (H 0%nat (setp_channelOpen true (answering sampleOffer)))
      as (h' & E & Hs & _); try reflexivity.
    + left. reflexivity.
    + exists h'. split; [exact E | exact Hs].
Defined.

End WebRTCFacts.

(* ================================================================== *)
(** * WebRTCAdmin: the heartbeat failsafe                             *)
(* ================================================================== *)

Module HeartbeatFacts.
Import Admin.
Local Open Scope Z_scope.

(** What a firing at time [now] sets the indicator to. *)
Definition stale (now : Z) (a : Admin) : bool :=
  negb (WebRTC.videoActive (rtc a)) && (now - lastHeartbeatTime a >? 5000).

Lemma heartbeatCheck_sets now a :
  heartbeatCheck now a = set_heartbeatError (stale now a) a.
Proof.
  unfold heartbeatCheck, stale.
  destruct (WebRTC.videoActive (rtc a)); [reflexivity | ].
  destruct (now - lastHeartbeatTime a >? 5000); reflexivity.
Qed.

Lemma heartbeatCheck_again now now' a :
  heartbeatCheck now (heartbeatCheck now' a) = heartbeatCheck now a.
Proof. rewrite !heartbeatCheck_sets. reflexivity. Qed.

(** After at least one firing only the last one shows. *)
Lemma fireTicks_last n : forall t a,
  fireTicks (S n) t a
  = heartbeatCheck (t + HEARTBEAT_CHECK_PERIOD * Z.of_nat (S n)) a.
Proof.
  induction n as [ | n IH]; intros t a.
  - cbn [fireTicks]. f_equal; unfold HEARTBEAT_CHECK_PERIOD; lia.
  - change (fireTicks (S (S n)) t a)
      with (fireTicks (S n) (t + HEARTBEAT_CHECK_PERIOD)
              (heartbeatCheck (t + HEARTBEAT_CHECK_PERIOD) a)).
    rewrite IH, heartbeatCheck_again. f_equal; unfold HEARTBEAT_CHECK_PERIOD; lia.
Qed.

(** The last firing due by [t] happened less than a period before [t]. *)
Lemma elapse_last t a :
  heartbeatCheckSince a + HEARTBEAT_CHECK_PERIOD <= t ->
  exists tick,
    t - HEARTBEAT_CHECK_PERIOD < tick <= t
    /\ elapse t a = heartbeatCheck tick a.
Proof.
  unfold elapse, ticksDue, HEARTBEAT_CHECK_PERIOD. intro Hdue.
  set (s := heartbeatCheckSince a) in *.
  assert (Hk : 1 <= (t - s) / 300) by (apply Z.div_le_lower_bound; lia).
  destruct (Z.to_nat ((t - s) / 300)) as [ | n] eqn:En; [lia | ].
  exists (s + 300 * Z.of_nat (S n)). split.
  - rewrite <- En, Z2Nat.id by lia.
    pose proof (Z.mul_div_le (t - s) 300). pose proof (Z.mul_succ_div_gt (t - s) 300).
    lia.
  - rewrite fireTicks_last. reflexivity.
Qed.

Lemma set_heartbeatError_eta a : set_heartbeatError (heartbeatError a) a = a.
Proof. destruct a; reflexivity. Qed.

(** Time passing changes nothing but the indicator. *)
Lemma elapse_frame t a : exists b, elapse t a = set_heartbeatError b a.
Proof.
  unfold elapse. destruct (ticksDue t a) as [ | n].
  - exists (heartbeatError a). cbn. symmetry. apply set_heartbeatError_eta.
  - rewrite fireTicks_last, heartbeatCheck_sets. eauto.
Qed.

(** A heartbeat token: only the time of the last signal changes, and with
    it the time the check was installed. *)
Lemma receive_heartbeat now fetch a :
  let a' := receive now fetch "heartbeat" a in
  lastHeartbeatTime a' = now
  /\ rtc a' = rtc a
  /\ heartbeatError a' = heartbeatError a
  /\ (heartbeatCheckSince a' = heartbeatCheckSince a \/ heartbeatCheckSince a' = now).
Proof.
  unfold receive, handleDataMessage, handleLocationMessage, handleOtherMessages.
  cbn [Js.startsWith String.prefix negb String.eqb Ascii.eqb Bool.eqb].
  unfold rerunHeartbeatEffect. cbn.
  destruct (lastHeartbeatTime a =? now); rewrite ?eqb_reflx; cbn; auto.
Qed.

(** C1: the liveness check fires every 300 ms; a firing at time [now] clears
    the Degraded indicator when video is active and otherwise sets it exactly
    when [now - lastHeartbeatTime] exceeds 5000 ms, clearing it if not, and it
    changes nothing else of the console (the peer session is left standing);
    so, video not being active, the indicator is set at any time that is at
    least 5.3 s after the last signal (with the last signal at 0 it shows by
    5.4 s, and with the check installed at 0 it shows at 5.1 s and not yet at
    5 s), and once a heartbeat arrives the indicator is clear from the next
    firing, 300 ms later, for as long as the heartbeat is fresh. *)
Theorem heartbeat_failsafe :
  HEARTBEAT_CHECK_PERIOD = 300
  /\ (forall n t a,
        fireTicks (S n) t a
        = heartbeatCheck (t + 300 * Z.of_nat (S n)) (fireTicks n t a))
  /\ (forall now a,
        heartbeatCheck now a
        = set_heartbeatError
            (if WebRTC.videoActive (rtc a) then false
             else now - lastHeartbeatTime a >? 5000) a)
  /\ (forall t a, exists b, elapse t a = set_heartbeatError b a)
  /\ (forall t a,
        WebRTC.videoActive (rtc a) = true ->
        heartbeatCheckSince a + 300 <= t ->
        heartbeatError (elapse t a) = false)
  /\ (forall t a,
        WebRTC.videoActive (rtc a) = false ->
        heartbeatCheckSince a + 300 <= t ->
        lastHeartbeatTime a + 5300 <= t ->
        heartbeatError (elapse t a) = true)
  /\ (forall a,
        WebRTC.videoActive (rtc a) = false ->
        lastHeartbeatTime a = 0 ->
        0 <= heartbeatCheckSince a <= 5100 ->
        heartbeatError (elapse 5400 a) = true
        /\ (heartbeatCheckSince a = 0 ->
            heartbeatError (elapse 5000 a) = false
            /\ heartbeatError (elapse 5100 a) = true))
  /\ (forall now fetch a t,
        WebRTC.videoActive (rtc a) = false ->
        heartbeatCheckSince a <= now ->
        now + 300 <= t <= now + 5000 ->
        heartbeatError (elapse t (receive now fetch "heartbeat" a)) = false).
Proof.
  assert (Hclear : forall t a,
            heartbeatCheckSince a + 300 <= t ->
            WebRTC.videoActive (rtc a) = true \/ t <= lastHeartbeatTime a + 5000 ->
            heartbeatError (elapse t a) = false).
  { intros t a Hdue Hfresh.
    destruct (@elapse_last t a Hdue) as (tick & Htick & E).
    rewrite E, heartbeatCheck_sets. cbn. unfold stale.
    destruct Hfresh as [Hv | Ht]; [rewrite Hv; reflexivity | ].
    apply andb_false_iff. right. rewrite Z.gtb_ltb. apply Z.ltb_ge. lia. }
  assert (Hset : forall t a,
            WebRTC.videoActive (rtc a) = false ->
            heartbeatCheckSince a + 300 <= t ->
            lastHeartbeatTime a + 5300 <= t ->
            heartbeatError (elapse t a) = true).
  { intros t a Hv Hdue Hold.
    destruct (@elapse_last t a Hdue) as (tick & Htick & E).
    rewrite E, heartbeatCheck_sets. cbn. unfold stale. rewrite Hv. cbn.
    rewrite Z.gtb_ltb. apply Z.ltb_lt. unfold HEARTBEAT_CHECK_PERIOD in Htick. lia. }
  split; [reflexivity | ].
  split; [ | split; [ | split; [ | split; [ | split; [ | split]]]]].
  - intros n t a. rewrite fireTicks_last.
    destruct n as [ | m]; [reflexivity | ].
    rewrite (fireTicks_last m), heartbeatCheck_again. reflexivity.
  - intros now a. rewrite heartbeatCheck_sets. unfold stale.
    destruct (WebRTC.videoActive (rtc a)); reflexivity.
  - apply elapse_frame.
  - intros t a Hv Hdue. apply Hclear; auto.
  - exact Hset.
  - intros a Hv Hlast Hsince. split.
    + apply Hset; [exact Hv | lia | lia].
    + intro Hzero.
      split; [apply Hclear; [lia | right; lia] | ].
      unfold elapse, ticksDue. rewrite Hzero.
      change (Z.to_nat ((5100 - 0) / HEARTBEAT_CHECK_PERIOD)) with 17%nat.
      rewrite fireTicks_last, heartbeatCheck_sets. cbn [heartbeatError set_heartbeatError].
      unfold stale. rewrite Hv, Hlast. reflexivity.
  - intros now fetch a t Hv Hsince Ht.
    destruct (receive_heartbeat now fetch a) as (Hl & Hr & _ & Hs).
    apply Hclear; [destruct Hs as [Hs | Hs]; rewrite Hs; lia | right; rewrite Hl; lia].
Qed.

(** The scenario: the last signal and the installation of the check at 0, no
    video; a heartbeat at 5.2 s. *)
Lemma heartbeat_failsafe_witness :
  let a := initialAdmin 0 WebRTCFacts.mountedHook in
  heartbeatError (elapse 5000 a) = false
  /\ heartbeatError (elapse 5100 a) = true
  /\ heartbeatError (elapse 5400 a) = true
  /\ heartbeatError (elapse 5500 (receive 5200 FetchFails "heartbeat" (elapse 5200 a)))
     = false.
Proof.
  intro a.
  destruct heartbeat_failsafe as (_ & _ & _ & _ & _ & _ & Hscenario & Hbeat).
  destruct (Hscenario a) as (H54 & H50); [reflexivity | reflexivity | cbn; lia | ].
  destruct (H50 eq_refl) as [H5000 H5100].
  split; [exact H5000 | split; [exact H5100 | split; [exact H54 | ]]].
  apply Hbeat; [reflexivity | vm_compute; discriminate | lia].
Defined.

End HeartbeatFacts.

(* ================================================================== *)
(** * WebRTCAdmin: inbound messages                                   *)
(* ================================================================== *)

Module InboundFacts.
Import Admin.

(** ** Prefix tests *)

Lemma startsWith_inv (p : string) : forall s,
  Js.startsWith s p = true -> exists r, s = (p ++ r)%string.
Proof.
  unfold Js.startsWith.
  induction p as [ | a p IH]; intros s H.
  - exists s. reflexivity.
  - destruct s as [ | b s]; cbn in H; [discriminate | ].
    destruct (ascii_dec a b) as [E | N]; [ | discriminate].
    destruct (IH s H) as [r Er]. exists r. subst. reflexivity.
Qed.

(** Two strings disagree at a position both have. *)
Fixpoint clash (p q : string) : bool :=
  match p, q with
  | String a p', String b q' => if Ascii.eqb a b then clash p' q' else true
  | _, _ => false
  end.

Lemma clash_startsWith (p : string) : forall q r,
  clash p q = true -> Js.startsWith (p ++ r) q = false.
Proof.
  unfold Js.startsWith.
  induction p as [ | a p IH]; intros q r H; destruct q as [ | b q]; cbn in *;
    try discriminate.
  destruct (ascii_dec b a) as [E | N].
  - subst. rewrite Ascii.eqb_refl in H. apply IH. exact H.
  - reflexivity.
Qed.

Lemma clash_eqb (p : string) : forall q r,
  clash p q = true -> String.eqb (p ++ r) q = false.
Proof.
  induction p as [ | a p IH]; intros q r H; destruct q as [ | b q]; cbn in *;
    try discriminate.
  destruct (Ascii.eqb a b) eqn:E; [apply IH; exact H | reflexivity].
Qed.

(** A message that starts with [p] fails the test for any prefix, and the
    comparison with any token, that disagrees with [p]. *)
Lemma other_prefix p q msg :
  Js.startsWith msg p = true -> clash p q = true -> Js.startsWith msg q = false.
Proof.
  intros H C. destruct (startsWith_inv p msg H) as [r E]. subst.
  apply clash_startsWith. exact C.
Qed.

Lemma other_token p q msg :
  Js.startsWith msg p = true -> clash p q = true -> String.eqb msg q = false.
Proof.
  intros H C. destruct (startsWith_inv p msg H) as [r E]. subst.
  apply clash_eqb. exact C.
Qed.

(** The prefixes the handlers test for, besides the bare heartbeat token. *)
Definition knownPrefixes : list string :=
  [ "LOCATION:"; "CAPTURE_SUCCESS:"; "CAPTURE_ERROR:"; "VIDEO_STARTED:";
    "VIDEO_STOPPED:"; "VIDEO_ERROR:"; "THERMAL_DETECT_REGIONS_STATUS:";
    "THERMAL_DETECTION_MODE_STATUS:" ]%string.

Definition recognised (msg : string) : bool :=
  String.eqb msg "heartbeat" || existsb (Js.startsWith msg) knownPrefixes.

(** Rewrites the tests that a message known to start with [p] fails. *)
Ltac skip_tests H :=
  repeat match goal with
  | |- context [String.eqb ?m ?q] =>
      rewrite (@other_token _ q m H eq_refl)
  | |- context [Js.startsWith ?m ?q] =>
      rewrite (@other_prefix _ q m H eq_refl)
  end.

Lemma location_not_other now msg a :
  Js.startsWith msg "LOCATION:" = true -> handleOtherMessages now msg a = a.
Proof.
  intro H. unfold handleOtherMessages. skip_tests H. reflexivity.
Qed.

Lemma other_not_location fetch msg a :
  Js.startsWith msg "LOCATION:" = false -> handleLocationMessage fetch msg a = a.
Proof. intro H. unfold handleLocationMessage. rewrite H. reflexivity. Qed.

Lemma unrecognised_ignored now fetch msg a :
  recognised msg = false -> handleDataMessage now fetch msg a = a.
Proof.
  unfold recognised, knownPrefixes. cbn [existsb]. intro H.
  repeat (apply orb_false_iff in H; destruct H as [? H]).
  unfold handleDataMessage. rewrite other_not_location by assumption.
  unfold handleOtherMessages.
  repeat match goal with
         | E : ?t = false |- context [?t] => rewrite E
         end.
  reflexivity.
Qed.

(** ** LOCATION frames *)

(** The fields of a frame, read as the handler reads them. *)
Definition field (msg : string) (i : nat) : Js.number :=
  Js.parseFloat (part (Js.split ":" msg) i).

(** A frame the handler accepts: five parts, the last four of them numbers. *)
Definition wellFormedLocation (msg : string) : bool :=
  Js.startsWith msg "LOCATION:"
  && Nat.eqb (List.length (Js.split ":" msg)) 5
  && negb (Js.isNaN (field msg 1) || Js.isNaN (field msg 2)
           || Js.isNaN (field msg 3) || Js.isNaN (field msg 4)).


Lemma location_dropped fetch msg a :
  Js.startsWith msg "LOCATION:" = true ->
  wellFormedLocation msg = false ->
  handleLocationMessage fetch msg a = a.
Proof.
  unfold wellFormedLocation, field, handleLocationMessage. intros -> H. cbn [negb andb] in *.
  destruct (Nat.eqb (List.length (Js.split ":" msg)) 5); cbn [negb andb] in *;
    [ | reflexivity].
  apply negb_false_iff in H. rewrite H. reflexivity.
Qed.


(** A LOCATION frame with another number of fields, or with a field that
    does not read as a number, changes nothing. *)
Lemma location_frame_dropped now fetch msg a :
  Js.startsWith msg "LOCATION:" = true ->
  List.length (Js.split ":" msg) <> 5%nat
  \/ (exists i, (1 <= i <= 4)%nat /\ Js.isNaN (field msg i) = true) ->
  handleDataMessage now fetch msg a = a.
Proof.
  intros Hpre Hbad.
  unfold handleDataMessage. rewrite location_not_other by exact Hpre.
  apply location_dropped; [exact Hpre | ].
  unfold wellFormedLocation. rewrite Hpre. cbn [andb].
  destruct Hbad as [Hlen | (i & Hi & Hnan)].
  - apply Nat.eqb_neq in Hlen. rewrite Hlen. reflexivity.
  - apply andb_false_iff. right. apply negb_false_iff.
    assert (Hcases : i = 1%nat \/ i = 2%nat \/ i = 3%nat \/ i = 4%nat) by lia.
    destruct Hcases as [E | [E | [E | E]]]; subst i; rewrite Hnan;
      rewrite ?orb_true_r; reflexivity.
Qed.


Definition scenarioFrame : string := "LOCATION:46.77:23.59:12.0:450.0".


(** The scenario with the elevation already in the cache. *)
Definition cachedScenario : Admin :=
  set_elevationCache
    [("46.770000,23.590000"%string,
      {| Elevation.elevation := Js.Fin 430;
         Elevation.lat := Js.Fin (4677 # 100); Elevation.lng := Js.Fin (2359 # 100) |})]
    (initialAdmin 0 WebRTCFacts.mountedHook).


(** ** VIDEO_STOPPED frames *)

Lemma video_stopped_handled now fetch msg a :
  Js.startsWith msg "VIDEO_STOPPED:" = true ->
  handleDataMessage now fetch msg a
  = let parts := Js.split ":" msg in
    if Nat.leb 5 (List.length parts) then
      set_videoRecording false
        (set_videoRecordingStatus
           {| recording := false; timestamp := Some (part parts 1);
              frames := {| normal := Js.parseInt10 (part parts 2);
                           thermal := Js.parseInt10 (part parts 3);
                           thermal_data := Js.parseInt10 (part parts 4) |};
              error := None |} a)
    else a.
Proof.
  intro H. unfold handleDataMessage.
  rewrite other_not_location
    by (apply (@other_prefix "VIDEO_STOPPED:" "LOCATION:" msg H); reflexivity).
  unfold handleOtherMessages. skip_tests H. rewrite H. reflexivity.
Qed.

(** C2, as amended: the inbound handler is a total function of the message
    and the state (its only failing step, the elevation request, is caught);
    a message that is not the heartbeat token and starts with none of the
    eight known prefixes leaves the state as it was; so does a LOCATION frame
    that has not exactly four fields or has a field that does not read as a
    number, and a VIDEO_STOPPED frame with fewer than four fields.  A
    VIDEO_STOPPED frame with four fields or more is always taken: the frame
    counts are what [parseInt] reads, NaN for a field that is not numeric. *)
Theorem inbound_decode :
  (forall now fetch msg a,
     recognised msg = false -> handleDataMessage now fetch msg a = a)
  /\ (forall now fetch msg a,
        Js.startsWith msg "LOCATION:" = true ->
        List.length (Js.split ":" msg) <> 5%nat
        \/ (exists i, (1 <= i <= 4)%nat /\ Js.isNaN (field msg i) = true) ->
        handleDataMessage now fetch msg a = a)
  /\ (forall now fetch msg a,
        Js.startsWith msg "VIDEO_STOPPED:" = true ->
        (List.length (Js.split ":" msg) < 5)%nat ->
        handleDataMessage now fetch msg a = a)
  /\ (forall now fetch msg a,
        Js.startsWith msg "VIDEO_STOPPED:" = true ->
        (5 <= List.length (Js.split ":" msg))%nat ->
        let parts := Js.split ":" msg in
        handleDataMessage now fetch msg a
        = set_videoRecording false
            (set_videoRecordingStatus
               {| recording := false; timestamp := Some (part parts 1);
                  frames := {| normal := Js.parseInt10 (part parts 2);
                               thermal := Js.parseInt10 (part parts 3);
                               thermal_data := Js.parseInt10 (part parts 4) |};
                  error := None |} a)).
Proof.
  split; [ | split; [ | split]].
  - apply unrecognised_ignored.
  - apply location_frame_dropped.
  - intros now fetch msg a H Hlen. rewrite video_stopped_handled by exact H.
    cbn zeta. destruct (Nat.leb_spec 5 (List.length (Js.split ":" msg))); [lia | reflexivity].
  - intros now fetch msg a H Hlen parts. rewrite video_stopped_handled by exact H.
    cbn zeta. fold parts.
    destruct (Nat.leb_spec 5 (List.length parts)); [reflexivity | unfold parts in *; lia].
Qed.

(** A console that is recording, 12 frames on each stream so far. *)
Definition recordingAdmin : Admin :=
  set_videoRecording true
    (set_videoRecordingStatus
       {| recording := true; timestamp := Some "20250101_120000"%string;
          frames := {| normal := Js.Fin 12; thermal := Js.Fin 12;
                       thermal_data := Js.Fin 12 |};
          error := None |}
       (initialAdmin 0 WebRTCFacts.mountedHook)).

(** An unknown message, a LOCATION frame with a field missing, one with a
    field that is no number, and a truncated VIDEO_STOPPED frame are all
    dropped. *)
Lemma inbound_decode_witness :
  handleDataMessage 7 FetchFails "BATTERY:87" recordingAdmin = recordingAdmin
  /\ handleDataMessage 7 FetchFails "LOCATION:46.77:23.59:12.0" recordingAdmin
     = recordingAdmin
  /\ handleDataMessage 7 FetchFails "LOCATION:46.77:north:12.0:450.0" recordingAdmin
     = recordingAdmin
  /\ handleDataMessage 7 FetchFails "VIDEO_STOPPED:20250101_120500:40" recordingAdmin
     = recordingAdmin.
Proof.
  destruct inbound_decode as (Hunknown & Hlocation & Hshort & _).
  split; [ | split; [ | split]].
  - apply Hunknown. reflexivity.
  - apply Hlocation; [reflexivity | left; vm_compute; discriminate].
  - apply Hlocation; [reflexivity | right; exists 2%nat; split; [lia | reflexivity]].
  - apply Hshort; [reflexivity | vm_compute; lia].
Defined.

(** C2, the claim as stated fails: a VIDEO_STOPPED frame whose frame counts
    are not numeric is not dropped; it ends the recording and stores NaN for
    the three counts. *)
Lemma video_stopped_not_validated :
  let a' := handleDataMessage 7 FetchFails "VIDEO_STOPPED:20250101_120500:x:y:z"
              recordingAdmin in
  a' <> recordingAdmin
  /\ videoRecording a' = false
  /\ frames (videoRecordingStatus a')
     = {| normal := Js.NaN; thermal := Js.NaN; thermal_data := Js.NaN |}.
Proof.
  intro a'. split; [ | split; reflexivity].
  intro E. apply (f_equal videoRecording) in E. discriminate E.
Qed.

End InboundFacts.

(* ================================================================== *)
(** * Survey missions: finalize and encode                            *)
(* ================================================================== *)

Module MissionFacts.
Import MapPanel JsFacts.

(** ** Splitting at a character that the fields do not contain *)

Lemma string_app_nil (a : string) : (a ++ "")%string = a.
Proof. induction a as [ | x a IH]; cbn; [ | rewrite IH]; reflexivity. Qed.

Lemma string_app_assoc (a b c : string) :
  ((a ++ b) ++ c)%string = (a ++ (b ++ c))%string.
Proof. induction a as [ | x a IH]; cbn; [ | rewrite IH]; reflexivity. Qed.

Lemma string_of_list_app (l1 l2 : list ascii) :
  string_of_list_ascii (l1 ++ l2)
  = (string_of_list_ascii l1 ++ string_of_list_ascii l2)%string.
Proof. induction l1 as [ | x l1 IH]; cbn; [ | rewrite IH]; reflexivity. Qed.

Lemma unfold_cur (cur : list ascii) (a : string) :
  string_of_list_ascii (rev (rev (list_ascii_of_string a) ++ cur))
  = (string_of_list_ascii (rev cur) ++ a)%string.
Proof.
  rewrite rev_app_distr, rev_involutive, string_of_list_app.
  rewrite string_of_list_ascii_of_string. reflexivity.
Qed.

(** Reading a field: the characters of [a], none of them the separator, are
    pushed on the current field. *)
Lemma splitAux_field sep (a : string) : forall cur rest,
  occurs sep a = false ->
  Js.splitAux sep cur (a ++ rest)
  = Js.splitAux sep (rev (list_ascii_of_string a) ++ cur) rest.
Proof.
  induction a as [ | x a IH]; intros cur rest H; cbn in *; [reflexivity | ].
  apply orb_false_iff in H. destruct H as [Hx Ha]. rewrite Hx.
  rewrite IH by exact Ha. rewrite <- app_assoc. reflexivity.
Qed.

Lemma split_cons sep (a rest : string) :
  occurs sep a = false ->
  Js.split sep (a ++ String sep rest) = a :: Js.split sep rest.
Proof.
  intro H. unfold Js.split. rewrite splitAux_field by exact H. cbn.
  rewrite Ascii.eqb_refl. f_equal.
  rewrite (unfold_cur [] a). reflexivity.
Qed.

Lemma split_one sep (a : string) :
  occurs sep a = false -> Js.split sep a = [a].
Proof.
  intro H. unfold Js.split. rewrite <- (string_app_nil a) at 1.
  rewrite splitAux_field by exact H. cbn.
  rewrite (unfold_cur [] a). reflexivity.
Qed.

Lemma occurs_join c sep (xs : list string) :
  occurs c sep = false ->
  Forall (fun x => occurs c x = false) xs ->
  occurs c (Js.join sep xs) = false.
Proof.
  intros Hsep H. induction H as [ | x xs Hx Hxs IH]; [reflexivity | ].
  destruct xs as [ | y xs]; [exact Hx | ].
  change (Js.join sep (x :: y :: xs)) with (x ++ sep ++ Js.join sep (y :: xs))%string.
  rewrite !occurs_app, Hx, Hsep, IH. reflexivity.
Qed.

Lemma split_join sep (xs : list string) :
  xs <> [] ->
  Forall (fun x => occurs sep x = false) xs ->
  Js.split sep (Js.join (String sep "") xs) = xs.
Proof.
  intros Hne H. induction H as [ | x xs Hx Hxs IH]; [contradiction | ].
  destruct xs as [ | y xs].
  - apply split_one. exact Hx.
  - change (Js.join (String sep "") (x :: y :: xs))
      with (x ++ String sep (Js.join (String sep "") (y :: xs)))%string.
    rewrite split_cons by exact Hx. f_equal. apply IH. discriminate.
Qed.

(** A string with none of the three delimiters of a mission command. *)
Definition delimiterFree (s : string) : bool :=
  negb (occurs "," s || occurs ":" s || occurs "|" s).

Lemma delimiterFree_spec s :
  delimiterFree s = true
  <-> occurs "," s = false /\ occurs ":" s = false /\ occurs "|" s = false.
Proof.
  unfold delimiterFree. rewrite negb_true_iff, !orb_false_iff. tauto.
Qed.

Lemma startsWith_app (p r : string) : Js.startsWith (p ++ r) p = true.
Proof.
  unfold Js.startsWith. induction p as [ | a p IH]; cbn.
  - destruct r; reflexivity.
  - destruct (ascii_dec a a); [exact IH | contradiction].
Qed.

Lemma substringFrom_app (p r : string) :
  Js.substringFrom (String.length p) (p ++ r) = r.
Proof. induction p as [ | a p IH]; cbn; [reflexivity | exact IH]. Qed.

Lemma allSome_map_Some (A : Type) (xs : list A) : allSome (map Some xs) = Some xs.
Proof. induction xs as [ | x xs IH]; cbn; [ | rewrite IH]; reflexivity. Qed.

(** ** The command and its re-split *)

Section Encoding.
Variable toStr : Js.number -> string.
Hypothesis toStr_clean : forall x, delimiterFree (toStr x) = true.

Definition vertexTokens (p : Admin.LatLng) : string * string :=
  (toStr (Admin.pointLat p), toStr (Admin.pointLng p)).

Definition settingsTokens (st : Settings)
  : string * string * string * string * string :=
  (toStr (droneSpeed st), toStr (surveillanceAltitude st), surveillanceStyle st,
   toStr (lineSpacing st), toStr (bufferZone st)).

Lemma vertexFields_token p : vertexFields (pointToken toStr p) = Some (vertexTokens p).
Proof.
  unfold vertexFields, pointToken, vertexTokens.
  destruct (proj1 (delimiterFree_spec _) (toStr_clean (Admin.pointLat p))) as (_ & H1 & _).
  destruct (proj1 (delimiterFree_spec _) (toStr_clean (Admin.pointLng p))) as (_ & H2 & _).
  change (":" ++ toStr (Admin.pointLng p))%string
    with (String ":" (toStr (Admin.pointLng p))).
  rewrite split_cons by exact H1. rewrite split_one by exact H2. reflexivity.
Qed.

Lemma pointToken_free c p :
  c = ","%char \/ c = "|"%char -> occurs c (pointToken toStr p) = false.
Proof.
  intro Hc. unfold pointToken.
  destruct (proj1 (delimiterFree_spec _) (toStr_clean (Admin.pointLat p))) as (A1 & _ & A3).
  destruct (proj1 (delimiterFree_spec _) (toStr_clean (Admin.pointLng p))) as (B1 & _ & B3).
  rewrite !occurs_app. destruct Hc; subst c; rewrite ?A1, ?A3, ?B1, ?B3; reflexivity.
Qed.

Lemma resplit_missionCommand (points : list Admin.LatLng) (st : Settings) :
  points <> [] ->
  delimiterFree (surveillanceStyle st) = true ->
  resplit (missionCommand toStr points st)
  = Some (map vertexTokens points, settingsTokens st).
Proof.
  intros Hne Hstyle. unfold resplit, missionCommand.
  rewrite startsWith_app, substringFrom_app.
  set (tokens := map (pointToken toStr) points).
  destruct (proj1 (delimiterFree_spec _) (toStr_clean (droneSpeed st))) as (_ & S2 & S3).
  destruct (proj1 (delimiterFree_spec _) (toStr_clean (surveillanceAltitude st))) as (_ & A2 & A3).
  destruct (proj1 (delimiterFree_spec _) Hstyle) as (_ & Y2 & Y3).
  destruct (proj1 (delimiterFree_spec _) (toStr_clean (lineSpacing st))) as (_ & L2 & L3).
  destruct (proj1 (delimiterFree_spec _) (toStr_clean (bufferZone st))) as (_ & B2 & B3).
  match goal with
  | |- context [Js.split "|" (?pts ++ "|" ++ ?prm)] =>
      set (params := prm);
      change (Js.split "|" (pts ++ "|" ++ params))
        with (Js.split "|" (pts ++ String "|" params))
  end.
  assert (Hbar : occurs "|" (Js.join "," tokens) = false).
  { apply occurs_join; [reflexivity | ].
    unfold tokens. apply Forall_map, Forall_forall. intros p _.
    apply pointToken_free. right. reflexivity. }
  rewrite split_cons by exact Hbar.
  assert (Hprm : occurs "|" params = false).
  { unfold params. rewrite !occurs_app, S3, A3, Y3, L3, B3. reflexivity. }
  rewrite split_one by exact Hprm.
  rewrite split_join.
  - unfold tokens. rewrite map_map.
    rewrite (map_ext _ (fun p => Some (vertexTokens p)) vertexFields_token).
    rewrite <- (map_map vertexTokens Some), allSome_map_Some.
    unfold params.
    repeat match goal with
           | |- context [(":" ++ ?x)%string] =>
               change (":" ++ x)%string with (String ":" x)
           end.
    rewrite !split_cons by assumption. rewrite split_one by exact B2.
    reflexivity.
  - unfold tokens. destruct points; [contradiction | discriminate].
  - unfold tokens. apply Forall_map, Forall_forall. intros p _.
    apply pointToken_free. left. reflexivity.
Qed.

(** A number that reads back from its printed form. *)
Definition readsBack (x : Js.number) : Prop := Js.parseFloat (toStr x) = x.

Definition pointReadsBack (p : Admin.LatLng) : Prop :=
  readsBack (Admin.pointLat p) /\ readsBack (Admin.pointLng p).

Definition settingsReadBack (st : Settings) : Prop :=
  readsBack (droneSpeed st) /\ readsBack (surveillanceAltitude st)
  /\ readsBack (lineSpacing st) /\ readsBack (bufferZone st).

Lemma decode_missionCommand (points : list Admin.LatLng) (st : Settings) :
  points <> [] ->
  delimiterFree (surveillanceStyle st) = true ->
  Forall pointReadsBack points ->
  settingsReadBack st ->
  decodeMission (missionCommand toStr points st) = Some (points, st).
Proof.
  intros Hne Hstyle Hpts (H1 & H2 & H3 & H4). unfold decodeMission.
  rewrite resplit_missionCommand by assumption.
  unfold settingsTokens. cbn [fst snd]. unfold readsBack in *.
  rewrite H1, H2, H3, H4. f_equal. f_equal.
  - rewrite map_map. rewrite <- (map_id points) at 2.
    apply map_ext_in. intros [la lo] Hin.
    rewrite Forall_forall in Hpts. destruct (Hpts _ Hin) as [Ha Hb].
    unfold vertexTokens, readsBack in *. cbn in *. rewrite Ha, Hb. reflexivity.
  - destruct st; reflexivity.
Qed.
End Encoding.

(** ** A printer that meets the assumption: six-decimal positional notation *)

Definition isDelimiter (c : ascii) : Prop := c = ","%char \/ c = ":"%char \/ c = "|"%char.

Lemma digits_free c (d : Decimal.uint) :
  isDelimiter c -> occurs c (NilEmpty.string_of_uint d) = false.
Proof.
  intro Hc. induction d; cbn; rewrite ?IHd;
    destruct Hc as [-> | [-> | ->]]; reflexivity.
Qed.

Lemma decimal_free c (n : Z) : isDelimiter c -> occurs c (Js.decimal n) = false.
Proof.
  intro Hc. unfold Js.decimal, NilZero.string_of_uint.
  destruct (N.to_uint (Z.to_N n)) eqn:E;
    try (rewrite <- E; apply digits_free; exact Hc).
  destruct Hc as [-> | [-> | ->]]; reflexivity.
Qed.

Lemma digit_char_free c (d : nat) :
  (d < 10)%nat -> isDelimiter c ->
  occurs c (String (ascii_of_nat (48 + d)) "") = false.
Proof.
  intros Hd Hc.
  assert (H : d = 0%nat \/ d = 1%nat \/ d = 2%nat \/ d = 3%nat \/ d = 4%nat
              \/ d = 5%nat \/ d = 6%nat \/ d = 7%nat \/ d = 8%nat \/ d = 9%nat)
    by lia.
  repeat (destruct H as [H | H]); subst d;
    destruct Hc as [-> | [-> | ->]]; reflexivity.
Qed.

Lemma lowDigits_free c (k : nat) : forall n,
  isDelimiter c -> occurs c (string_of_list_ascii (Js.lowDigits k n)) = false.
Proof.
  induction k as [ | k IH]; intros n Hc; cbn [Js.lowDigits]; [reflexivity | ].
  rewrite string_of_list_app, occurs_app, IH by exact Hc.
  cbn [orb string_of_list_ascii].
  apply digit_char_free; [ | exact Hc].
  pose proof (Z.mod_pos_bound n 10). lia.
Qed.

Lemma toFixed6_clean (x : Js.number) : delimiterFree (Js.toFixed6 x) = true.
Proof.
  apply delimiterFree_spec.
  assert (H : forall c, isDelimiter c -> occurs c (Js.toFixed6 x) = false).
  { intros c Hc. destruct x as [q | | | ];
      try (destruct Hc as [-> | [-> | ->]]; reflexivity).
    unfold Js.toFixed6. rewrite !occurs_app.
    rewrite decimal_free, lowDigits_free by exact Hc.
    destruct (Js.Qltb q 0); destruct Hc as [-> | [-> | ->]]; reflexivity. }
  repeat split; apply H; unfold isDelimiter; auto.
Qed.

(** C9: [finalizeArea] refuses a survey area of 0, 1 or 2 vertices, leaving
    the state (and with it the finalized flag) as it was, and marks an area
    of at least 3 vertices finalized; and for every area it accepted and every
    parameter tuple whose style holds none of the delimiters (the panel only
    sets "longest" and "shortest"), whatever delimiter-free printing of
    numbers the template literal applies, re-splitting the encoded
    START_SURVEILLANCE message at the bar, the commas and the colons gives
    back the printed vertex list and the printed parameter tuple, hence, the
    numbers reading back from their printed form, the vertex list and the
    tuple themselves. *)
Theorem mission_finalize_and_encode :
  (forall a,
     (List.length (Admin.surveillancePoints a) < 3)%nat ->
     exists alert, Admin.finalizeArea a = (a, Some alert))
  /\ (forall a,
        (3 <= List.length (Admin.surveillancePoints a))%nat ->
        Admin.finalizeArea a = (Admin.set_isAreaFinalized true a, None)
        /\ Admin.isAreaFinalized (fst (Admin.finalizeArea a)) = true)
  /\ (forall toStr : Js.number -> string,
        (forall x, delimiterFree (toStr x) = true) ->
        forall a st,
          snd (Admin.finalizeArea a) = None ->
          delimiterFree (surveillanceStyle st) = true ->
          let area := Admin.surveillancePoints (fst (Admin.finalizeArea a)) in
          resplit (missionCommand toStr area st)
          = Some (map (vertexTokens toStr) area, settingsTokens toStr st)
          /\ (Forall (pointReadsBack toStr) area -> settingsReadBack toStr st ->
              decodeMission (missionCommand toStr area st) = Some (area, st))).
Proof.
  split; [ | split].
  - intros a H. unfold Admin.finalizeArea.
    destruct (Nat.ltb_spec (List.length (Admin.surveillancePoints a)) 3); [eauto | lia].
  - intros a H. unfold Admin.finalizeArea.
    destruct (Nat.ltb_spec (List.length (Admin.surveillancePoints a)) 3); [lia | ].
    split; reflexivity.
  - intros toStr Hclean a st Hok Hstyle area.
    assert (Hne : area <> []).
    { unfold area, Admin.finalizeArea in *.
      destruct (Nat.ltb_spec (List.length (Admin.surveillancePoints a)) 3) as [Hlt | Hge];
        [discriminate Hok | ].
      cbn. intro E. rewrite E in Hge. cbn in Hge. lia. }
    split.
    + apply resplit_missionCommand; assumption.
    + intros Hpts Hst. apply decode_missionCommand; assumption.
Qed.

(** A triangle drawn in surveillance mode, with the panel's initial settings. *)
Definition triangle : list Admin.LatLng :=
  [ {| Admin.pointLat := Js.Fin (4677 # 100); Admin.pointLng := Js.Fin (2359 # 100) |};
    {| Admin.pointLat := Js.Fin (46771 # 1000); Admin.pointLng := Js.Fin (2359 # 100) |};
    {| Admin.pointLat := Js.Fin (4677 # 100); Admin.pointLng := Js.Fin (-23591 # 1000) |} ].

Definition drawing : Admin.Admin :=
  fold_left (fun a p => Admin.addSurveillancePoint p a) triangle
    (Admin.set_surveillanceMode true (Admin.initialAdmin 0 WebRTCFacts.mountedHook)).

Lemma mission_finalize_and_encode_witness :
  snd (Admin.finalizeArea drawing) = None
  /\ missionCommand Js.toFixed6 triangle initialSettings
     = ("START_SURVEILLANCE:46.770000:23.590000,46.771000:23.590000,46.770000:-23.591000"
        ++ "|5.000000:30.000000:longest:15.000000:5.000000")%string
  /\ decodeMission (missionCommand Js.toFixed6 triangle initialSettings)
     = Some (triangle, initialSettings).
Proof.
  split; [reflexivity | split; [reflexivity | ]].
  destruct mission_finalize_and_encode as (_ & _ & H).
  destruct (H Js.toFixed6 toFixed6_clean drawing initialSettings eq_refl eq_refl)
    as [_ Hdecode].
  apply Hdecode.
  - repeat constructor.
  - repeat split.
Defined.

(** The hypothesis on the area matters: with no vertex the re-split fails. *)
Example empty_area_does_not_resplit :
  resplit (missionCommand Js.toFixed6 [] initialSettings) = None.
Proof. reflexivity. Qed.

End MissionFacts.


(* ================================================================== *)
(** * More of the console                                             *)
(*                                                                    *)
(* The modules below embed the functions around the ones above: the   *)
(* rest of utils.js, the sending half of useJoystick, the operator's  *)
(* actions of WebRTCAdmin and the status bar.                         *)
(* ================================================================== *)

(** ** Further built-ins *)

Module JsMath.
Import Js.

(** [Math.floor] *)
Definition floor (x : number) : number :=
  match x with
  | Fin q => Fin (inject_Z (Qfloor q))
  | _ => x
  end.

(** The integer part of a rational, rounding toward zero. *)
Definition trunc (q : Q) : Z :=
  if Qle_bool 0 q then Qfloor q else Qceiling q.

(** [x % y]: the remainder has the sign of the dividend. *)
Definition rem (x y : number) : number :=
  match x, y with
  | Fin a, Fin b =>
      if Qeqb b 0 then NaN else Fin (a - b * inject_Z (trunc (a / b)))
  | Fin a, PosInf | Fin a, NegInf => Fin a
  | _, _ => NaN
  end.

(** [x >= y] *)
Definition ge (x y : number) : bool :=
  match x, y with
  | NaN, _ | _, NaN => false
  | _, _ => negb (lt x y)
  end.

(** [x || d] on numbers *)
Definition orElse (x d : number) : number := if truthy x then x else d.

(** [Number.MAX_VALUE], the largest finite number: a product beyond it is an
    infinity in the program, where the exact product of the embedding is
    still finite. *)
Definition MAX_VALUE : Q := inject_Z (2 ^ 1024 - 2 ^ 971).

End JsMath.

(** ** utils.js: hsvToRgb, and the LED colour of WebRTCAdmin *)

Module Colour.
Import Js.

Record RGB : Type := mkRGB {
  r : number;
  g : number;
  b : number
}.

(** [hsvToRgb(h, s, v)].  The products are exact: the embedding follows the
    program as long as [h * 6] and the products with [v] stay within
    [Number.MAX_VALUE]; beyond it the program works with an infinity. *)
Definition hsvToRgb (h s v : number) : RGB :=
  let i := JsMath.floor (mul h (Fin 6)) in
  let f := sub (mul h (Fin 6)) i in
  let p := mul v (sub (Fin 1) s) in
  let q := mul v (sub (Fin 1) (mul f s)) in
  let t := mul v (sub (Fin 1) (mul (sub (Fin 1) f) s)) in
  let sel := JsMath.rem i (Fin 6) in
  let '(r', g', b') :=
    if strictEq sel (Fin 0) then (v, t, p)
    else if strictEq sel (Fin 1) then (q, v, p)
    else if strictEq sel (Fin 2) then (p, v, t)
    else if strictEq sel (Fin 3) then (p, q, v)
    else if strictEq sel (Fin 4) then (t, p, v)
    else if strictEq sel (Fin 5) then (v, p, q)
    else (Fin 0, Fin 0, Fin 0) in
  {| r := round (mul r' (Fin 255));
     g := round (mul g' (Fin 255));
     b := round (mul b' (Fin 255)) |}.

(** [Math.max(0, Math.min(255, Math.round(x)))] *)
Definition validChannel (x : number) : number :=
  max (Fin 0) (min (Fin 255) (round x)).

Section Led.
(** The conversion of a number to a string that a template literal applies. *)
Variable toStr : number -> string.

Definition ledCommand (c : RGB) : string :=
  ("LED_SET_COLOR:" ++ toStr (r c) ++ "," ++ toStr (g c) ++ "," ++ toStr (b c))%string.

(** [setLedColorAndSend(r, g, b)]: the colour the panel keeps, and what
    becomes of the hook. *)
Definition setLedColorAndSend (r0 g0 b0 : number) (h : WebRTC.Hook)
  : RGB * WebRTC.Outcome :=
  let c := {| r := validChannel r0; g := validChannel g0; b := validChannel b0 |} in
  (c, WebRTC.sendCommand (ledCommand c) h).
End Led.

End Colour.

(** ** useJoystick: what is sent *)

Module JoystickSend.
Import Js Joystick.

(** A callback that ran to its end, or raised after reaching a state. *)
Inductive Run (S : Type) : Type :=
| Completed (s : S)
| Raised (s : S).

Arguments Completed {S} s.
Arguments Raised {S} s.

Definition stateOf {S : Type} (x : Run S) : S :=
  match x with Completed s | Raised s => s end.

(** [Object.entries(currentPWMValues)]: the keys are the channel numbers, and
    integer keys are listed in ascending order. *)
Definition entries (v : PWMValues) : list (Z * number) :=
  [(1, ROLL v); (2, PITCH v); (3, THROTTLE v); (4, YAW v)]%Z.

(** [lastSentPWMValues.current[channelNum]] *)
Definition channel (channelNum : Z) (v : PWMValues) : number :=
  if (channelNum =? 1)%Z then ROLL v
  else if (channelNum =? 2)%Z then PITCH v
  else if (channelNum =? 3)%Z then THROTTLE v
  else YAW v.

(** [lastSentPWMValues.current[channelNum] = x] *)
Definition setChannel (channelNum : Z) (x : number) (v : PWMValues) : PWMValues :=
  if (channelNum =? 1)%Z then
    {| ROLL := x; PITCH := PITCH v; THROTTLE := THROTTLE v; YAW := YAW v |}
  else if (channelNum =? 2)%Z then
    {| ROLL := ROLL v; PITCH := x; THROTTLE := THROTTLE v; YAW := YAW v |}
  else if (channelNum =? 3)%Z then
    {| ROLL := ROLL v; PITCH := PITCH v; THROTTLE := x; YAW := YAW v |}
  else
    {| ROLL := ROLL v; PITCH := PITCH v; THROTTLE := THROTTLE v; YAW := x |}.

(** What the sending effect works on: the values last sent and the hook. *)
Definition Sender : Type := (PWMValues * WebRTC.Hook)%type.

Section Sending.
Variable toStr : number -> string.

Definition pwmCommand (channelNum : Z) (intPwmValue : number) : string :=
  ("MANUAL_PWM:" ++ intToString channelNum ++ ":" ++ toStr intPwmValue)%string.

(** Is the channel off by 5 or more from what was last sent? *)
Definition gateOpen (pwmValue lastSent : number) : bool :=
  JsMath.ge (abs (sub (round pwmValue) (JsMath.orElse lastSent (Fin 0)))) (Fin 5).

(** The body of the [forEach] for one entry. *)
Definition sendEntry (s : Sender) (entry : Z * number) : Run Sender :=
  let (channelNum, pwmValue) := entry in
  let (lastSent, h) := s in
  let intPwmValue := round pwmValue in
  if gateOpen pwmValue (channel channelNum lastSent) then
    match WebRTC.sendCommand (pwmCommand channelNum intPwmValue) h with
    | WebRTC.Returns h' => Completed (setChannel channelNum intPwmValue lastSent, h')
    | WebRTC.Throws => Raised s
    end
  else Completed s.

(** [forEach]: an entry that raises ends the loop. *)
Fixpoint forEach (es : list (Z * number)) (s : Sender) : Run Sender :=
  match es with
  | [] => Completed s
  | e :: rest =>
      match sendEntry s e with
      | Completed s' => forEach rest s'
      | Raised s' => Raised s'
      end
  end.

(** The effect that runs when [currentPWMValues] changed. *)
Definition sendPWMValues (controlMode : string) (joystickConnected : bool)
  (currentPWMValues : PWMValues) (s : Sender) : Run Sender :=
  let h := snd s in
  if (String.eqb (WebRTC.connectionStatus h) "connected" || WebRTC.videoActive h)
     && String.eqb controlMode "manual" && joystickConnected
  then forEach (entries currentPWMValues) s
  else Completed s.
End Sending.

(** [lastButtonState.current]; a button never seen reads falsy. *)
Record Buttons : Type := mkButtons {
  l1 : bool;
  r1 : bool
}.

(** The button half of [pollJoystick]: [pressed] is what the gamepad reports. *)
Definition pollButtons (pressed : Buttons) (s : Buttons * WebRTC.Hook)
  : Run (Buttons * WebRTC.Hook) :=
  let (last, h) := s in
  match (if l1 pressed && negb (l1 last)
         then WebRTC.sendCommand "CAMERA_TILT_UP" h else WebRTC.Returns h) with
  | WebRTC.Throws => Raised s
  | WebRTC.Returns h1 =>
      match (if r1 pressed && negb (r1 last)
             then WebRTC.sendCommand "CAMERA_TILT_DOWN" h1 else WebRTC.Returns h1) with
      | WebRTC.Throws => Raised (last, h1)
      | WebRTC.Returns h2 => Completed (pressed, h2)
      end
  end.

(** A run of polls, oldest first; a poll that raises leaves the state it
    reached, and the interval goes on with the next poll. *)
Definition pollButtonsMany (samples : list Buttons) (s : Buttons * WebRTC.Hook)
  : Buttons * WebRTC.Hook :=
  fold_left (fun s' pressed => stateOf (pollButtons pressed s')) samples s.

End JoystickSend.

(** ** WebRTCAdmin: the operator's actions *)

Module Operator.
Import Admin.

Definition Run := JoystickSend.Run.

Definition CAPTURE_COMMAND : string := "CAPTURE_IMAGES".
Definition VIDEO_START_COMMAND : string := "VIDEO_START".
Definition VIDEO_STOP_COMMAND : string := "VIDEO_STOP".

(** [sendCommand(command)] from the component: the hook is the one it
    composes. *)
Definition send (command : string) (a : Admin) : Run Admin :=
  match WebRTC.sendCommand command (rtc a) with
  | WebRTC.Returns h => JoystickSend.Completed (set_rtc h a)
  | WebRTC.Throws => JoystickSend.Raised a
  end.

(** [!peerRef.current || connectionStatus !== "connected"] *)
Definition notConnected (a : Admin) : bool :=
  match WebRTC.peerRef (rtc a) with
  | Some _ => negb (String.eqb (WebRTC.connectionStatus (rtc a)) "connected")
  | None => true
  end.

(** [controlCameraTilt(direction)] *)
Definition controlCameraTilt (direction : string) (a : Admin) : Run Admin :=
  send (if String.eqb direction "up" then "CAMERA_TILT_UP" else "CAMERA_TILT_DOWN") a.

(** [handleCaptureImages] *)
Definition handleCaptureImages (a : Admin) : Run Admin :=
  if notConnected a then
    JoystickSend.Completed
      (set_captureStatus
         {| capturing := false; lastCapture := None;
            captureError := Some "Not connected to drone"%string |} a)
  else
    let a1 := set_captureStatus
                {| capturing := true; lastCapture := None; captureError := None |} a in
    let a2 := set_captureSafeguardTimeout true a1 in
    send CAPTURE_COMMAND a2.

(** The callback of the 10 s safeguard timeout. *)
Definition captureTimeoutFires (a : Admin) : Admin :=
  if capturing (captureStatus a) then
    set_captureStatus
      {| capturing := false; lastCapture := None;
         captureError := Some "Capture timeout - no response from drone"%string |} a
  else a.

Section Recording.
Variable toStr : Js.number -> string.

(** [handleVideoRecording] *)
Definition handleVideoRecording (a : Admin) : Run Admin :=
  if notConnected a then
    let prev := videoRecordingStatus a in
    JoystickSend.Completed
      (set_videoRecordingStatus
         {| recording := recording prev; timestamp := timestamp prev;
            frames := frames prev; error := Some "Not connected to drone"%string |} a)
  else if videoRecording a then send VIDEO_STOP_COMMAND a
  else
    match send (VIDEO_START_COMMAND ++ ":" ++ toStr (videoRecordingFps a))%string a with
    | JoystickSend.Completed a1 =>
        let prev := videoRecordingStatus a1 in
        JoystickSend.Completed
          (set_videoRecordingStatus
             {| recording := true; timestamp := timestamp prev;
                frames := frames prev; error := None |} a1)
    | JoystickSend.Raised a1 => JoystickSend.Raised a1
    end.
End Recording.

(** ** Survey area *)

(** [toggleSurveillanceMode] *)
Definition toggleSurveillanceMode (a : Admin) : Admin :=
  let a1 := if surveillanceMode a
            then set_isAreaFinalized false (set_surveillancePoints [] a)
            else a in
  set_surveillanceMode (negb (surveillanceMode a)) a1.

(** The part of the [showMap] effect that runs when the map is hidden and
    concerns the survey area. *)
Definition hideMap (a : Admin) : Admin :=
  set_isAreaFinalized false
    (set_surveillancePoints [] (set_surveillanceMode false a)).

(** What a click on the map does. *)
Inductive MapClick : Type :=
| Drawn (a : Admin)                (* a vertex was added *)
| Targeted (target : LatLng)       (* the target location was set *)
| Refused (alert : string).

(** [handleMapClick] *)
Definition handleMapClick (latlng : LatLng) (a : Admin) : MapClick :=
  if String.eqb (WebRTC.connectionStatus (rtc a)) "connected"
     || WebRTC.videoActive (rtc a)
  then
    if surveillanceMode a && negb (isAreaFinalized a)
    then Drawn (addSurveillancePoint latlng a)
    else Targeted latlng
  else Refused "Please connect to the drone first".

(** The operations on the survey area. *)
Inductive AreaOp : Type :=
| Click (latlng : LatLng)
| Finalize
| Reset
| ToggleMode
| HideMap.

Definition areaStep (a : Admin) (op : AreaOp) : Admin :=
  match op with
  | Click latlng =>
      match handleMapClick latlng a with
      | Drawn a' => a'
      | _ => a
      end
  | Finalize => fst (finalizeArea a)
  | Reset => resetArea a
  | ToggleMode => toggleSurveillanceMode a
  | HideMap => hideMap a
  end.

Definition areaRun (ops : list AreaOp) (a : Admin) : Admin := fold_left areaStep ops a.

(** ** The status bar *)

(** The height above ground the status bar shows:
    [droneLocation.heightAboveGround !== undefined ? ... : lastValidAGL], when
    there is a position and either is there. *)
Definition shownAGL (a : Admin) : option Js.number :=
  match droneLocation a with
  | Some d =>
      match heightAboveGround d with
      | Some hag => Some hag
      | None => lastValidAGL a
      end
  | None => None
  end.

(** The console after a run of messages, each with the time it arrives at
    and what the elevation service would answer. *)
Definition receiveMany (msgs : list (Z * FetchOutcome * string)) (a : Admin) : Admin :=
  fold_left (fun a' m => receive (fst (fst m)) (snd (fst m)) (snd m) a') msgs a.

End Operator.

(* ================================================================== *)
(** * The stick: PWM map, channels, and what is sent                  *)
(* ================================================================== *)

Module StickFacts.
Import Js JsFacts.

Lemma mapToPWM_fin (x : Q) :
  Utils.mapToPWM (Fin x) = ofZ (Qfloor (1500 + x * 500 + (1 # 2))).
Proof. reflexivity. Qed.

(** X1: on inputs between -1 and 1 the PWM map is bounded and monotonic: a
    smaller input never gives a larger pulse width, and every pulse width is an
    integer between 1000 and 2000. *)
Theorem mapToPWM_bounded_monotone (x y : Q) :
  -1 <= x -> x <= y -> y <= 1 ->
  exists m n : Z,
    Utils.mapToPWM (Fin x) = ofZ m /\ Utils.mapToPWM (Fin y) = ofZ n
    /\ (1000 <= m)%Z /\ (m <= n)%Z /\ (n <= 2000)%Z.
Proof.
  intros Hlo Hxy Hhi.
  exists (Qfloor (1500 + x * 500 + (1 # 2))), (Qfloor (1500 + y * 500 + (1 # 2))).
  split; [apply mapToPWM_fin | split; [apply mapToPWM_fin | ]].
  destruct (@JoystickFacts.round_between 1000 2000 (1500 + x * 500)) as [H1 _];
    [change (inject_Z 1000) with 1000; lra | change (inject_Z 2000) with 2000; lra | ].
  destruct (@JoystickFacts.round_between 1000 2000 (1500 + y * 500)) as [_ H2];
    [change (inject_Z 1000) with 1000; lra | change (inject_Z 2000) with 2000; lra | ].
  split; [exact H1 | split; [ | exact H2]].
  apply Qfloor_resp_le. lra.
Qed.

(** The ends and the centre of the stick. *)
Lemma mapToPWM_bounded_monotone_witness :
  exists m n : Z,
    Utils.mapToPWM (Fin (-1)) = ofZ m /\ Utils.mapToPWM (Fin (1 # 2)) = ofZ n
    /\ (1000 <= m)%Z /\ (m <= n)%Z /\ (n <= 2000)%Z.
Proof. apply mapToPWM_bounded_monotone; lra. Defined.

Example mapToPWM_samples :
  Utils.mapToPWM (Fin (-1)) = ofZ 1000 /\ Utils.mapToPWM (Fin 0) = ofZ 1500
  /\ Utils.mapToPWM (Fin 1) = ofZ 2000 /\ Utils.mapToPWM NaN = NaN.
Proof. repeat split. Qed.

(** The filter at the joystick's deadzone keeps a deflection within [-1,1]. *)
Lemma deadzone_deflection (x : Q) :
  -1 <= x -> x <= 1 ->
  exists r, Utils.applyDeadzone (Fin x) Constants.JOYSTICK_DEADZONE = Fin r
            /\ -1 <= r /\ r <= 1.
Proof.
  intros Hlo Hhi.
  destruct (@UtilsFacts.applyDeadzone_value x (5 # 100)) as (r & c & E & Hc & Hx);
    [lra | lra | ].
  exists r. split; [exact E | ].
  destruct Hx as [(H1 & H2 & H3) | [(H1 & H3) | (H1 & H3)]]; split; lra.
Qed.

Lemma mapToPWM_in_range (r : Q) :
  -1 <= r -> r <= 1 -> JoystickFacts.pwmInRange (Utils.mapToPWM (Fin r)) = true.
Proof.
  intros Hlo Hhi. rewrite mapToPWM_fin.
  destruct (@JoystickFacts.round_between 1000 2000 (1500 + r * 500)) as [H1 H2];
    [change (inject_Z 1000) with 1000; lra | change (inject_Z 2000) with 2000; lra | ].
  cbn. rewrite andb_true_iff, !Qle_bool_iff.
  split; [change 1000 with (inject_Z 1000) | change 2000 with (inject_Z 2000)];
    rewrite <- Zle_Qle; assumption.
Qed.

(** The axes of a gamepad, each a finite number between -1 and 1. *)
Definition axesInRange (axes : list number) : Prop :=
  exists a0 a1 a2 a3 : Q,
    axes = [Fin a0; Fin a1; Fin a2; Fin a3]
    /\ (-1 <= a0 <= 1) /\ (-1 <= a1 <= 1) /\ (-1 <= a2 <= 1) /\ (-1 <= a3 <= 1).

(** X2: one poll of a gamepad whose four axes are within [-1,1] leaves every
    channel, roll, pitch, throttle and yaw, a number between 1000 and 2000,
    provided the throttle was in that range before. *)
Theorem pollUpdate_channels_in_range (axes : list number) (prev : Joystick.PWMValues) :
  axesInRange axes ->
  JoystickFacts.pwmInRange (Joystick.THROTTLE prev) = true ->
  let v := Joystick.pollUpdate axes prev in
  JoystickFacts.pwmInRange (Joystick.ROLL v) = true
  /\ JoystickFacts.pwmInRange (Joystick.PITCH v) = true
  /\ JoystickFacts.pwmInRange (Joystick.THROTTLE v) = true
  /\ JoystickFacts.pwmInRange (Joystick.YAW v) = true.
Proof.
  intros (a0 & a1 & a2 & a3 & E & H0 & H1 & H2 & H3) Hprev v. subst axes.
  assert (Hch : forall x, -1 <= x <= 1 ->
            JoystickFacts.pwmInRange
              (Utils.mapToPWM (Utils.applyDeadzone (Fin x) Constants.JOYSTICK_DEADZONE))
            = true).
  { intros x [Hlo Hhi]. destruct (deadzone_deflection Hlo Hhi) as (r & Er & Hr1 & Hr2).
    rewrite Er. apply mapToPWM_in_range; assumption. }
  split; [ | split; [ | split]].
  - apply (Hch a2). exact H2.
  - apply (Hch (- a3)). lra.
  - apply JoystickFacts.pollUpdate_throttle. exact Hprev.
  - apply (Hch a0). exact H0.
Qed.

Lemma pollUpdate_channels_witness :
  let v := Joystick.pollUpdate [Fin (3 # 10); Fin (-1); Fin (-1 # 1); Fin (1 # 50)]
             Joystick.initialPWMValues in
  JoystickFacts.pwmInRange (Joystick.ROLL v) = true
  /\ JoystickFacts.pwmInRange (Joystick.PITCH v) = true
  /\ JoystickFacts.pwmInRange (Joystick.THROTTLE v) = true
  /\ JoystickFacts.pwmInRange (Joystick.YAW v) = true.
Proof.
  apply pollUpdate_channels_in_range; [ | reflexivity].
  exists (3 # 10), (-1), (-1 # 1), (1 # 50). repeat split; lra.
Defined.

(** X3: a stick at rest, every axis inside the deadzone (the throttle axis
    may sit on its edge), centres roll, pitch and yaw on 1500 and leaves the
    throttle where it was: the throttle holds its value, it does not spring
    back. *)
Theorem pollUpdate_at_rest (a0 a1 a2 a3 : Q) (prev : Joystick.PWMValues) :
  Qabs a0 < 5 # 100 -> Qabs a1 <= 5 # 100 -> Qabs a2 < 5 # 100 -> Qabs a3 < 5 # 100 ->
  Joystick.pollUpdate [Fin a0; Fin a1; Fin a2; Fin a3] prev
  = {| Joystick.ROLL := Fin 1500; Joystick.PITCH := Fin 1500;
       Joystick.THROTTLE := Joystick.THROTTLE prev; Joystick.YAW := Fin 1500 |}.
Proof.
  intros H0 H1 H2 H3. unfold Joystick.pollUpdate, Joystick.axis. cbn [nth neg].
  assert (Hz : forall x, Qabs x < 5 # 100 ->
            Utils.mapToPWM (Utils.applyDeadzone (Fin x) Constants.JOYSTICK_DEADZONE)
            = Fin 1500).
  { intros x Hx. unfold Utils.applyDeadzone, Constants.JOYSTICK_DEADZONE. cbn [abs lt].
    apply Qltb_true in Hx. rewrite Hx. reflexivity. }
  rewrite (Hz a0 H0), (Hz a2 H2), (Hz (- a3)) by (rewrite Qabs_opp; exact H3).
  unfold Constants.JOYSTICK_DEADZONE. cbn [abs gt lt].
  assert (Ht : Qltb (5 # 100) (Qabs (- a1)) = false)
    by (apply Qltb_false; rewrite Qabs_opp; exact H1).
  rewrite Ht. reflexivity.
Qed.

Lemma pollUpdate_at_rest_witness :
  Joystick.pollUpdate [Fin (1 # 100); Fin (-5 # 100); Fin 0; Fin (-3 # 100)]
    {| Joystick.ROLL := Fin 1200; Joystick.PITCH := Fin 1900;
       Joystick.THROTTLE := Fin 1730; Joystick.YAW := Fin 1000 |}
  = {| Joystick.ROLL := Fin 1500; Joystick.PITCH := Fin 1500;
       Joystick.THROTTLE := Fin 1730; Joystick.YAW := Fin 1500 |}.
Proof.
  apply (@pollUpdate_at_rest (1 # 100) (-5 # 100) 0 (-3 # 100));
    apply Qabs_case; intros; lra.
Defined.

End StickFacts.

Module Playback.
Import WebRTC.

(** The regular video element started playing: the [then] of [play()] in
    [handleTrack] runs [setVideoActive(true)].  Nothing in the hook ever sets
    it back. *)
Definition videoPlaying (h : Hook) : Hook :=
  {| connectionStatus := connectionStatus h;
     videoActive := true;
     videoDisplayMode := videoDisplayMode h;
     thermalAvailable := thermalAvailable h;
     peerRef := peerRef h;
     peers := peers h;
     regularVideoRef := regularVideoRef h;
     thermalVideoRef := thermalVideoRef h;
     videoTracksRef := videoTracksRef h;
     activeListenersRef := activeListenersRef h;
     streamRef := streamRef h;
     trackCountRef := trackCountRef h;
     stopped := stopped h;
     onended := onended h |}.

End Playback.

Module SendFacts.
Import WebRTC JoystickSend.

(** What the peer the hook holds has been handed to transmit. *)
Definition outbox (h : Hook) : list string :=
  match currentPeer h with
  | Some p => sent p
  | None => []
  end.

(** A hook that can send: it holds a live peer whose data channel is open,
    and the status is "connected" or video is active. *)
Definition ready (h : Hook) : Prop :=
  exists i p,
    peerRef h = Some i /\ nth_error (peers h) i = Some p
    /\ destroyed p = false /\ channelOpen p = true
    /\ (connectionStatus h = "connected"%string \/ videoActive h = true).

(** The hook once [command] is appended to what its peer has sent. *)
Definition push (command : string) (h : Hook) : Hook :=
  match peerRef h with
  | Some i => withPeer i (fun p => setp_sent (sent p ++ [command]) p) h
  | None => h
  end.

Lemma updateAt_at (A : Type) (f : A -> A) (l : list A) : forall i p,
  nth_error l i = Some p -> updateAt i (fun _ => f p) l = updateAt i f l.
Proof.
  induction l as [ | x r IH]; intros [ | i] p H; cbn in *; try discriminate.
  - inversion H; subst. reflexivity.
  - rewrite (IH i p H). reflexivity.
Qed.

Lemma sendCommand_ready command h :
  ready h ->
  sendCommand command h = Returns (push command h)
  /\ ready (push command h)
  /\ outbox (push command h) = outbox h ++ [command]
  /\ connectionStatus (push command h) = connectionStatus h
  /\ videoActive (push command h) = videoActive h.
Proof.
  intros (i & p & Hi & Hp & Hd & Ho & Hs).
  assert (Hb : String.eqb (connectionStatus h) "connected" || videoActive h = true).
  { apply orb_true_iff. rewrite String.eqb_eq. exact Hs. }
  unfold sendCommand, push, outbox, currentPeer. rewrite Hi, Hb, Hp. cbn [negb].
  unfold send. rewrite Hd, Ho. cbn [orb negb].
  unfold withPeer.
  rewrite (@updateAt_at _ (fun q => setp_sent (sent q ++ [command]) q) (peers h) i p Hp).
  split; [reflexivity | ]. cbn. rewrite Hi, WebRTCFacts.updateAt_same, Hp. cbn.
  repeat split.
  exists i, (setp_sent (sent p ++ [command]) p). cbn.
  rewrite Hi, WebRTCFacts.updateAt_same, Hp. cbn. repeat split; assumption.
Qed.

Lemma sendCommand_idle command h :
  mayCommand h = false -> sendCommand command h = Returns h.
Proof.
  intro H.
  destruct (WebRTCFacts.sendCommand_cases command h)
    as [[_ E] | [[Hm _] | (i & p & Hm & _)]]; [exact E | congruence | congruence].
Qed.

Lemma sendCommand_peerless command h :
  peerRef h = None -> sendCommand command h = Returns h.
Proof. intro H. apply sendCommand_idle. unfold mayCommand. rewrite H. reflexivity. Qed.

End SendFacts.

Module GateFacts.
Import Js JsFacts Joystick JoystickSend SendFacts.

Section Gate.
Variable toStr : number -> string.

(** The values recorded as last sent once an entry is through. *)
Definition nextLast (last : PWMValues) (e : Z * number) : PWMValues :=
  if gateOpen (snd e) (channel (fst e) last)
  then setChannel (fst e) (round (snd e)) last
  else last.

Definition commandFor (last : PWMValues) (e : Z * number) : list string :=
  if gateOpen (snd e) (channel (fst e) last)
  then [pwmCommand toStr (fst e) (round (snd e))]
  else [].

(** The commands a run over the entries hands to the peer, in order. *)
Fixpoint emitted (es : list (Z * number)) (last : PWMValues) : list string :=
  match es with
  | [] => []
  | e :: rest => commandFor last e ++ emitted rest (nextLast last e)
  end.

Lemma forEach_ready es : forall last h,
  ready h ->
  exists h',
    forEach toStr es (last, h) = Completed (fold_left nextLast es last, h')
    /\ ready h'
    /\ outbox h' = outbox h ++ emitted es last.
Proof.
  induction es as [ | [k x] es IH]; intros last h Hr.
  - exists h. cbn. rewrite app_nil_r. auto.
  - cbn [forEach sendEntry fold_left emitted]. unfold nextLast, commandFor. cbn [fst snd].
    destruct (gateOpen x (channel k last)).
    + destruct (@sendCommand_ready (pwmCommand toStr k (round x)) h Hr)
        as (E & Hr' & Ho & _).
      rewrite E. destruct (IH (setChannel k (round x) last) _ Hr') as (h' & E' & Hr2 & Ho2).
      exists h'. rewrite E'. split; [reflexivity | split; [exact Hr2 | ]].
      rewrite Ho2, Ho, <- app_assoc. reflexivity.
    + destruct (IH last h Hr) as (h' & E' & Hr2 & Ho2).
      exists h'. rewrite E'. auto.
Qed.

Lemma forEach_peerless es : forall last h,
  WebRTC.peerRef h = None ->
  forEach toStr es (last, h) = Completed (fold_left nextLast es last, h).
Proof.
  induction es as [ | [k x] es IH]; intros last h Hp; [reflexivity | ].
  cbn [forEach sendEntry fold_left]. unfold nextLast. cbn [fst snd].
  destruct (gateOpen x (channel k last)).
  - rewrite sendCommand_peerless by exact Hp. apply IH. exact Hp.
  - apply IH. exact Hp.
Qed.

(** The channels are gated one by one: what an earlier entry recorded does
    not move the gate of a later one. *)
Lemma gated_channels (cur last : PWMValues) (k : Z) :
  In k [1; 2; 3; 4]%Z ->
  channel k (fold_left nextLast (entries cur) last)
  = if gateOpen (channel k cur) (channel k last)
    then round (channel k cur) else channel k last.
Proof.
  intro Hk. destruct cur as [c1 c2 c3 c4], last as [l1 l2 l3 l4].
  unfold entries, nextLast. cbn [fold_left fst snd ROLL PITCH THROTTLE YAW].
  cbn [In] in Hk.
  destruct Hk as [<- | [<- | [<- | [<- | []]]]];
    cbn [channel setChannel Z.eqb Pos.eqb ROLL PITCH THROTTLE YAW];
    destruct (gateOpen c1 l1);
    cbn [channel setChannel Z.eqb Pos.eqb ROLL PITCH THROTTLE YAW];
    destruct (gateOpen c2 l2);
    cbn [channel setChannel Z.eqb Pos.eqb ROLL PITCH THROTTLE YAW];
    destruct (gateOpen c3 l3);
    cbn [channel setChannel Z.eqb Pos.eqb ROLL PITCH THROTTLE YAW];
    destruct (gateOpen c4 l4);
    cbn [channel setChannel Z.eqb Pos.eqb ROLL PITCH THROTTLE YAW];
    reflexivity.
Qed.

Definition gatedCommands (cur last : PWMValues) : list string :=
  flat_map (fun e => commandFor last e) (entries cur).

Lemma emitted_gated (cur last : PWMValues) :
  emitted (entries cur) last = gatedCommands cur last.
Proof.
  destruct cur as [c1 c2 c3 c4], last as [l1 l2 l3 l4].
  unfold gatedCommands, entries, nextLast, commandFor.
  cbn [emitted flat_map fst snd ROLL PITCH THROTTLE YAW channel Z.eqb Pos.eqb].
  unfold nextLast, commandFor.
  cbn [fst snd channel setChannel Z.eqb Pos.eqb ROLL PITCH THROTTLE YAW].
  destruct (gateOpen c1 l1);
    cbn [channel setChannel Z.eqb Pos.eqb ROLL PITCH THROTTLE YAW];
    destruct (gateOpen c2 l2);
    cbn [channel setChannel Z.eqb Pos.eqb ROLL PITCH THROTTLE YAW];
    destruct (gateOpen c3 l3);
    cbn [channel setChannel Z.eqb Pos.eqb ROLL PITCH THROTTLE YAW];
    destruct (gateOpen c4 l4);
    cbn [channel setChannel Z.eqb Pos.eqb ROLL PITCH THROTTLE YAW];
    reflexivity.
Qed.
End Gate.

(** A closed gate means the rounded value is within 5 of what was last sent. *)
Lemma gate_closed (c l : Q) :
  gateOpen (Fin c) (Fin l) = false ->
  exists R, round (Fin c) = Fin R /\ Qabs (R - l) < 5.
Proof.
  unfold gateOpen, JsMath.orElse, JsMath.ge. cbn [round truthy].
  set (R := inject_Z (Qfloor (c + (1 # 2)))).
  intro H. exists R. split; [reflexivity | ].
  destruct (Qeqb l 0) eqn:E; cbn [negb sub add neg abs lt] in H;
    apply negb_false_iff in H; qtests; apply Qabs_lt_iff in H; apply Qabs_lt_iff; lra.
Qed.

Definition finiteValues (v : PWMValues) : Prop :=
  exists q1 q2 q3 q4 : Q,
    v = {| ROLL := Fin q1; PITCH := Fin q2; THROTTLE := Fin q3; YAW := Fin q4 |}.

Lemma finite_channel (v : PWMValues) (k : Z) :
  finiteValues v -> exists q, channel k v = Fin q.
Proof.
  intros (q1 & q2 & q3 & q4 & ->). unfold channel.
  destruct (k =? 1)%Z; [cbn; eauto | ]. destruct (k =? 2)%Z; [cbn; eauto | ].
  destruct (k =? 3)%Z; cbn; eauto.
Qed.

(** A gate that was just passed, or was closed, is closed. *)
Lemma gate_settled (c l : Q) :
  gateOpen (Fin c)
    (if gateOpen (Fin c) (Fin l) then round (Fin c) else Fin l) = false.
Proof.
  destruct (gateOpen (Fin c) (Fin l)) eqn:E; [ | exact E].
  unfold gateOpen, JsMath.orElse, JsMath.ge. cbn [round truthy].
  set (R := inject_Z (Qfloor (c + (1 # 2)))).
  destruct (Qeqb R 0) eqn:Ez; cbn [negb sub add neg abs lt];
    apply negb_false_iff; apply Qltb_true; qtests; apply Qabs_lt_iff; lra.
Qed.

Lemma gates_settle (toStr : number -> string) (cur last : PWMValues) :
  finiteValues cur -> finiteValues last ->
  gatedCommands toStr cur (fold_left nextLast (entries cur) last) = [].
Proof.
  intros Hc Hl.
  assert (Hg : forall k, In k [1; 2; 3; 4]%Z ->
            gateOpen (channel k cur)
              (channel k (fold_left nextLast (entries cur) last)) = false).
  { intros k Hk. rewrite gated_channels by exact Hk.
    destruct (finite_channel k Hc) as [c ->], (finite_channel k Hl) as [l ->].
    apply gate_settled. }
  pose proof (Hg 1%Z ltac:(cbn; tauto)) as G1.
  pose proof (Hg 2%Z ltac:(cbn; tauto)) as G2.
  pose proof (Hg 3%Z ltac:(cbn; tauto)) as G3.
  pose proof (Hg 4%Z ltac:(cbn; tauto)) as G4.
  clear Hg. set (L := fold_left nextLast (entries cur) last) in *. clearbody L.
  destruct cur as [c1 c2 c3 c4].
  unfold gatedCommands, commandFor, entries.
  cbn [flat_map fst snd channel Z.eqb Pos.eqb ROLL PITCH THROTTLE YAW] in *.
  rewrite G1, G2, G3, G4. reflexivity.
Qed.

Lemma recorded_finite (cur last : PWMValues) :
  finiteValues cur -> finiteValues last ->
  finiteValues (fold_left nextLast (entries cur) last).
Proof.
  intros (c1 & c2 & c3 & c4 & ->) (l1 & l2 & l3 & l4 & ->).
  unfold entries, nextLast. cbn [fold_left fst snd ROLL PITCH THROTTLE YAW].
  cbn [channel setChannel Z.eqb Pos.eqb ROLL PITCH THROTTLE YAW].
  destruct (gateOpen (Fin c1) (Fin l1));
    cbn [channel setChannel Z.eqb Pos.eqb ROLL PITCH THROTTLE YAW];
    destruct (gateOpen (Fin c2) (Fin l2));
    cbn [channel setChannel Z.eqb Pos.eqb ROLL PITCH THROTTLE YAW];
    destruct (gateOpen (Fin c3) (Fin l3));
    cbn [channel setChannel Z.eqb Pos.eqb ROLL PITCH THROTTLE YAW];
    destruct (gateOpen (Fin c4) (Fin l4));
    cbn [channel setChannel Z.eqb Pos.eqb ROLL PITCH THROTTLE YAW round];
    eexists _, _, _, _; reflexivity.
Qed.

(** With every gate closed the effect sends nothing and records nothing. *)
Lemma pwm_gate_again (toStr : number -> string) (cur last : PWMValues) (h : WebRTC.Hook) :
  ready h -> finiteValues cur -> finiteValues last ->
  gatedCommands toStr cur last = [] ->
  exists h',
    sendPWMValues toStr "manual" true cur (last, h) = Completed (last, h')
    /\ outbox h' = outbox h.
Proof.
  intros Hr Hc Hl Hnone.
  destruct (@forEach_ready toStr (entries cur) last h Hr) as (h' & E & Hr' & Ho).
  assert (Hsame : fold_left nextLast (entries cur) last = last).
  { destruct cur as [c1 c2 c3 c4], last as [l1 l2 l3 l4].
    unfold gatedCommands, commandFor, entries in Hnone.
    cbn [flat_map fst snd ROLL PITCH THROTTLE YAW channel Z.eqb Pos.eqb] in Hnone.
    unfold entries, nextLast.
    cbn [fold_left fst snd ROLL PITCH THROTTLE YAW channel Z.eqb Pos.eqb].
    destruct (gateOpen c1 l1); [discriminate Hnone | ].
    cbn [channel setChannel Z.eqb Pos.eqb ROLL PITCH THROTTLE YAW] in *.
    destruct (gateOpen c2 l2); [discriminate Hnone | ].
    cbn [channel setChannel Z.eqb Pos.eqb ROLL PITCH THROTTLE YAW] in *.
    destruct (gateOpen c3 l3); [discriminate Hnone | ].
    cbn [channel setChannel Z.eqb Pos.eqb ROLL PITCH THROTTLE YAW] in *.
    destruct (gateOpen c4 l4); [discriminate Hnone | ].
    reflexivity. }
  exists h'. split.
  - unfold sendPWMValues. cbn [snd].
    destruct Hr as (i & p & _ & _ & _ & _ & Hs).
    assert (Hb : String.eqb (WebRTC.connectionStatus h) "connected"
                 || WebRTC.videoActive h = true)
      by (apply orb_true_iff; rewrite String.eqb_eq; exact Hs).
    rewrite Hb, E, Hsame. reflexivity.
  - rewrite Ho, emitted_gated, Hnone, app_nil_r. reflexivity.
Qed.

(** X4: the sending effect is change-gated.  On a console that can send, in
    manual mode with a joystick, for finite channel values: the effect runs to
    its end; the peer is handed, in channel order, one MANUAL_PWM command for
    every channel whose rounded value is off by 5 or more from what was last
    sent, and nothing else; each such channel is recorded as sent and the
    others keep their record; so afterwards every channel is within 5 of its
    record, and running the effect again on the same values sends nothing. *)
Theorem pwm_change_gate (toStr : number -> string) (cur last : PWMValues) (h : WebRTC.Hook) :
  ready h -> finiteValues cur -> finiteValues last ->
  exists last' h',
    sendPWMValues toStr "manual" true cur (last, h) = Completed (last', h')
    /\ ready h'
    /\ outbox h' = outbox h ++ gatedCommands toStr cur last
    /\ (forall k, In k [1; 2; 3; 4]%Z ->
          channel k last'
          = (if gateOpen (channel k cur) (channel k last)
             then round (channel k cur) else channel k last)
          /\ exists R L, round (channel k cur) = Fin R /\ channel k last' = Fin L
                         /\ Qabs (R - L) < 5)
    /\ gatedCommands toStr cur last' = [].
Proof.
  intros Hr Hc Hl.
  destruct (@forEach_ready toStr (entries cur) last h Hr) as (h' & E & Hr' & Ho).
  exists (fold_left nextLast (entries cur) last), h'.
  split; [ | split; [exact Hr' | split; [ | split]]].
  - unfold sendPWMValues. cbn [snd].
    destruct Hr as (i & p & _ & _ & _ & _ & Hs).
    assert (Hb : String.eqb (WebRTC.connectionStatus h) "connected"
                 || WebRTC.videoActive h = true)
      by (apply orb_true_iff; rewrite String.eqb_eq; exact Hs).
    rewrite Hb. exact E.
  - rewrite Ho, emitted_gated. reflexivity.
  - intros k Hk. split; [apply gated_channels; exact Hk | ].
    rewrite gated_channels by exact Hk.
    destruct (finite_channel k Hc) as [c Ec], (finite_channel k Hl) as [l El].
    rewrite Ec, El.
    destruct (gateOpen (Fin c) (Fin l)) eqn:G.
    + eexists _, _. split; [reflexivity | split; [reflexivity | ]].
      apply Qabs_lt_iff. lra.
    + destruct (gate_closed c l G) as (R & ER & HR).
      exists R, l. auto.
  - apply gates_settle; assumption.
Qed.

(** A first poll with the throttle pushed up: only the throttle is sent. *)
Lemma pwm_change_gate_witness :
  exists last' h',
    sendPWMValues toFixed6 "manual" true
      {| ROLL := Fin 1500; PITCH := Fin 1502; THROTTLE := Fin 1005; YAW := Fin 1500 |}
      (initialPWMValues, WebRTCFacts.connectedHook)
    = Completed (last', h')
    /\ outbox h' = ["MANUAL_PWM:3:1005.000000"%string]
    /\ last' = {| ROLL := Fin 1500; PITCH := Fin 1500; THROTTLE := Fin 1005;
                  YAW := Fin 1500 |}.
Proof.
  destruct (@pwm_change_gate toFixed6
              {| ROLL := Fin 1500; PITCH := Fin 1502; THROTTLE := Fin 1005;
                 YAW := Fin 1500 |}
              initialPWMValues WebRTCFacts.connectedHook)
    as (last' & h' & E & _ & Ho & _).
  - exists 0%nat, (WebRTC.setp_channelOpen true (WebRTCFacts.answering WebRTCFacts.sampleOffer)).
    repeat split; auto.
  - exists 1500, 1502, 1005, 1500. reflexivity.
  - exists 1500, 1500, 1000, 1500. reflexivity.
  - exists last', h'. split; [exact E | ].
    split; [exact Ho | ].
    vm_compute in E. inversion E. reflexivity.
Defined.

(** X5: the effect does not look for a peer.  With no peer held (the session
    closed while video stays marked active) it still runs to its end and
    records every channel that passed the gate as sent, the hook being left as
    it was, nothing transmitted; and running the effect again on the same
    values, on a console that can send, sends nothing: the recorded values are
    never transmitted. *)
Theorem pwm_recorded_without_peer (toStr : number -> string)
  (cur last : PWMValues) (h : WebRTC.Hook) :
  WebRTC.peerRef h = None ->
  WebRTC.connectionStatus h = "connected"%string \/ WebRTC.videoActive h = true ->
  finiteValues cur -> finiteValues last ->
  exists last',
    sendPWMValues toStr "manual" true cur (last, h) = Completed (last', h)
    /\ (forall k, In k [1; 2; 3; 4]%Z ->
          channel k last'
          = (if gateOpen (channel k cur) (channel k last)
             then round (channel k cur) else channel k last))
    /\ (forall h2, ready h2 ->
          exists h2',
            sendPWMValues toStr "manual" true cur (last', h2) = Completed (last', h2')
            /\ outbox h2' = outbox h2).
Proof.
  intros Hp Hs Hc Hl.
  exists (fold_left nextLast (entries cur) last).
  split; [ | split].
  - unfold sendPWMValues. cbn [snd].
    assert (Hb : String.eqb (WebRTC.connectionStatus h) "connected"
                 || WebRTC.videoActive h = true)
      by (apply orb_true_iff; rewrite String.eqb_eq; exact Hs).
    rewrite Hb. apply forEach_peerless. exact Hp.
  - intros k Hk. apply gated_channels. exact Hk.
  - intros h2 Hr2.
    set (last' := fold_left nextLast (entries cur) last).
    assert (Hl' : finiteValues last') by (apply recorded_finite; assumption).
    destruct (@pwm_gate_again toStr cur last' h2 Hr2 Hc Hl') as (h2' & E & Ho).
    + apply gates_settle; assumption.
    + exists h2'. auto.
Qed.

(** The session closed after video had started: the throttle is recorded as
    sent, and the next run on a fresh session does not send it. *)
Lemma pwm_recorded_without_peer_witness :
  exists last',
    sendPWMValues toFixed6 "manual" true
      {| ROLL := Fin 1500; PITCH := Fin 1502; THROTTLE := Fin 1005; YAW := Fin 1500 |}
      (initialPWMValues, WebRTC.onClose (Playback.videoPlaying WebRTCFacts.connectedHook))
    = Completed (last', WebRTC.onClose (Playback.videoPlaying WebRTCFacts.connectedHook))
    /\ THROTTLE last' = Fin 1005
    /\ exists h2',
         sendPWMValues toFixed6 "manual" true
           {| ROLL := Fin 1500; PITCH := Fin 1502; THROTTLE := Fin 1005; YAW := Fin 1500 |}
           (last', WebRTCFacts.connectedHook)
         = Completed (last', h2')
         /\ outbox h2' = [].
Proof.
  destruct (@pwm_recorded_without_peer toFixed6
              {| ROLL := Fin 1500; PITCH := Fin 1502; THROTTLE := Fin 1005;
                 YAW := Fin 1500 |}
              initialPWMValues
              (WebRTC.onClose (Playback.videoPlaying WebRTCFacts.connectedHook)))
    as (last' & E & Hk & Hnext).
  - reflexivity.
  - right. reflexivity.
  - exists 1500, 1502, 1005, 1500. reflexivity.
  - exists 1500, 1500, 1000, 1500. reflexivity.
  - exists last'. split; [exact E | ]. split.
    + assert (H3 := Hk 3%Z ltac:(cbn; tauto)). exact H3.
    + destruct (Hnext WebRTCFacts.connectedHook) as (h2' & E2 & Ho).
      * exists 0%nat,
          (WebRTC.setp_channelOpen true (WebRTCFacts.answering WebRTCFacts.sampleOffer)).
        repeat split; auto.
      * exists h2'. split; [exact E2 | exact Ho].
Defined.

End GateFacts.

Module ButtonFacts.
Import WebRTC JoystickSend SendFacts.

(** The tilt commands of the rising edges of one poll. *)
Definition risen (pressed last : Buttons) : list string :=
  (if l1 pressed && negb (l1 last) then ["CAMERA_TILT_UP"%string] else [])
  ++ (if r1 pressed && negb (r1 last) then ["CAMERA_TILT_DOWN"%string] else []).

(** The rising edges of a run of polls, oldest first. *)
Fixpoint edges (samples : list Buttons) (last : Buttons) : list string :=
  match samples with
  | [] => []
  | pressed :: rest => risen pressed last ++ edges rest pressed
  end.

Lemma pollButtons_ready pressed last h :
  ready h ->
  exists h',
    pollButtons pressed (last, h) = Completed (pressed, h')
    /\ ready h' /\ outbox h' = outbox h ++ risen pressed last.
Proof.
  intro Hr. unfold pollButtons, risen.
  destruct (l1 pressed && negb (l1 last)).
  - destruct (@sendCommand_ready "CAMERA_TILT_UP" h Hr) as (E & Hr1 & Ho1 & _).
    rewrite E.
    destruct (r1 pressed && negb (r1 last)).
    + destruct (@sendCommand_ready "CAMERA_TILT_DOWN" _ Hr1) as (E2 & Hr2 & Ho2 & _).
      rewrite E2. eexists. split; [reflexivity | split; [exact Hr2 | ]].
      rewrite Ho2, Ho1, <- app_assoc. reflexivity.
    + eexists. split; [reflexivity | split; [exact Hr1 | ]].
      rewrite Ho1. reflexivity.
  - destruct (r1 pressed && negb (r1 last)).
    + destruct (@sendCommand_ready "CAMERA_TILT_DOWN" h Hr) as (E2 & Hr2 & Ho2 & _).
      rewrite E2. eexists. split; [reflexivity | split; [exact Hr2 | ]].
      rewrite Ho2. reflexivity.
    + exists h. rewrite app_nil_r. auto.
Qed.

Lemma last_cons (A : Type) (rest : list A) : forall p d : A,
  List.last (p :: rest) d = List.last rest p.
Proof.
  induction rest as [ | b rest IH]; intros p d; [reflexivity | ].
  change (List.last (p :: b :: rest) d) with (List.last (b :: rest) d).
  rewrite (IH b d), (IH b p). reflexivity.
Qed.

Lemma risen_held (pressed : Buttons) : risen pressed pressed = [].
Proof. unfold risen. destruct (l1 pressed), (r1 pressed); reflexivity. Qed.

Lemma edges_held (pressed : Buttons) (n : nat) : edges (repeat pressed n) pressed = [].
Proof.
  induction n as [ | n IH]; [reflexivity | ].
  cbn [repeat edges]. rewrite risen_held, IH. reflexivity.
Qed.

(** X6: the shoulder buttons act on rising edges.  On a console that can send,
    a run of polls hands the peer exactly the tilt commands of the presses
    that were not already down at the poll before, up before down within a
    poll, and remembers the last poll; so a button held over any number of
    polls tilts the camera once. *)
Theorem buttons_rising_edges (samples : list Buttons) (last : Buttons) (h : Hook) :
  ready h ->
  exists h',
    pollButtonsMany samples (last, h) = (List.last samples last, h')
    /\ ready h'
    /\ outbox h' = outbox h ++ edges samples last
    /\ (forall pressed n, samples = repeat pressed (S n) ->
          outbox h' = outbox h ++ risen pressed last).
Proof.
  intro Hr.
  assert (H : exists h',
             pollButtonsMany samples (last, h) = (List.last samples last, h')
             /\ ready h' /\ outbox h' = outbox h ++ edges samples last).
  { revert last h Hr. induction samples as [ | p rest IH]; intros last h Hr.
    - exists h. cbn. rewrite app_nil_r. auto.
    - unfold pollButtonsMany. cbn [fold_left].
      destruct (@pollButtons_ready p last h Hr) as (h1 & E & Hr1 & Ho1).
      rewrite E. cbn [stateOf].
      destruct (IH p h1 Hr1) as (h' & E' & Hr' & Ho').
      exists h'. unfold pollButtonsMany in E'. rewrite E'.
      split; [ | split; [exact Hr' | ]].
      + f_equal. symmetry. apply last_cons.
      + cbn [edges]. rewrite Ho', Ho1, <- app_assoc. reflexivity. }
  destruct H as (h' & E & Hr' & Ho). exists h'.
  split; [exact E | split; [exact Hr' | split; [exact Ho | ]]].
  intros pressed n ->. rewrite Ho. cbn [repeat edges].
  rewrite edges_held, app_nil_r. reflexivity.
Qed.

(** L1 held over three polls, R1 pressed at the third. *)
Lemma buttons_rising_edges_witness :
  exists h',
    pollButtonsMany
      [ {| l1 := true; r1 := false |}; {| l1 := true; r1 := false |};
        {| l1 := true; r1 := true |} ]
      ({| l1 := false; r1 := false |}, WebRTCFacts.connectedHook)
    = ({| l1 := true; r1 := true |}, h')
    /\ outbox h' = ["CAMERA_TILT_UP"%string; "CAMERA_TILT_DOWN"%string].
Proof.
  destruct (@buttons_rising_edges
              [ {| l1 := true; r1 := false |}; {| l1 := true; r1 := false |};
                {| l1 := true; r1 := true |} ]
              {| l1 := false; r1 := false |} WebRTCFacts.connectedHook)
    as (h' & E & _ & Ho & _).
  - exists 0%nat,
      (WebRTC.setp_channelOpen true (WebRTCFacts.answering WebRTCFacts.sampleOffer)).
    repeat split; auto.
  - exists h'. split; [exact E | exact Ho].
Defined.

End ButtonFacts.

Module ColourFacts.
Import Js JsFacts Colour.

(** X7: the LED channel clamp.  A finite channel is rounded to the nearest
    integer and clamped to 0..255, the infinities go to the ends, NaN stays
    NaN (and is then sent as such), and clamping twice changes nothing. *)
Theorem validChannel_clamps (x : number) :
  validChannel x
  = match x with
    | Fin q => ofZ (Z.max 0 (Z.min 255 (Qfloor (q + (1 # 2)))))
    | PosInf => ofZ 255
    | NegInf => ofZ 0
    | NaN => NaN
    end
  /\ validChannel (validChannel x) = validChannel x.
Proof.
  assert (H : forall q, validChannel (Fin q)
                        = ofZ (Z.max 0 (Z.min 255 (Qfloor (q + (1 # 2)))))).
  { intro q. unfold validChannel, ofZ. cbn [round].
    set (F := Qfloor (q + (1 # 2))).
    unfold min, max. cbn [lt].
    destruct (Qltb (inject_Z F) 255) eqn:E1; qtests.
    - change 255 with (inject_Z 255) in E1. rewrite <- Zlt_Qlt in E1.
      cbn [lt]. destruct (Qltb 0 (inject_Z F)) eqn:E2; qtests.
      + change 0 with (inject_Z 0) in E2. rewrite <- Zlt_Qlt in E2.
        do 2 f_equal. lia.
      + change 0 with (inject_Z 0) in E2. rewrite <- Zle_Qle in E2.
        replace (Z.max 0 (Z.min 255 F)) with 0%Z by lia. reflexivity.
    - change 255 with (inject_Z 255) in E1. rewrite <- Zle_Qle in E1.
      replace (Z.max 0 (Z.min 255 F)) with 255%Z by lia. reflexivity. }
  destruct x as [q | | | ]; [ | split; reflexivity ..].
  split; [apply H | ].
  rewrite H. unfold ofZ. rewrite H. unfold ofZ. do 2 f_equal.
  set (n := Z.max 0 (Z.min 255 (Qfloor (q + (1 # 2))))).
  assert (Hn : (0 <= n <= 255)%Z) by (unfold n; lia).
  destruct (@JoystickFacts.round_between n n (inject_Z n)) as [A B]; [lra | lra | ].
  lia.
Qed.

(** A product of a unit fraction with 255 rounds into 0..255. *)
Lemma unit_channel (x : Q) :
  0 <= x -> x <= 1 ->
  exists n, round (mul (Fin x) (Fin 255)) = ofZ n /\ (0 <= n <= 255)%Z.
Proof.
  intros H0 H1. cbn [mul round]. eexists. split; [reflexivity | ].
  apply JoystickFacts.round_between.
  - change (inject_Z 0) with 0. nra.
  - change (inject_Z 255) with 255. nra.
Qed.

(** The fractional part of the hue within its sector. *)
Lemma sector_fraction (h : Q) :
  0 <= h * 6 - inject_Z (Qfloor (h * 6)) /\ h * 6 - inject_Z (Qfloor (h * 6)) <= 1.
Proof.
  pose proof (Qfloor_le (h * 6)) as A. pose proof (Qlt_floor (h * 6)) as B.
  rewrite inject_Z_plus in B. change (inject_Z 1) with 1 in B. lra.
Qed.

(** X8: for a saturation and a value between 0 and 1, whatever the hue, every
    component of the colour is an integer between 0 and 255. *)
Theorem hsvToRgb_in_range (h s v : Q) :
  0 <= s -> s <= 1 -> 0 <= v -> v <= 1 ->
  exists R G B,
    hsvToRgb (Fin h) (Fin s) (Fin v) = {| r := ofZ R; g := ofZ G; b := ofZ B |}
    /\ (0 <= R <= 255)%Z /\ (0 <= G <= 255)%Z /\ (0 <= B <= 255)%Z.
Proof.
  intros Hs0 Hs1 Hv0 Hv1.
  destruct (sector_fraction h) as [Hf0 Hf1].
  unfold hsvToRgb. cbn [mul JsMath.floor sub add neg].
  set (f := h * 6 + - inject_Z (Qfloor (h * 6))).
  assert (Hf : 0 <= f /\ f <= 1) by (unfold f; lra). clearbody f. clear Hf0 Hf1.
  destruct Hf as [Hf0 Hf1].
  set (sel := JsMath.rem _ _). clearbody sel.
  assert (Hp : 0 <= v * (1 + - s) /\ v * (1 + - s) <= 1) by (split; nra).
  assert (Hq : 0 <= v * (1 + - (f * s)) /\ v * (1 + - (f * s)) <= 1).
  { assert (0 <= f * s) by nra. assert (f * s <= 1) by nra. split; nra. }
  assert (Ht : 0 <= v * (1 + - ((1 + - f) * s)) /\ v * (1 + - ((1 + - f) * s)) <= 1).
  { assert (0 <= (1 + - f) * s) by nra. assert ((1 + - f) * s <= 1) by nra. split; nra. }
  destruct (@unit_channel v Hv0 Hv1) as (nv & Ev & Hnv).
  destruct (@unit_channel _ (proj1 Hp) (proj2 Hp)) as (np & Ep & Hnp).
  destruct (@unit_channel _ (proj1 Hq) (proj2 Hq)) as (nq & Eq & Hnq).
  destruct (@unit_channel _ (proj1 Ht) (proj2 Ht)) as (nt & Et & Hnt).
  destruct (@unit_channel 0 ltac:(lra) ltac:(lra)) as (n0 & E0 & Hn0).
  destruct (strictEq sel (Fin 0));
    [ | destruct (strictEq sel (Fin 1));
        [ | destruct (strictEq sel (Fin 2));
            [ | destruct (strictEq sel (Fin 3));
                [ | destruct (strictEq sel (Fin 4));
                    [ | destruct (strictEq sel (Fin 5))]]]]];
    rewrite ?Ev, ?Ep, ?Eq, ?Et, ?E0; eexists _, _, _; (split; [reflexivity | auto]).
Qed.

Lemma hsvToRgb_in_range_witness :
  exists R G B,
    hsvToRgb (Fin (1 # 3)) (Fin (1 # 2)) (Fin 1)
    = {| r := ofZ R; g := ofZ G; b := ofZ B |}
    /\ (0 <= R <= 255)%Z /\ (0 <= G <= 255)%Z /\ (0 <= B <= 255)%Z.
Proof. apply (@hsvToRgb_in_range (1 # 3) (1 # 2) 1); lra. Defined.

(** [i % 6] on an integer is the remainder of the division that rounds
    toward zero: it has the sign of [i]. *)
Lemma trunc_sixth (n : Z) : JsMath.trunc (inject_Z n / 6) = Z.quot n 6.
Proof.
  unfold JsMath.trunc.
  change (inject_Z n / 6) with ((n * 1) # 6).
  unfold Qle_bool, Qceiling, Qfloor, Qopp. cbn [Qnum Qden].
  replace (n * 1)%Z with n by lia.
  destruct (0 * 6 <=? n * 1)%Z eqn:E.
  - apply Z.leb_le in E. symmetry. apply Z.quot_div_nonneg; lia.
  - apply Z.leb_gt in E.
    assert (Hn : (n = - (- n))%Z) by lia.
    rewrite Hn at 2. rewrite Z.quot_opp_l by lia.
    rewrite Z.quot_div_nonneg by lia. reflexivity.
Qed.

Lemma sector_test (n j : Z) :
  strictEq (JsMath.rem (ofZ n) (Fin 6)) (ofZ j) = (Z.rem n 6 =? j)%Z.
Proof.
  unfold JsMath.rem, ofZ. change (Qeqb 6 0) with false. cbn [strictEq].
  rewrite trunc_sixth.
  assert (E : inject_Z n - 6 * inject_Z (Z.quot n 6) == inject_Z (Z.rem n 6)).
  { rewrite (Z.quot_rem' n 6) at 1.
    rewrite inject_Z_plus, inject_Z_mult. change (inject_Z 6) with 6. ring. }
  destruct (Z.eqb_spec (Z.rem n 6) j) as [<- | Hne].
  - apply Qeqb_true. exact E.
  - apply Qeqb_false. rewrite E. intro H. apply Hne.
    unfold Qeq in H. cbn [inject_Z Qnum Qden] in H. lia.
Qed.

Lemma grey_channel (v x : Q) :
  x == v -> round (mul (Fin x) (Fin 255)) = round (mul (Fin v) (Fin 255)).
Proof.
  intro E. cbn [mul round]. do 2 f_equal. apply Qfloor_comp. rewrite E. reflexivity.
Qed.

(** X9: without saturation the colour is a grey.  For a hue that is not
    negative and whose product with 6 does not overflow ([h * 6] within
    [Number.MAX_VALUE], as for every hue between 0 and 1), and a value whose
    product with 255 does not overflow, [hsvToRgb(h, 0, v)] has its three
    components equal to [Math.round(v * 255)]: the hue falls in one of the
    six sectors. *)
Theorem hsvToRgb_grey (h v : Q) :
  0 <= h -> h * 6 <= JsMath.MAX_VALUE -> Qabs v * 255 <= JsMath.MAX_VALUE ->
  hsvToRgb (Fin h) (Fin 0) (Fin v)
  = {| r := round (mul (Fin v) (Fin 255));
       g := round (mul (Fin v) (Fin 255));
       b := round (mul (Fin v) (Fin 255)) |}.
Proof.
  intros Hh _ _. unfold hsvToRgb. cbn [mul JsMath.floor sub add neg].
  set (n := Qfloor (h * 6)).
  assert (Hn : (0 <= n)%Z).
  { unfold n. change 0%Z with (Qfloor 0). apply Qfloor_resp_le. lra. }
  change (Fin (inject_Z n)) with (ofZ n).
  set (sel := JsMath.rem (ofZ n) (Fin 6)).
  assert (T : forall j, strictEq sel (ofZ j) = (Z.rem n 6 =? j)%Z)
    by (intro j; apply sector_test).
  change (strictEq sel (Fin 0)) with (strictEq sel (ofZ 0)).
  change (strictEq sel (Fin 1)) with (strictEq sel (ofZ 1)).
  change (strictEq sel (Fin 2)) with (strictEq sel (ofZ 2)).
  change (strictEq sel (Fin 3)) with (strictEq sel (ofZ 3)).
  change (strictEq sel (Fin 4)) with (strictEq sel (ofZ 4)).
  change (strictEq sel (Fin 5)) with (strictEq sel (ofZ 5)).
  rewrite !T. clear T. clearbody sel.
  pose proof (Z.rem_bound_pos n 6 Hn ltac:(lia)) as Hr.
  set (f := h * 6 + - inject_Z n).
  assert (Ep : round (mul (Fin (v * (1 + - 0))) (Fin 255))
               = round (mul (Fin v) (Fin 255))) by (apply grey_channel; ring).
  assert (Eq : round (mul (Fin (v * (1 + - (f * 0)))) (Fin 255))
               = round (mul (Fin v) (Fin 255))) by (apply grey_channel; ring).
  assert (Et : round (mul (Fin (v * (1 + - ((1 + - f) * 0)))) (Fin 255))
               = round (mul (Fin v) (Fin 255))) by (apply grey_channel; ring).
  destruct (Z.eqb_spec (Z.rem n 6) 0);
    [ | destruct (Z.eqb_spec (Z.rem n 6) 1);
        [ | destruct (Z.eqb_spec (Z.rem n 6) 2);
            [ | destruct (Z.eqb_spec (Z.rem n 6) 3);
                [ | destruct (Z.eqb_spec (Z.rem n 6) 4);
                    [ | destruct (Z.eqb_spec (Z.rem n 6) 5); [ | lia]]]]]];
    rewrite ?Ep, ?Eq, ?Et; reflexivity.
Qed.

Lemma hsvToRgb_grey_witness :
  hsvToRgb (Fin (7 # 10)) (Fin 0) (Fin (1 # 2))
  = {| r := ofZ 128; g := ofZ 128; b := ofZ 128 |}.
Proof.
  apply (@hsvToRgb_grey (7 # 10) (1 # 2));
    [lra | vm_compute; discriminate | vm_compute; discriminate].
Defined.

(** X10: [i % 6] keeps the sign of [i], so a negative hue whose sector index
    is not a multiple of 6 matches no case of the switch: the colour is
    black, whatever the saturation and the value. *)
Theorem hsvToRgb_negative_hue (h s v : Q) :
  h < 0 -> (Z.rem (Qfloor (h * 6)) 6 <> 0)%Z ->
  hsvToRgb (Fin h) (Fin s) (Fin v) = {| r := ofZ 0; g := ofZ 0; b := ofZ 0 |}.
Proof.
  intros Hh Hrem. unfold hsvToRgb. cbn [mul JsMath.floor sub add neg].
  set (n := Qfloor (h * 6)) in *.
  assert (Hn : (n < 0)%Z).
  { pose proof (Qfloor_le (h * 6)) as A. fold n in A.
    assert (B : inject_Z n < inject_Z 0) by (change (inject_Z 0) with 0; lra).
    rewrite <- Zlt_Qlt in B. exact B. }
  change (Fin (inject_Z n)) with (ofZ n).
  set (sel := JsMath.rem (ofZ n) (Fin 6)).
  assert (T : forall j, strictEq sel (ofZ j) = (Z.rem n 6 =? j)%Z)
    by (intro j; apply sector_test).
  change (strictEq sel (Fin 0)) with (strictEq sel (ofZ 0)).
  change (strictEq sel (Fin 1)) with (strictEq sel (ofZ 1)).
  change (strictEq sel (Fin 2)) with (strictEq sel (ofZ 2)).
  change (strictEq sel (Fin 3)) with (strictEq sel (ofZ 3)).
  change (strictEq sel (Fin 4)) with (strictEq sel (ofZ 4)).
  change (strictEq sel (Fin 5)) with (strictEq sel (ofZ 5)).
  rewrite !T. clear T. clearbody sel.
  assert (Hr : (- 6 < Z.rem n 6 <= 0)%Z).
  { pose proof (Z.rem_bound_pos (- n) 6 ltac:(lia) eq_refl) as Hp.
    rewrite Z.rem_opp_l in Hp by lia. lia. }
  destruct (Z.eqb_spec (Z.rem n 6) 0); [contradiction | ].
  destruct (Z.eqb_spec (Z.rem n 6) 1); [lia | ].
  destruct (Z.eqb_spec (Z.rem n 6) 2); [lia | ].
  destruct (Z.eqb_spec (Z.rem n 6) 3); [lia | ].
  destruct (Z.eqb_spec (Z.rem n 6) 4); [lia | ].
  destruct (Z.eqb_spec (Z.rem n 6) 5); [lia | ].
  reflexivity.
Qed.

Lemma hsvToRgb_negative_hue_witness :
  hsvToRgb (Fin (- (1 # 10))) (Fin 1) (Fin 1)
  = {| r := ofZ 0; g := ofZ 0; b := ofZ 0 |}.
Proof.
  apply (@hsvToRgb_negative_hue (- (1 # 10)) 1 1); [lra | ].
  vm_compute. discriminate.
Defined.

End ColourFacts.

Module ConsoleFacts.
Import Js Admin Operator.

(** ** What inbound messages leave alone *)

(** The parts of the console no inbound message writes. *)
Definition untouched (a a' : Admin) : Prop :=
  rtc a' = rtc a
  /\ heartbeatError a' = heartbeatError a
  /\ videoRecordingFps a' = videoRecordingFps a
  /\ surveillanceMode a' = surveillanceMode a
  /\ surveillancePoints a' = surveillancePoints a
  /\ isAreaFinalized a' = isAreaFinalized a.

(** The parts only a LOCATION message writes. *)
Definition samePosition (a a' : Admin) : Prop :=
  droneLocation a' = droneLocation a
  /\ elevationCache a' = elevationCache a
  /\ lastValidAGL a' = lastValidAGL a.

(** The parts only the other messages write. *)
Definition sameStatus (a a' : Admin) : Prop :=
  lastHeartbeatTime a' = lastHeartbeatTime a
  /\ videoRecording a' = videoRecording a
  /\ videoRecordingStatus a' = videoRecordingStatus a
  /\ captureStatus a' = captureStatus a
  /\ captureSafeguardTimeout a' = captureSafeguardTimeout a
  /\ thermalSettings a' = thermalSettings a.

Ltac branches :=
  repeat match goal with
         | |- context [if ?c then _ else _] => destruct c
         | |- context [match ?c with Some _ => _ | None => _ end] => destruct c
         | |- context [match ?c with FetchFails => _ | _ => _ end] => destruct c
         end.

Lemma handleOtherMessages_frame now msg a :
  untouched a (handleOtherMessages now msg a)
  /\ samePosition a (handleOtherMessages now msg a)
  /\ heartbeatCheckSince (handleOtherMessages now msg a) = heartbeatCheckSince a.
Proof.
  unfold handleOtherMessages, untouched, samePosition.
  branches; cbn; repeat split; reflexivity.
Qed.

Lemma handleLocationMessage_frame fetch msg a :
  untouched a (handleLocationMessage fetch msg a)
  /\ sameStatus a (handleLocationMessage fetch msg a)
  /\ heartbeatCheckSince (handleLocationMessage fetch msg a) = heartbeatCheckSince a.
Proof.
  unfold handleLocationMessage, untouched, sameStatus.
  branches; cbn; repeat split; reflexivity.
Qed.

Lemma rerun_frame now a a' :
  untouched a' (rerunHeartbeatEffect now a a')
  /\ samePosition a' (rerunHeartbeatEffect now a a')
  /\ sameStatus a' (rerunHeartbeatEffect now a a').
Proof.
  unfold rerunHeartbeatEffect, untouched, samePosition, sameStatus.
  branches; cbn; repeat split; reflexivity.
Qed.

Lemma untouched_trans a b c : untouched a b -> untouched b c -> untouched a c.
Proof. unfold untouched. intuition congruence. Qed.

Lemma receive_untouched now fetch msg a : untouched a (receive now fetch msg a).
Proof.
  unfold receive, handleDataMessage.
  eapply untouched_trans; [ | apply rerun_frame].
  eapply untouched_trans; [apply handleLocationMessage_frame | ].
  apply handleOtherMessages_frame.
Qed.

(** X11: what arrives on the data channel never writes the session, the
    heartbeat error flag, the recording frame rate or the survey area: after
    any run of messages they are as before.  In particular a heartbeat that
    arrives does not clear the heartbeat error itself; the next firing of the
    check does. *)
Theorem inbound_leaves_untouched (msgs : list (Z * FetchOutcome * string)) (a : Admin) :
  rtc (receiveMany msgs a) = rtc a
  /\ heartbeatError (receiveMany msgs a) = heartbeatError a
  /\ videoRecordingFps (receiveMany msgs a) = videoRecordingFps a
  /\ surveillanceMode (receiveMany msgs a) = surveillanceMode a
  /\ surveillancePoints (receiveMany msgs a) = surveillancePoints a
  /\ isAreaFinalized (receiveMany msgs a) = isAreaFinalized a.
Proof.
  change (untouched a (receiveMany msgs a)).
  revert a. induction msgs as [ | [[now fetch] msg] rest IH]; intro a.
  - unfold untouched. cbn. repeat split.
  - unfold receiveMany. cbn [fold_left fst snd].
    eapply untouched_trans; [apply (receive_untouched now fetch msg a) | apply IH].
Qed.

(** X12: the two handlers keep to their own state.  A message that does not
    start with LOCATION: leaves the position, the elevation cache and the last
    valid height above ground as they were; a message that starts with
    LOCATION: leaves the heartbeat time and the recording, capture and thermal
    state as they were. *)
Theorem inbound_handlers_separate (now : Z) (fetch : FetchOutcome) (msg : string) (a : Admin) :
  (Js.startsWith msg "LOCATION:" = false ->
     droneLocation (receive now fetch msg a) = droneLocation a
     /\ elevationCache (receive now fetch msg a) = elevationCache a
     /\ lastValidAGL (receive now fetch msg a) = lastValidAGL a)
  /\ (Js.startsWith msg "LOCATION:" = true ->
        lastHeartbeatTime (receive now fetch msg a) = lastHeartbeatTime a
        /\ heartbeatCheckSince (receive now fetch msg a) = heartbeatCheckSince a
        /\ videoRecording (receive now fetch msg a) = videoRecording a
        /\ videoRecordingStatus (receive now fetch msg a) = videoRecordingStatus a
        /\ captureStatus (receive now fetch msg a) = captureStatus a
        /\ thermalSettings (receive now fetch msg a) = thermalSettings a).
Proof.
  split; intro H; unfold receive, handleDataMessage.
  - rewrite InboundFacts.other_not_location by exact H.
    destruct (rerun_frame now a (handleOtherMessages now msg a)) as (_ & (P1 & P2 & P3) & _).
    destruct (handleOtherMessages_frame now msg a) as (_ & (Q1 & Q2 & Q3) & _).
    repeat split; congruence.
  - rewrite InboundFacts.location_not_other by exact H.
    destruct (handleLocationMessage_frame fetch msg a)
      as ((R & _) & (Q1 & Q2 & Q3 & Q4 & Q5 & Q6) & Q7).
    unfold rerunHeartbeatEffect. rewrite Q1, R, Z.eqb_refl, Bool.eqb_reflx.
    cbn [andb]. repeat split; assumption.
Qed.

Lemma inbound_handlers_separate_witness :
  elevationCache (receive 10 FetchFails "heartbeat" InboundFacts.cachedScenario)
  = elevationCache InboundFacts.cachedScenario
  /\ lastHeartbeatTime
       (receive 10 FetchFails InboundFacts.scenarioFrame InboundFacts.cachedScenario)
     = 0%Z.
Proof.
  destruct (inbound_handlers_separate 10 FetchFails "heartbeat" InboundFacts.cachedScenario)
    as [H1 _].
  destruct (inbound_handlers_separate 10 FetchFails InboundFacts.scenarioFrame
              InboundFacts.cachedScenario) as [_ H2].
  split.
  - apply H1. reflexivity.
  - apply H2. reflexivity.
Defined.

(** ** The elevation cache and the height above ground, over a session *)

(** Every entry is filed under the key of its own coordinates. *)
Definition keyed (c : Elevation.Cache) : Prop :=
  Forall (fun e => fst e = Elevation.cacheKey (Elevation.lat (snd e)) (Elevation.lng (snd e))) c.

Lemma keyed_set (c : Elevation.Cache) key entry :
  keyed c -> key = Elevation.cacheKey (Elevation.lat entry) (Elevation.lng entry) ->
  keyed (Js.set c key entry).
Proof.
  unfold keyed. intros H E. induction c as [ | [k' v'] c IH]; cbn.
  - constructor; [exact E | constructor].
  - inversion H as [ | ? ? Hx Hc]; subst.
    destruct (String.eqb_spec k' (Elevation.cacheKey (Elevation.lat entry) (Elevation.lng entry)))
      as [Ek | Nk].
    + constructor; [exact Ek | exact Hc].
    + constructor; [exact Hx | apply IH; exact Hc].
Qed.

Lemma keyed_insert (c : Elevation.Cache) key entry :
  wf c -> keyed c ->
  key = Elevation.cacheKey (Elevation.lat entry) (Elevation.lng entry) ->
  keyed (Elevation.insert key entry c).
Proof.
  intros Hwf H E. rewrite CacheFacts.insert_spec by exact Hwf.
  pose proof (@keyed_set c key entry H E) as Hs. unfold keyed in *.
  rewrite Forall_forall in *. intros x Hx. apply Hs.
  eapply CacheFacts.in_skipn. exact Hx.
Qed.

Lemma keyed_get (c : Elevation.Cache) key entry :
  keyed c -> Js.get c key = Some entry ->
  key = Elevation.cacheKey (Elevation.lat entry) (Elevation.lng entry).
Proof.
  unfold keyed. intros H. induction c as [ | [k' v'] c IH]; cbn; [discriminate | ].
  inversion H as [ | ? ? Hx Hc]. cbn [fst snd] in Hx.
  destruct (String.eqb_spec k' key) as [Ek | Nk].
  - intro E. injection E as <-. rewrite <- Ek. exact Hx.
  - apply IH. exact Hc.
Qed.

(** The state of the cache and of the heights a session keeps. *)
Definition coherent (a : Admin) : Prop :=
  wf (elevationCache a)
  /\ (List.length (elevationCache a) <= 100)%nat
  /\ keyed (elevationCache a)
  /\ (forall d, droneLocation a = Some d ->
        heightAboveGround d = option_map (Js.sub (mslAlt d)) (groundElevation d))
  /\ (forall d, droneLocation a = Some d -> groundElevation d <> None ->
        lastValidAGL a <> None).

Lemma knownGround_carried (a : Admin) g :
  knownGround a = Some g ->
  exists d, droneLocation a = Some d /\ groundElevation d = Some g.
Proof.
  unfold knownGround. destruct (droneLocation a) as [d | ]; [ | discriminate].
  destruct (groundElevation d) as [g' | ] eqn:Eg; [ | discriminate].
  destruct (Js.truthy g'); [ | discriminate].
  intro E. inversion E; subst. exists d. split; [reflexivity | exact Eg].
Qed.

Lemma handleLocationMessage_coherent fetch msg a :
  coherent a -> coherent (handleLocationMessage fetch msg a).
Proof.
  intros (Hwf & Hlen & Hkey & Hh & Hagl). unfold handleLocationMessage.
  destruct (negb (Js.startsWith msg "LOCATION:")); [repeat split; assumption | ].
  destruct (negb (Nat.eqb _ 5)); [repeat split; assumption | ].
  destruct (_ || _ || _ || _); [repeat split; assumption | ].
  set (la := Js.parseFloat (part (Js.split ":" msg) 1)).
  set (lo := Js.parseFloat (part (Js.split ":" msg) 2)).
  destruct (needsLookup a la lo).
  - destruct (Js.get (elevationCache a) (Elevation.cacheKey la lo)) as [entry | ].
    + unfold coherent. cbn. repeat split; try assumption.
      * intros d E. inversion E; subst. reflexivity.
      * intros d _ _. discriminate.
    + destruct fetch as [ | | g].
      * destruct (knownGround a) as [g | ] eqn:Eg.
        -- destruct (@knownGround_carried a g Eg) as (d0 & Ed0 & Eg0).
           unfold coherent. cbn. repeat split; try assumption.
           ++ intros d E. inversion E; subst. reflexivity.
           ++ intros d _ _. apply (Hagl d0 Ed0). rewrite Eg0. discriminate.
        -- unfold coherent. cbn. repeat split; try assumption.
           ++ intros d E. inversion E; subst. reflexivity.
           ++ intros d E N. inversion E; subst. cbn in N. congruence.
      * unfold coherent. cbn. repeat split; try assumption.
        -- intros d E. inversion E; subst. reflexivity.
        -- intros d E N. inversion E; subst. cbn in N. congruence.
      * unfold coherent. cbn. repeat split.
        -- apply CacheFacts.insert_wf. exact Hwf.
        -- apply CacheFacts.insert_bound. exact Hwf.
        -- apply keyed_insert; [exact Hwf | exact Hkey | reflexivity].
        -- intros d E. inversion E; subst. reflexivity.
        -- intros d _ _. discriminate.
  - destruct (knownGround a) as [g | ] eqn:Eg.
    + unfold coherent. cbn. repeat split; try assumption.
      * intros d E. inversion E; subst. reflexivity.
      * intros d _ _. discriminate.
    + unfold coherent. cbn. repeat split; try assumption.
      * intros d E. inversion E; subst. reflexivity.
      * intros d E N. inversion E; subst. cbn in N. congruence.
Qed.

Lemma samePosition_coherent a a' : samePosition a a' -> coherent a -> coherent a'.
Proof.
  unfold samePosition, coherent. intros (E1 & E2 & E3). rewrite E1, E2, E3. tauto.
Qed.

Lemma receive_coherent now fetch msg a : coherent a -> coherent (receive now fetch msg a).
Proof.
  intro H. unfold receive, handleDataMessage.
  eapply samePosition_coherent; [apply rerun_frame | ].
  eapply samePosition_coherent; [apply handleOtherMessages_frame | ].
  apply handleLocationMessage_coherent. exact H.
Qed.

Lemma receiveMany_coherent msgs : forall a, coherent a -> coherent (receiveMany msgs a).
Proof.
  induction msgs as [ | [[now fetch] msg] rest IH]; intros a H; [exact H | ].
  unfold receiveMany. cbn [fold_left fst snd].
  apply IH. apply receive_coherent. exact H.
Qed.

Lemma initial_coherent now h : coherent (initialAdmin now h).
Proof.
  unfold coherent, keyed. cbn. repeat split.
  - constructor.
  - lia.
  - constructor.
  - intros d E; discriminate.
  - intros d E; discriminate.
Qed.

(** X13: over a whole session, whatever arrives and whatever the elevation
    service answers, the elevation cache of the console holds at most 100
    entries, no position twice, and each entry under the key of its own
    coordinates: an entry read under a key carries the coordinates the key
    was made from. *)
Theorem session_cache_keyed (msgs : list (Z * FetchOutcome * string)) (now : Z)
  (h : WebRTC.Hook) :
  (List.length (elevationCache (receiveMany msgs (initialAdmin now h))) <= 100)%nat
  /\ NoDup (Js.keys (elevationCache (receiveMany msgs (initialAdmin now h))))
  /\ (forall key entry,
        Js.get (elevationCache (receiveMany msgs (initialAdmin now h))) key = Some entry ->
        key = Elevation.cacheKey (Elevation.lat entry) (Elevation.lng entry)).
Proof.
  destruct (@receiveMany_coherent msgs _ (initial_coherent now h)) as (Hwf & Hlen & Hkey & _).
  split; [exact Hlen | split; [exact Hwf | ]].
  intros key entry. apply keyed_get. exact Hkey.
Qed.

(** X14: over a whole session, the position the console holds carries a
    height above ground exactly when it carries a ground elevation, the
    height being the MSL altitude minus that elevation; and whenever it
    carries one, a last valid height is kept, so the status bar has a height
    to show. *)
Theorem session_height_coherent (msgs : list (Z * FetchOutcome * string)) (now : Z)
  (h : WebRTC.Hook) (d : Location) :
  droneLocation (receiveMany msgs (initialAdmin now h)) = Some d ->
  heightAboveGround d = option_map (Js.sub (mslAlt d)) (groundElevation d)
  /\ (groundElevation d <> None ->
        lastValidAGL (receiveMany msgs (initialAdmin now h)) <> None
        /\ shownAGL (receiveMany msgs (initialAdmin now h)) = heightAboveGround d)
  /\ (shownAGL (receiveMany msgs (initialAdmin now h)) = None ->
        groundElevation d = None).
Proof.
  intro E.
  destruct (@receiveMany_coherent msgs _ (initial_coherent now h)) as (_ & _ & _ & Hh & Hagl).
  specialize (Hh d E). specialize (Hagl d E).
  split; [exact Hh | ].
  unfold shownAGL. rewrite E, Hh.
  destruct (groundElevation d) as [g | ]; cbn.
  - split; [ | discriminate]. intros _. split; [apply Hagl; discriminate | reflexivity].
  - split; [congruence | reflexivity].
Qed.

Lemma session_height_coherent_witness :
  exists d,
    droneLocation
      (receiveMany [(5%Z, FetchResult (Js.Fin 430), InboundFacts.scenarioFrame)]
         (initialAdmin 0 WebRTCFacts.mountedHook)) = Some d
    /\ heightAboveGround d = Some (Js.Fin 20)
    /\ shownAGL
         (receiveMany [(5%Z, FetchResult (Js.Fin 430), InboundFacts.scenarioFrame)]
            (initialAdmin 0 WebRTCFacts.mountedHook)) = Some (Js.Fin 20).
Proof.
  eexists. split; [vm_compute; reflexivity | ].
  destruct (@session_height_coherent
              [(5%Z, FetchResult (Js.Fin 430), InboundFacts.scenarioFrame)]
              0%Z WebRTCFacts.mountedHook _ eq_refl) as (H1 & H2 & _).
  split; [exact H1 | ].
  destruct H2 as [_ H2]; [discriminate | ]. exact H2.
Defined.

End ConsoleFacts.

Module OperatorFacts.
Import Admin Operator JoystickSend SendFacts.

(** ** Nothing leaves a console that is neither connected nor showing video *)

Lemma set_rtc_same (a : Admin) : set_rtc (rtc a) a = a.
Proof. destruct a; reflexivity. Qed.

Lemma send_idle command a :
  WebRTC.mayCommand (rtc a) = false -> send command a = Completed a.
Proof.
  intro H. unfold send. rewrite sendCommand_idle by exact H.
  rewrite set_rtc_same. reflexivity.
Qed.

Section Silent.
Variable toStr : Js.number -> string.
Variable a : Admin.
Hypothesis status : WebRTC.connectionStatus (rtc a) <> "connected"%string.
Hypothesis video : WebRTC.videoActive (rtc a) = false.

Lemma guard_closed :
  String.eqb (WebRTC.connectionStatus (rtc a)) "connected" || WebRTC.videoActive (rtc a)
  = false.
Proof.
  rewrite video, orb_false_r. apply String.eqb_neq. exact status.
Qed.

Lemma mayCommand_closed : WebRTC.mayCommand (rtc a) = false.
Proof.
  unfold WebRTC.mayCommand. rewrite guard_closed.
  destruct (WebRTC.peerRef (rtc a)); reflexivity.
Qed.

Lemma notConnected_closed : notConnected a = true.
Proof.
  unfold notConnected. destruct (WebRTC.peerRef (rtc a)); [ | reflexivity].
  apply negb_true_iff, String.eqb_neq. exact status.
Qed.
End Silent.

(** X15: while the status is not "connected" and no video is playing, no
    action of the operator hands anything to the peer.  A tilt is dropped;
    a capture and a recording are refused with the error "Not connected to
    drone"; an LED colour is kept by the panel but not sent; a survey mission
    and a map click are answered by an alert; the joystick effect sends and
    records nothing. *)
Theorem silent_when_disconnected (toStr : Js.number -> string) (a : Admin) :
  WebRTC.connectionStatus (rtc a) <> "connected"%string ->
  WebRTC.videoActive (rtc a) = false ->
  (forall direction, controlCameraTilt direction a = Completed a)
  /\ (exists a',
        handleCaptureImages a = Completed a' /\ rtc a' = rtc a
        /\ captureStatus a'
           = {| capturing := false; lastCapture := None;
                captureError := Some "Not connected to drone"%string |}
        /\ captureSafeguardTimeout a' = captureSafeguardTimeout a)
  /\ (exists a',
        handleVideoRecording toStr a = Completed a' /\ rtc a' = rtc a
        /\ videoRecording a' = videoRecording a
        /\ recording (videoRecordingStatus a') = recording (videoRecordingStatus a)
        /\ error (videoRecordingStatus a') = Some "Not connected to drone"%string)
  /\ (forall r g b,
        snd (Colour.setLedColorAndSend toStr r g b (rtc a)) = WebRTC.Returns (rtc a))
  /\ (forall st,
        MapPanel.startSurveillanceMission toStr st a
        = (WebRTC.Returns (rtc a), Some "Not connected to drone"%string))
  /\ (forall controlMode joystickConnected cur last,
        sendPWMValues toStr controlMode joystickConnected cur (last, rtc a)
        = Completed (last, rtc a))
  /\ (forall latlng,
        handleMapClick latlng a = Refused "Please connect to the drone first").
Proof.
  intros Hs Hv.
  pose proof (@guard_closed a Hs Hv) as Hg.
  pose proof (@mayCommand_closed a Hs Hv) as Hm.
  pose proof (@notConnected_closed a Hs) as Hn.
  split; [ | split; [ | split; [ | split; [ | split; [ | split]]]]].
  - intro direction. apply send_idle. exact Hm.
  - unfold handleCaptureImages. rewrite Hn. eexists. split; [reflexivity | ].
    cbn. repeat split.
  - unfold handleVideoRecording. rewrite Hn. eexists. split; [reflexivity | ].
    cbn. repeat split.
  - intros r g b. unfold Colour.setLedColorAndSend. cbn [snd].
    apply sendCommand_idle. exact Hm.
  - intro st. unfold MapPanel.startSurveillanceMission. rewrite Hg.
    destruct (WebRTC.peerRef (rtc a)); reflexivity.
  - intros controlMode joystickConnected cur last.
    unfold sendPWMValues. cbn [snd]. rewrite Hg. reflexivity.
  - intro latlng. unfold handleMapClick. rewrite Hg. reflexivity.
Qed.

(** The console as it is mounted, before any offer. *)
Lemma silent_when_disconnected_witness :
  controlCameraTilt "up" (initialAdmin 0 WebRTCFacts.mountedHook)
  = Completed (initialAdmin 0 WebRTCFacts.mountedHook)
  /\ handleMapClick {| pointLat := Js.Fin 1; pointLng := Js.Fin 1 |}
       (initialAdmin 0 WebRTCFacts.mountedHook)
     = Refused "Please connect to the drone first".
Proof.
  destruct (@silent_when_disconnected Js.toFixed6 (initialAdmin 0 WebRTCFacts.mountedHook))
    as (H1 & _ & _ & _ & _ & _ & H7).
  - discriminate.
  - reflexivity.
  - split; [apply H1 | apply H7].
Defined.

(** ** A console that can act *)

(** The console holds a live peer with an open data channel, and the status
    is "connected". *)
Definition live (a : Admin) : Prop :=
  exists i p,
    WebRTC.peerRef (rtc a) = Some i /\ nth_error (WebRTC.peers (rtc a)) i = Some p
    /\ WebRTC.destroyed p = false /\ WebRTC.channelOpen p = true
    /\ WebRTC.connectionStatus (rtc a) = "connected"%string.

Lemma live_ready a : live a -> ready (rtc a).
Proof.
  intros (i & p & H1 & H2 & H3 & H4 & H5). exists i, p. repeat split; auto.
Qed.

Lemma live_connected a : live a -> notConnected a = false.
Proof.
  intros (i & p & H1 & _ & _ & _ & H5). unfold notConnected.
  rewrite H1, H5. reflexivity.
Qed.

(** What a command that goes out does to the console. *)
Lemma send_live command a :
  live a ->
  exists a',
    send command a = Completed a'
    /\ a' = set_rtc (push command (rtc a)) a
    /\ live a'
    /\ outbox (rtc a') = outbox (rtc a) ++ [command].
Proof.
  intro Hl. pose proof (@live_ready a Hl) as Hr.
  destruct (@sendCommand_ready command (rtc a) Hr) as (E & Hr' & Ho & Hst & _).
  exists (set_rtc (push command (rtc a)) a).
  unfold send. rewrite E. split; [reflexivity | split; [reflexivity | split]].
  - destruct Hl as (i & p & H1 & H2 & H3 & H4 & H5).
    destruct Hr' as (i' & p' & G1 & G2 & G3 & G4 & _).
    exists i', p'. cbn. repeat split; try assumption. rewrite Hst. exact H5.
  - cbn. exact Ho.
Qed.

(** ** Capture *)

Lemma capture_reply_tests (body : string) :
  Js.startsWith ("CAPTURE_SUCCESS:" ++ body) "LOCATION:" = false
  /\ Js.startsWith ("CAPTURE_ERROR:" ++ body) "LOCATION:" = false
  /\ Js.startsWith ("CAPTURE_ERROR:" ++ body) "CAPTURE_SUCCESS:" = false.
Proof. repeat split; reflexivity. Qed.

Lemma split_head (sep : ascii) (s : string) : forall cur,
  exists x xs, Js.splitAux sep cur s = x :: xs.
Proof.
  induction s as [ | c s IH]; intro cur; cbn.
  - eauto.
  - destruct (Ascii.eqb c sep); [eauto | apply IH].
Qed.

(** [msg.split(":")[1]] is the text after the first colon, up to the next. *)
Lemma second_part (tag ts : string) :
  JsFacts.occurs ":" tag = false -> JsFacts.occurs ":" ts = false ->
  (forall rest,
     part (Js.split ":" (tag ++ String ":" (ts ++ String ":" rest))) 1 = ts)
  /\ part (Js.split ":" (tag ++ String ":" ts)) 1 = ts.
Proof.
  intros Ht Hs. split; [intro rest | ].
  - rewrite MissionFacts.split_cons by exact Ht.
    rewrite MissionFacts.split_cons by exact Hs. reflexivity.
  - rewrite MissionFacts.split_cons by exact Ht.
    rewrite MissionFacts.split_one by exact Hs. reflexivity.
Qed.

(** X16: a capture and its outcome.  On a connected console a click hands
    the peer CAPTURE_IMAGES, marks the capture as running and arms the
    safeguard.  If the timeout fires first the capture ends with the timeout
    error.  A CAPTURE_ERROR reply ends it with the whole text after the
    prefix as the error; a CAPTURE_SUCCESS reply ends it with the text
    between the first colon and the next as the time of the capture, so a
    timestamp that contains a colon is cut there.  Either reply disarms the
    safeguard, a timeout that still fires after it changes nothing, and a
    reply that comes after the timeout replaces the timeout error. *)
Theorem capture_round_trip (a : Admin) :
  live a ->
  exists a1,
    handleCaptureImages a = Completed a1
    /\ outbox (rtc a1) = outbox (rtc a) ++ ["CAPTURE_IMAGES"%string]
    /\ captureStatus a1 = {| capturing := true; lastCapture := None; captureError := None |}
    /\ captureSafeguardTimeout a1 = true
    /\ captureStatus (captureTimeoutFires a1)
       = {| capturing := false; lastCapture := None;
            captureError := Some "Capture timeout - no response from drone"%string |}
    /\ (forall now fetch e (late : bool),
          let a2 := receive now fetch ("CAPTURE_ERROR:" ++ e)
                      (if late then captureTimeoutFires a1 else a1) in
          captureStatus a2
          = {| capturing := false; lastCapture := None; captureError := Some e |}
          /\ captureSafeguardTimeout a2 = false
          /\ captureTimeoutFires a2 = a2)
    /\ (forall now fetch ts rest (late : bool),
          JsFacts.occurs ":" ts = false ->
          let a2 := receive now fetch ("CAPTURE_SUCCESS:" ++ ts ++ rest)
                      (if late then captureTimeoutFires a1 else a1) in
          (rest = ""%string \/ exists more, rest = String ":" more) ->
          captureStatus a2
          = {| capturing := false; lastCapture := Some ts; captureError := None |}
          /\ captureSafeguardTimeout a2 = false
          /\ captureTimeoutFires a2 = a2).
Proof.
  intro Hl. unfold handleCaptureImages. rewrite (@live_connected a Hl).
  set (a0 := set_captureSafeguardTimeout true _).
  assert (Hl0 : live a0) by exact Hl.
  destruct (@send_live CAPTURE_COMMAND a0 Hl0) as (a1 & E & Ea1 & Hl1 & Ho).
  exists a1. split; [exact E | ].
  split; [exact Ho | ].
  assert (Hc : captureStatus a1
               = {| capturing := true; lastCapture := None; captureError := None |})
    by (rewrite Ea1; reflexivity).
  assert (Ht : captureSafeguardTimeout a1 = true) by (rewrite Ea1; reflexivity).
  split; [exact Hc | split; [exact Ht | split; [ | split]]].
  - unfold captureTimeoutFires. rewrite Hc. reflexivity.
  - intros now fetch e late.
    unfold receive, handleDataMessage.
    rewrite InboundFacts.other_not_location by reflexivity.
    unfold handleOtherMessages.
    assert (Hp : Js.startsWith ("CAPTURE_ERROR:" ++ e) "CAPTURE_ERROR:" = true)
      by apply MissionFacts.startsWith_app.
    InboundFacts.skip_tests Hp. rewrite Hp.
    rewrite MissionFacts.substringFrom_app.
    unfold rerunHeartbeatEffect. cbn [lastHeartbeatTime rtc set_captureStatus
      set_captureSafeguardTimeout].
    rewrite Z.eqb_refl, Bool.eqb_reflx. cbn [andb].
    repeat split.
  - intros now fetch ts rest late Hts Hrest.
    unfold receive, handleDataMessage.
    rewrite InboundFacts.other_not_location by reflexivity.
    unfold handleOtherMessages.
    assert (Hp : Js.startsWith ("CAPTURE_SUCCESS:" ++ ts ++ rest) "CAPTURE_SUCCESS:" = true)
      by apply MissionFacts.startsWith_app.
    InboundFacts.skip_tests Hp. rewrite Hp.
    assert (Hpart : part (Js.split ":" ("CAPTURE_SUCCESS:" ++ ts ++ rest)) 1 = ts).
    { destruct (@second_part "CAPTURE_SUCCESS" ts eq_refl Hts) as [H1 H2].
      destruct Hrest as [-> | [more ->]].
      - rewrite MissionFacts.string_app_nil. exact H2.
      - exact (H1 more). }
    rewrite Hpart.
    unfold rerunHeartbeatEffect. cbn [lastHeartbeatTime rtc set_captureStatus
      set_captureSafeguardTimeout].
    rewrite Z.eqb_refl, Bool.eqb_reflx. cbn [andb].
    repeat split.
Qed.

Lemma connected_live (now : Z) : live (initialAdmin now WebRTCFacts.connectedHook).
Proof.
  exists 0%nat,
    (WebRTC.setp_channelOpen true (WebRTCFacts.answering WebRTCFacts.sampleOffer)).
  repeat split.
Qed.

(** A capture answered with a timestamp that has colons in it. *)
Lemma capture_round_trip_witness :
  exists a1,
    handleCaptureImages (initialAdmin 0 WebRTCFacts.connectedHook) = Completed a1
    /\ outbox (rtc a1) = ["CAPTURE_IMAGES"%string]
    /\ captureStatus
         (receive 1 FetchFails "CAPTURE_SUCCESS:2025-01-01T12:30:45" a1)
       = {| capturing := false; lastCapture := Some "2025-01-01T12"%string;
            captureError := None |}.
Proof.
  destruct (@capture_round_trip (initialAdmin 0 WebRTCFacts.connectedHook)
              (connected_live 0))
    as (a1 & E & Ho & _ & _ & _ & _ & Hok).
  exists a1. split; [exact E | split; [exact Ho | ]].
  destruct (Hok 1%Z FetchFails "2025-01-01T12"%string ":30:45"%string false eq_refl)
    as (H & _).
  - right. exists "30:45"%string. reflexivity.
  - exact H.
Defined.

(** ** Recording *)

Section Clicks.
Variable toStr : Js.number -> string.

(** [n] clicks on the recording button, nothing arriving in between. *)
Fixpoint clicks (n : nat) (a : Admin) : Run Admin :=
  match n with
  | O => Completed a
  | S n' =>
      match handleVideoRecording toStr a with
      | Completed a' => clicks n' a'
      | Raised a' => Raised a'
      end
  end.

(** The command a click sends. *)
Definition recordingCommand (a : Admin) : string :=
  if videoRecording a then VIDEO_STOP_COMMAND
  else (VIDEO_START_COMMAND ++ ":" ++ toStr (videoRecordingFps a))%string.

Lemma click_live a :
  live a ->
  exists a',
    handleVideoRecording toStr a = Completed a'
    /\ live a'
    /\ outbox (rtc a') = outbox (rtc a) ++ [recordingCommand a]
    /\ videoRecording a' = videoRecording a
    /\ videoRecordingFps a' = videoRecordingFps a
    /\ (videoRecording a = false ->
          recording (videoRecordingStatus a') = true
          /\ error (videoRecordingStatus a') = None).
Proof.
  intro Hl. unfold handleVideoRecording, recordingCommand.
  rewrite (@live_connected a Hl).
  destruct (videoRecording a) eqn:Ev.
  - destruct (@send_live VIDEO_STOP_COMMAND a Hl) as (a' & E & Ea & Hl' & Ho).
    exists a'. rewrite E. split; [reflexivity | split; [exact Hl' | split; [exact Ho | ]]].
    rewrite Ea. cbn. repeat split; [exact Ev | discriminate | discriminate].
  - destruct (@send_live (VIDEO_START_COMMAND ++ ":" ++ toStr (videoRecordingFps a)) a Hl)
      as (a' & E & Ea & Hl' & Ho).
    rewrite E. eexists. split; [reflexivity | ].
    split; [exact Hl' | split; [exact Ho | ]].
    rewrite Ea. cbn. repeat split. exact Ev.
Qed.

Lemma clicks_live n : forall a,
  live a ->
  exists a',
    clicks n a = Completed a'
    /\ live a'
    /\ outbox (rtc a') = outbox (rtc a) ++ repeat (recordingCommand a) n
    /\ videoRecording a' = videoRecording a
    /\ videoRecordingFps a' = videoRecordingFps a.
Proof.
  induction n as [ | n IH]; intros a Hl.
  - exists a. cbn. rewrite app_nil_r. auto.
  - destruct (click_live Hl) as (a1 & E & Hl1 & Ho1 & Hv1 & Hf1 & _).
    destruct (IH a1 Hl1) as (a' & E' & Hl' & Ho' & Hv' & Hf').
    exists a'. cbn [clicks]. rewrite E.
    split; [exact E' | split; [exact Hl' | split; [ | split; congruence]]].
    rewrite Ho', Ho1, <- app_assoc. cbn [repeat app].
    unfold recordingCommand. rewrite Hv1, Hf1. reflexivity.
Qed.
End Clicks.

Lemma video_started_taken now fetch (body : string) a :
  videoRecording (receive now fetch ("VIDEO_STARTED:" ++ body) a) = true
  /\ rtc (receive now fetch ("VIDEO_STARTED:" ++ body) a) = rtc a
  /\ videoRecordingFps (receive now fetch ("VIDEO_STARTED:" ++ body) a)
     = videoRecordingFps a.
Proof.
  unfold receive, handleDataMessage.
  rewrite InboundFacts.other_not_location by reflexivity.
  unfold handleOtherMessages.
  assert (Hp : Js.startsWith ("VIDEO_STARTED:" ++ body) "VIDEO_STARTED:" = true)
    by apply MissionFacts.startsWith_app.
  InboundFacts.skip_tests Hp. rewrite Hp.
  assert (Hlen : Nat.leb 2 (List.length (Js.split ":" ("VIDEO_STARTED:" ++ body))) = true).
  { change ("VIDEO_STARTED:" ++ body)%string
      with ("VIDEO_STARTED" ++ String ":" body)%string.
    rewrite MissionFacts.split_cons by reflexivity.
    destruct (split_head ":" body []) as (x & xs & E). unfold Js.split. rewrite E.
    reflexivity. }
  rewrite Hlen. unfold rerunHeartbeatEffect.
  cbn [lastHeartbeatTime rtc set_videoRecording set_videoRecordingStatus].
  rewrite Z.eqb_refl, Bool.eqb_reflx. cbn [andb]. repeat split.
Qed.

(** X17: the recording button follows what the drone has acknowledged, not
    what was clicked.  On a connected console, clicks with nothing arriving
    in between all send the same command: VIDEO_START with the frame rate
    while no recording is acknowledged (every click sends it again),
    VIDEO_STOP while one is; the acknowledged state is as before.  It is the
    VIDEO_STARTED message that turns the button: the click after it sends
    VIDEO_STOP. *)
Theorem recording_follows_acknowledgement (toStr : Js.number -> string)
  (n : nat) (a : Admin) :
  live a ->
  exists a',
    clicks toStr n a = Completed a'
    /\ outbox (rtc a')
       = outbox (rtc a)
         ++ repeat (if videoRecording a then "VIDEO_STOP"%string
                    else ("VIDEO_START:" ++ toStr (videoRecordingFps a))%string) n
    /\ videoRecording a' = videoRecording a
    /\ (forall now fetch body,
          exists a'',
            handleVideoRecording toStr (receive now fetch ("VIDEO_STARTED:" ++ body) a')
            = Completed a''
            /\ outbox (rtc a'') = outbox (rtc a') ++ ["VIDEO_STOP"%string]).
Proof.
  intro Hl.
  destruct (@clicks_live toStr n a Hl) as (a' & E & Hl' & Ho & Hv & Hf).
  exists a'. split; [exact E | split; [exact Ho | split; [exact Hv | ]]].
  intros now fetch body.
  destruct (@video_started_taken now fetch body a') as (Ht & Hr & _).
  assert (Hl2 : live (receive now fetch ("VIDEO_STARTED:" ++ body) a')).
  { unfold live. rewrite Hr. exact Hl'. }
  destruct (@click_live toStr _ Hl2) as (a2 & E2 & _ & Ho2 & _).
  exists a2. split; [exact E2 | ].
  rewrite Ho2, Hr. unfold recordingCommand. rewrite Ht. reflexivity.
Qed.

(** Two clicks before the drone answers. *)
Lemma recording_follows_acknowledgement_witness :
  exists a',
    clicks Js.toFixed6 2 (initialAdmin 0 WebRTCFacts.connectedHook) = Completed a'
    /\ outbox (rtc a')
       = ["VIDEO_START:1.000000"%string; "VIDEO_START:1.000000"%string]
    /\ videoRecording a' = false.
Proof.
  destruct (@recording_follows_acknowledgement Js.toFixed6 2
              (initialAdmin 0 WebRTCFacts.connectedHook) (connected_live 0))
    as (a' & E & Ho & Hv & _).
  exists a'. split; [exact E | split; [exact Ho | exact Hv]].
Defined.

(** ** The survey area *)

(** What holds of the survey area at every moment. *)
Definition areaInvariant (a : Admin) : Prop :=
  (surveillanceMode a = false -> surveillancePoints a = [] /\ isAreaFinalized a = false)
  /\ (isAreaFinalized a = true -> (3 <= List.length (surveillancePoints a))%nat).

Lemma areaStep_invariant a op : areaInvariant a -> areaInvariant (areaStep a op).
Proof.
  unfold areaInvariant.
  destruct a as [h ? ? ? ? ? ? ? ? ? ? ? ? mode pts fin]. cbn.
  intros [Hoff Hfin]. destruct op as [latlng | | | | ]; cbn [areaStep].
  - unfold handleMapClick, addSurveillancePoint. cbn.
    destruct (_ || _); cbn; [ | auto].
    destruct mode; cbn; [ | auto].
    destruct fin; cbn; [auto | ].
    split; discriminate.
  - unfold finalizeArea. cbn [surveillancePoints].
    destruct (Nat.ltb (List.length pts) 3) eqn:Hge; cbn; [auto | ].
    apply Nat.ltb_ge in Hge.
    split; [ | auto].
    intro Em. destruct (Hoff Em) as [Ep _]. rewrite Ep in Hge. cbn in Hge. lia.
  - unfold resetArea. cbn. split; [auto | discriminate].
  - unfold toggleSurveillanceMode. cbn.
    destruct mode; cbn.
    + split; [auto | discriminate].
    + split; [discriminate | exact Hfin].
  - unfold hideMap. cbn. split; [auto | discriminate].
Qed.

(** X18: the survey area over any sequence of map clicks, finalize, reset,
    mode toggles and closings of the map, from the console as it starts:
    outside surveillance mode there is no vertex and no finalized area; a
    finalized area has at least three vertices, so the mission that can then
    be started carries at least three; and a click on the map leaves a
    finalized area as it is. *)
Theorem survey_area_lifecycle (ops : list AreaOp) (now : Z) (h : WebRTC.Hook) :
  (surveillanceMode (areaRun ops (initialAdmin now h)) = false ->
     surveillancePoints (areaRun ops (initialAdmin now h)) = []
     /\ isAreaFinalized (areaRun ops (initialAdmin now h)) = false)
  /\ (isAreaFinalized (areaRun ops (initialAdmin now h)) = true ->
        surveillanceMode (areaRun ops (initialAdmin now h)) = true
        /\ (3 <= List.length (surveillancePoints (areaRun ops (initialAdmin now h))))%nat
        /\ forall latlng,
             areaStep (areaRun ops (initialAdmin now h)) (Click latlng)
             = areaRun ops (initialAdmin now h)).
Proof.
  assert (H : forall a, areaInvariant a -> areaInvariant (areaRun ops a)).
  { induction ops as [ | op rest IH]; intros a Ha; [exact Ha | ].
    unfold areaRun. cbn [fold_left]. apply IH. apply areaStep_invariant. exact Ha. }
  assert (H0 : areaInvariant (initialAdmin now h)).
  { unfold areaInvariant. cbn. split; [auto | discriminate]. }
  specialize (H _ H0). set (a := areaRun ops (initialAdmin now h)) in *.
  destruct H as [Hoff Hfin]. split; [exact Hoff | ].
  intro Ef. split; [ | split; [apply Hfin; exact Ef | ]].
  - destruct (surveillanceMode a) eqn:Em; [reflexivity | ].
    destruct (Hoff eq_refl) as [_ Hn]. congruence.
  - intro latlng. cbn [areaStep]. unfold handleMapClick, addSurveillancePoint.
    rewrite Ef. rewrite andb_false_r.
    destruct (_ || _); reflexivity.
Qed.

(** Three vertices drawn and the area finalized; a fourth click is not taken. *)
Lemma survey_area_lifecycle_witness :
  List.length
    (surveillancePoints
       (areaRun [ToggleMode; Click {| pointLat := Js.Fin 1; pointLng := Js.Fin 1 |};
                 Click {| pointLat := Js.Fin 1; pointLng := Js.Fin 2 |};
                 Click {| pointLat := Js.Fin 2; pointLng := Js.Fin 2 |}; Finalize]
          (initialAdmin 0 WebRTCFacts.connectedHook))) = 3%nat
  /\ areaStep
       (areaRun [ToggleMode; Click {| pointLat := Js.Fin 1; pointLng := Js.Fin 1 |};
                 Click {| pointLat := Js.Fin 1; pointLng := Js.Fin 2 |};
                 Click {| pointLat := Js.Fin 2; pointLng := Js.Fin 2 |}; Finalize]
          (initialAdmin 0 WebRTCFacts.connectedHook))
       (Click {| pointLat := Js.Fin 3; pointLng := Js.Fin 3 |})
     = areaRun [ToggleMode; Click {| pointLat := Js.Fin 1; pointLng := Js.Fin 1 |};
                Click {| pointLat := Js.Fin 1; pointLng := Js.Fin 2 |};
                Click {| pointLat := Js.Fin 2; pointLng := Js.Fin 2 |}; Finalize]
         (initialAdmin 0 WebRTCFacts.connectedHook).
Proof.
  destruct (@survey_area_lifecycle
              [ToggleMode; Click {| pointLat := Js.Fin 1; pointLng := Js.Fin 1 |};
               Click {| pointLat := Js.Fin 1; pointLng := Js.Fin 2 |};
               Click {| pointLat := Js.Fin 2; pointLng := Js.Fin 2 |}; Finalize]
              0%Z WebRTCFacts.connectedHook) as [_ H].
  destruct (H eq_refl) as (_ & _ & Hclick).
  split; [reflexivity | apply Hclick].
Defined.

End OperatorFacts.

Module SessionFacts.
Import WebRTC WebRTCFacts.

(** What happens to the hook over a session. *)
Inductive HookEvent : Type :=
| Offer (offerData : option Signal)
| Connected
| Closed
| Errored
| TrackArrives (track : Track)
| Playing
| Command (command : string)
| Cleanup.

Definition hookStep (h : Hook) (e : HookEvent) : Hook :=
  match e with
  | Offer offerData => handleOffer offerData h
  | Connected => onConnect h
  | Closed => onClose h
  | Errored => onError h
  | TrackArrives track => handleTrack track h
  | Playing => Playback.videoPlaying h
  | Command command =>
      match sendCommand command h with
      | Returns h' => h'
      | Throws => h
      end
  | Cleanup => cleanupPeer h
  end.

Definition session (events : list HookEvent) (h : Hook) : Hook :=
  fold_left hookStep events h.

(** A peer the console works with, and a peer it has let go of. *)
Definition held (p : Peer) : Prop := destroyed p = false /\ consoleListeners p.

Definition released (p : Peer) : Prop :=
  destroyed p = true /\ channelOpen p = false /\ listeners p = [].

(** Every peer the hook ever made is either the one it points to, and held,
    or released; and the hook points to a peer it made. *)
Definition tidy (h : Hook) : Prop :=
  (forall i p, nth_error (peers h) i = Some p ->
     (peerRef h = Some i /\ held p) \/ (peerRef h <> Some i /\ released p))
  /\ (forall i, peerRef h = Some i -> (i < List.length (peers h))%nat).

Lemma tidy_same h h' :
  peers h' = peers h -> peerRef h' = peerRef h -> tidy h -> tidy h'.
Proof. unfold tidy. intros -> ->. tauto. Qed.

Lemma tidy_update i f h :
  peerRef h = Some i -> (forall p, held p -> held (f p)) ->
  tidy h -> tidy (withPeer i f h).
Proof.
  intros Hi Hf [Hall Hin]. unfold withPeer. split; cbn.
  - intros j p Hj. destruct (Nat.eq_dec i j) as [<- | Hne].
    + rewrite updateAt_same in Hj.
      destruct (nth_error (peers h) i) as [p0 | ] eqn:E0; [ | discriminate].
      cbn in Hj. injection Hj as <-.
      destruct (Hall i p0 E0) as [[_ Hh] | [Hn _]]; [ | contradiction].
      left. split; [exact Hi | apply Hf; exact Hh].
    + rewrite updateAt_other in Hj by exact Hne. apply Hall. exact Hj.
  - intros j Hj. rewrite updateAt_length. apply Hin. exact Hj.
Qed.

Lemma cleanupPeer_tidy h :
  tidy h ->
  tidy (cleanupPeer h)
  /\ peerRef (cleanupPeer h) = None
  /\ List.length (peers (cleanupPeer h)) = List.length (peers h).
Proof.
  intro Ht. destruct (peerRef h) as [i | ] eqn:Hi.
  - destruct Ht as [Hall Hin]. rewrite Hi in Hall.
    destruct (@cleanupPeer_spec h i Hi) as (Ep & Er & _).
    split; [ | split; [exact Er | rewrite Ep; apply updateAt_length]].
    split; rewrite Ep, Er; [ | discriminate].
    intros j p Hj. right. split; [discriminate | ].
    destruct (Nat.eq_dec i j) as [<- | Hne].
    + rewrite updateAt_same in Hj.
      destruct (nth_error (peers h) i) as [p0 | ] eqn:E0; [ | discriminate].
      cbn in Hj. injection Hj as <-.
      destruct (Hall i p0 E0) as [[_ [_ Hc]] | [Hn _]]; [ | contradiction].
      split; [reflexivity | split; [reflexivity | apply torn_silent; exact Hc]].
    + rewrite updateAt_other in Hj by exact Hne.
      destruct (Hall j p Hj) as [[E _] | [_ Hr]]; [ | exact Hr].
      exfalso. apply Hne. congruence.
  - rewrite cleanupPeer_idle by exact Hi.
    split; [exact Ht | split; [exact Hi | reflexivity]].
Qed.

Lemma answering_held offer : held (answering offer).
Proof.
  split; [reflexivity | ].
  intros e l H. cbn in H.
  repeat (destruct H as [H | H]; [injection H as <- _; cbn; tauto | ]).
  destruct H.
Qed.

Lemma handleOffer_tidy offerData h : tidy h -> tidy (handleOffer offerData h).
Proof.
  intro Ht.
  destruct offerData as [offer | ]; [ | exact Ht].
  destruct (wellFormedOffer (Some offer)) eqn:Hwf.
  - destruct (@handleOffer_spec offer h Hwf) as (Ep & Er & _).
    destruct (@cleanupPeer_tidy h Ht) as ([Hall _] & Hnone & _).
    split; rewrite Ep, Er.
    + intros j p Hj.
      destruct (Nat.lt_ge_cases j (List.length (peers (cleanupPeer h)))) as [Hlt | Hge].
      * rewrite nth_error_app1 in Hj by exact Hlt.
        destruct (Hall j p Hj) as [[E _] | [_ Hr]]; [congruence | ].
        right. split; [ | exact Hr]. intro E. injection E as E. lia.
      * rewrite nth_error_app2 in Hj by exact Hge.
        destruct (j - List.length (peers (cleanupPeer h)))%nat as [ | k] eqn:Ek.
        -- cbn in Hj. injection Hj as <-. left.
           split; [f_equal; lia | apply answering_held].
        -- destruct k; discriminate.
    + intros j Hj. injection Hj as <-. rewrite length_app. cbn. lia.
  - unfold handleOffer. rewrite Hwf. exact Ht.
Qed.

Lemma handleTrack_peers track h :
  peers (handleTrack track h) = peers h /\ peerRef (handleTrack track h) = peerRef h.
Proof.
  unfold handleTrack, stopBound, stopSource.
  repeat match goal with
         | |- context [if ?c then _ else _] => destruct c
         | |- context [match ?c with Some _ => _ | None => _ end] => destruct c
         end; cbn; split; reflexivity.
Qed.

Lemma hookStep_tidy h e : tidy h -> tidy (hookStep h e).
Proof.
  intro Ht. destruct e as [offerData | | | | track | | command | ]; cbn [hookStep].
  - apply handleOffer_tidy. exact Ht.
  - unfold onConnect. destruct (peerRef h) as [i | ] eqn:Hi; [ | exact Ht].
    eapply tidy_same; [reflexivity | reflexivity | ].
    apply tidy_update; [exact Hi | | exact Ht].
    intros p [Hd Hc]. split; [exact Hd | exact Hc].
  - unfold onClose. apply cleanupPeer_tidy.
    eapply tidy_same; [ | | exact Ht]; reflexivity.
  - unfold onError. eapply tidy_same; [ | | exact Ht]; reflexivity.
  - destruct (handleTrack_peers track h) as [Ep Er].
    eapply tidy_same; [exact Ep | exact Er | exact Ht].
  - eapply tidy_same; [ | | exact Ht]; reflexivity.
  - destruct (sendCommand_cases command h)
      as [[_ E] | [[_ E] | (i & p & _ & Hi & Hp & Hd & _ & E)]]; rewrite E;
      try exact Ht.
    apply tidy_update; [exact Hi | | exact Ht].
    intros q _. destruct Ht as [Hall _].
    destruct (Hall i p Hp) as [[_ Hh] | [Hn _]]; [ | contradiction].
    destruct Hh as [_ Hc]. split; [exact Hd | exact Hc].
  - apply cleanupPeer_tidy. exact Ht.
Qed.

Lemma initial_tidy regularEl thermalEl : tidy (initialHook regularEl thermalEl).
Proof.
  split; cbn.
  - intros [ | i] p H; discriminate.
  - intros i H; discriminate.
Qed.

(** X19: over a whole session (offers, connects, closes, errors, tracks,
    commands, clean-ups in any order) the hook holds at most one peer that
    is not destroyed, and it is the one it points to; every other peer it
    ever made is destroyed, its data channel closed and no listener left on
    it; and a peer the hook points to exists and is not destroyed. *)
Theorem one_live_peer (events : list HookEvent) (regularEl thermalEl : option VideoElement) :
  (forall i p,
     nth_error (peers (session events (initialHook regularEl thermalEl))) i = Some p ->
     destroyed p = false ->
     peerRef (session events (initialHook regularEl thermalEl)) = Some i)
  /\ (forall i p,
        nth_error (peers (session events (initialHook regularEl thermalEl))) i = Some p ->
        peerRef (session events (initialHook regularEl thermalEl)) <> Some i ->
        destroyed p = true /\ channelOpen p = false /\ listeners p = [])
  /\ (forall i,
        peerRef (session events (initialHook regularEl thermalEl)) = Some i ->
        exists p,
          nth_error (peers (session events (initialHook regularEl thermalEl))) i = Some p
          /\ destroyed p = false).
Proof.
  assert (H : forall h, tidy h -> tidy (session events h)).
  { induction events as [ | e rest IH]; intros h Ht; [exact Ht | ].
    unfold session. cbn [fold_left]. apply IH. apply hookStep_tidy. exact Ht. }
  specialize (H _ (initial_tidy regularEl thermalEl)).
  set (h := session events (initialHook regularEl thermalEl)) in *.
  destruct H as [Hall Hin].
  split; [ | split].
  - intros i p Hp Hd. destruct (Hall i p Hp) as [[E _] | [_ [Hx _]]]; [exact E | congruence].
  - intros i p Hp Hn. destruct (Hall i p Hp) as [[E _] | [_ Hr]]; [contradiction | exact Hr].
  - intros i Hi. specialize (Hin i Hi).
    destruct (nth_error (peers h) i) as [p | ] eqn:Ep.
    + exists p. split; [reflexivity | ].
      destruct (Hall i p Ep) as [[_ [Hd _]] | [Hn _]]; [exact Hd | contradiction].
    + apply nth_error_None in Ep. lia.
Qed.

(** Two offers in a row: the first peer is released, the second is held. *)
Lemma one_live_peer_witness :
  peerRef (session [Offer (Some sampleOffer); Connected; Offer (Some sampleOffer)]
             (initialHook None None)) = Some 1%nat
  /\ option_map destroyed
       (nth_error
          (peers (session [Offer (Some sampleOffer); Connected; Offer (Some sampleOffer)]
                    (initialHook None None))) 0) = Some true.
Proof.
  destruct (@one_live_peer [Offer (Some sampleOffer); Connected; Offer (Some sampleOffer)]
              None None) as (H1 & H2 & _).
  split.
  - apply (H1 1%nat (answering sampleOffer)); reflexivity.
  - destruct (H2 0%nat (torn (setp_channelOpen true (answering sampleOffer))))
      as (Hd & _); [reflexivity | discriminate | ].
    reflexivity.
Defined.

End SessionFacts.

Module RenegotiationFacts.
Import WebRTC WebRTCFacts.

(** The media side of the hook: the elements, the bindings and the tracks
    stopped so far. *)
Definition sameMedia (h h' : Hook) : Prop :=
  regularVideoRef h' = regularVideoRef h
  /\ thermalVideoRef h' = thermalVideoRef h
  /\ videoTracksRef h' = videoTracksRef h
  /\ stopped h' = stopped h
  /\ videoActive h' = videoActive h.

Lemma cleanupPeer_media h : sameMedia h (cleanupPeer h).
Proof.
  unfold sameMedia, cleanupPeer. destruct (peerRef h); cbn; repeat split; reflexivity.
Qed.

Lemma handleOffer_media offerData h : sameMedia h (handleOffer offerData h).
Proof.
  unfold handleOffer. destruct offerData as [offer | ]; [ | repeat split; reflexivity].
  destruct (negb (wellFormedOffer (Some offer))); [repeat split; reflexivity | ].
  destruct (cleanupPeer_media h) as (H1 & H2 & H3 & H4 & H5).
  unfold sameMedia. cbn. repeat split; assumption.
Qed.

(** X20: a new offer starts the track count again, and the bindings follow
    the count, not the session.  On a console whose elements are mounted, the
    first video track after a well-formed offer is bound to the regular role
    and its element, whatever was bound before; the track bound there before
    and the tracks of the stream the element showed are stopped; and the
    thermal role keeps the track of the previous session until a second video
    track arrives. *)
Theorem renegotiation_rebinds (offer : Signal) (t : Track) (h : Hook) :
  wellFormedOffer (Some offer) = true -> isVideo t = true -> mounted h ->
  trackCountRef (handleTrack t (handleOffer (Some offer) h)) = 1%nat
  /\ regular (videoTracksRef (handleTrack t (handleOffer (Some offer) h))) = Some t
  /\ regularVideoRef (handleTrack t (handleOffer (Some offer) h)) = Some (bindStream t)
  /\ thermal (videoTracksRef (handleTrack t (handleOffer (Some offer) h)))
     = thermal (videoTracksRef h)
  /\ thermalVideoRef (handleTrack t (handleOffer (Some offer) h)) = thermalVideoRef h
  /\ (forall old, regular (videoTracksRef h) = Some old ->
        In old (stopped (handleTrack t (handleOffer (Some offer) h))))
  /\ (forall el ts old,
        regularVideoRef h = Some el -> srcObject el = Some ts -> In old ts ->
        In old (stopped (handleTrack t (handleOffer (Some offer) h)))).
Proof.
  intros Hwf Hv [Hreg Hth].
  destruct (@handleOffer_spec offer h Hwf) as (_ & _ & Hc & _).
  destruct (handleOffer_media (Some offer) h) as (M1 & M2 & M3 & M4 & _).
  set (h1 := handleOffer (Some offer) h) in *. clearbody h1.
  unfold isVideo in Hv.
  unfold handleTrack. rewrite Hv. cbn [negb].
  cbn [trackCountRef set_trackCountRef regularVideoRef]. rewrite Hc, M1.
  destruct (regularVideoRef h) as [el | ] eqn:Eel; [ | contradiction].
  cbn [Nat.add Nat.eqb].
  unfold stopBound, stopSource, stopAll.
  cbn [videoTracksRef set_trackCountRef]. rewrite M3.
  destruct (regular (videoTracksRef h)) as [old0 | ] eqn:Eold;
    destruct (srcObject el) as [ts0 | ] eqn:Ets;
    cbn; rewrite ?M2, ?M3, ?M4;
    (repeat split; try reflexivity;
     [ intros old E; try discriminate E; injection E as <-;
       rewrite ?in_app_iff; cbn; tauto
     | intros el' ts old E1 E2 Hin; injection E1 as <-;
       try congruence;
       assert (ts = ts0) by congruence; subst ts;
       rewrite ?in_app_iff; tauto ]).
Qed.

(** A second session on a console that shows both cameras. *)
Lemma renegotiation_rebinds_witness :
  regular (videoTracksRef
             (handleTrack regularCamera
                (handleOffer (Some sampleOffer)
                   (arrive [regularCamera; thermalCamera]
                      (handleOffer (Some sampleOffer) mountedHook)))))
  = Some regularCamera
  /\ thermal (videoTracksRef
                (handleTrack regularCamera
                   (handleOffer (Some sampleOffer)
                      (arrive [regularCamera; thermalCamera]
                         (handleOffer (Some sampleOffer) mountedHook)))))
     = Some thermalCamera.
Proof.
  destruct (@renegotiation_rebinds sampleOffer regularCamera
              (arrive [regularCamera; thermalCamera]
                 (handleOffer (Some sampleOffer) mountedHook)))
    as (_ & H2 & _ & H4 & _).
  - reflexivity.
  - reflexivity.
  - split; discriminate.
  - split; [exact H2 | rewrite H4; reflexivity].
Defined.

End RenegotiationFacts.

(** ** MapPanel: the number inputs and the goto command *)

Module MapControls.
Import Js.

Definition isHexDigit (c : ascii) : bool :=
  let n := nat_of_ascii c in
  isDigit c || (Nat.leb 97 n && Nat.leb n 102) || (Nat.leb 65 n && Nat.leb n 70).

Definition hexVal (c : ascii) : Z :=
  let n := nat_of_ascii c in
  if isDigit c then digitVal c
  else if Nat.leb 97 n then Z.of_nat (n - 87)
  else Z.of_nat (n - 55).

Fixpoint scanHex (acc : Z) (n : nat) (s : string) : Z * nat :=
  match s with
  | String c r =>
      if isHexDigit c then scanHex (16 * acc + hexVal c) (S n) r
      else (acc, n)
  | EmptyString => (acc, n)
  end.

(** [parseInt(str)] with no radix: a [0x] or [0X] prefix makes it 16, else it
    is 10; NaN when no digit follows. *)
Definition parseInt (str : string) : number :=
  let (negative, s1) := readSign (skipWhite str) in
  let (v, n) :=
    if startsWith s1 "0x" || startsWith s1 "0X"
    then scanHex 0 0 (substringFrom 2 s1)
    else let '(v, n, _) := scanDigits 0 0 s1 in (v, n) in
  match n with
  | O => NaN
  | S _ => ofZ (if negative then - v else v)
  end.

(** [Math.max(lo, Math.min(hi, parseInt(e.target.value) || d))], the value an
    input's [onChange] sets. *)
Definition settingFrom (lo hi d : Z) (value : string) : number :=
  max (ofZ lo) (min (ofZ hi) (JsMath.orElse (parseInt value) (ofZ d))).

Definition setDroneSpeed : string -> number := settingFrom 1 15 1.
Definition setSurveillanceAltitude : string -> number := settingFrom 10 120 10.
Definition setLineSpacing : string -> number := settingFrom 5 50 5.
Definition setBufferZone : string -> number := settingFrom 0 20 0.
Definition setTargetAltitude : string -> number := settingFrom 1 500 1.

Section Goto.
(** The conversion of a number to a string that a template literal applies. *)
Variable toStr : number -> string.

Definition gotoCommand (targetLocation : Admin.LatLng) (targetAltitude : number) : string :=
  ("GOTO:" ++ toStr (Admin.pointLat targetLocation) ++ ":"
     ++ toStr (Admin.pointLng targetLocation) ++ ":" ++ toStr targetAltitude)%string.

(** [handleGoto]: what becomes of the hook, and the alert shown if any.  The
    command goes straight to the peer. *)
Definition handleGoto (targetLocation : option Admin.LatLng) (targetAltitude : number)
  (h : WebRTC.Hook) : WebRTC.Outcome * option string :=
  match targetLocation with
  | None => (WebRTC.Returns h, Some "Please select a location on the map first"%string)
  | Some target =>
      match WebRTC.peerRef h with
      | Some i =>
          if String.eqb (WebRTC.connectionStatus h) "connected" || WebRTC.videoActive h then
            match nth_error (WebRTC.peers h) i with
            | Some p =>
                match WebRTC.send (gotoCommand target targetAltitude) p with
                | Some p' => (WebRTC.Returns (WebRTC.withPeer i (fun _ => p') h), None)
                | None => (WebRTC.Throws, None)
                end
            | None => (WebRTC.Throws, None)
            end
          else (WebRTC.Returns h, Some "Not connected to drone"%string)
      | None => (WebRTC.Returns h, Some "Not connected to drone"%string)
      end
  end.
End Goto.

End MapControls.

Module MapControlsFacts.
Import Js JsFacts MapControls.

Lemma parseInt_cases (str : string) :
  parseInt str = NaN \/ exists v, parseInt str = ofZ v.
Proof.
  unfold parseInt. destruct (readSign (skipWhite str)) as [negative s1].
  destruct (if startsWith s1 "0x" || startsWith s1 "0X"
            then scanHex 0 0 (substringFrom 2 s1)
            else let '(v, n, _) := scanDigits 0 0 s1 in (v, n)) as [v n].
  destruct n; [left; reflexivity | right; eauto].
Qed.

Lemma clamp_ofZ (lo hi v : Z) :
  max (ofZ lo) (min (ofZ hi) (ofZ v)) = ofZ (Z.max lo (Z.min hi v)).
Proof.
  unfold ofZ, min. cbn [lt].
  destruct (Qltb (inject_Z v) (inject_Z hi)) eqn:E1; qtests.
  - rewrite <- Zlt_Qlt in E1. unfold max. cbn [lt].
    destruct (Qltb (inject_Z lo) (inject_Z v)) eqn:E2; qtests.
    + rewrite <- Zlt_Qlt in E2. do 2 f_equal. lia.
    + rewrite <- Zle_Qle in E2. do 2 f_equal. lia.
  - rewrite <- Zle_Qle in E1. unfold max. cbn [lt].
    destruct (Qltb (inject_Z lo) (inject_Z hi)) eqn:E2; qtests.
    + rewrite <- Zlt_Qlt in E2. do 2 f_equal. lia.
    + rewrite <- Zle_Qle in E2. do 2 f_equal. lia.
Qed.

Lemma orElse_ofZ (v d : Z) :
  JsMath.orElse (ofZ v) (ofZ d) = ofZ (if (v =? 0)%Z then d else v).
Proof.
  unfold JsMath.orElse, ofZ. cbn [truthy].
  destruct (Z.eqb_spec v 0) as [-> | Hne]; [reflexivity | ].
  destruct (Qeqb (inject_Z v) 0) eqn:E; qtests; [ | reflexivity].
  exfalso. apply Hne. unfold Qeq in E. cbn in E. lia.
Qed.

(** X21: the number inputs of the map panel.  Whatever text the input
    holds, the value set is an integer between the bounds; text that does
    not start with a number, and the number 0, give the default, clamped;
    and a number within the bounds, other than 0, is taken as it is. *)
Theorem settingFrom_in_range (lo hi d : Z) (value : string) :
  (lo <= hi)%Z ->
  exists n,
    settingFrom lo hi d value = ofZ n
    /\ (lo <= n <= hi)%Z
    /\ (parseInt value = NaN \/ parseInt value = ofZ 0 ->
          n = Z.max lo (Z.min hi d))
    /\ (forall v, parseInt value = ofZ v -> v <> 0%Z -> (lo <= v <= hi)%Z -> n = v).
Proof.
  intro Hb. unfold settingFrom.
  destruct (parseInt_cases value) as [E | [v E]]; rewrite E.
  - change (JsMath.orElse NaN (ofZ d)) with (ofZ d). rewrite clamp_ofZ.
    eexists. split; [reflexivity | split; [lia | split; [reflexivity | ]]].
    intros v Hv. discriminate Hv.
  - rewrite orElse_ofZ, clamp_ofZ.
    eexists. split; [reflexivity | split; [lia | split]].
    + intros [Hn | Hz]; [discriminate Hn | ].
      unfold ofZ in Hz. inversion Hz; subst. reflexivity.
    + intros v' Hv' Hne Hin.
      unfold ofZ in Hv'. inversion Hv'; subst.
      destruct (Z.eqb_spec v' 0); [contradiction | lia].
Qed.

(** The speed input: a hexadecimal text is read as such and clamped; an
    emptied input gives the minimum. *)
Lemma settingFrom_in_range_witness :
  setDroneSpeed "0x1F" = ofZ 15 /\ setDroneSpeed "" = ofZ 1
  /\ setSurveillanceAltitude "45.7" = ofZ 45.
Proof.
  destruct (@settingFrom_in_range 1 15 1 "0x1F") as (n & E & _); [lia | ].
  destruct (@settingFrom_in_range 1 15 1 "") as (m & F & _ & Hd & _); [lia | ].
  destruct (@settingFrom_in_range 10 120 10 "45.7") as (k & G & _ & _ & Hv); [lia | ].
  split; [reflexivity | split].
  - unfold setDroneSpeed. rewrite F, Hd; [reflexivity | left; reflexivity].
  - unfold setSurveillanceAltitude. rewrite G, (Hv 45%Z); [reflexivity | reflexivity | lia | lia].
Defined.

(** X22: [handleGoto] and [startSurveillanceMission] do not go through
    [sendCommand], but they hand the peer their command exactly when
    [sendCommand] would, and leave the hook as it would; the alert "Not
    connected to drone" is shown exactly when [sendCommand] would drop the
    command.  Without a target, [handleGoto] sends nothing. *)
Theorem direct_sends_agree (toStr : number -> string) :
  (forall target targetAltitude h,
     fst (handleGoto toStr (Some target) targetAltitude h)
     = WebRTC.sendCommand (gotoCommand toStr target targetAltitude) h
     /\ (snd (handleGoto toStr (Some target) targetAltitude h)
         = if WebRTC.mayCommand h then None else Some "Not connected to drone"%string))
  /\ (forall st a,
        fst (MapPanel.startSurveillanceMission toStr st a)
        = WebRTC.sendCommand
            (MapPanel.missionCommand toStr (Admin.surveillancePoints a) st) (Admin.rtc a)
        /\ (snd (MapPanel.startSurveillanceMission toStr st a)
            = if WebRTC.mayCommand (Admin.rtc a) then None
              else Some "Not connected to drone"%string))
  /\ (forall targetAltitude h,
        handleGoto toStr None targetAltitude h
        = (WebRTC.Returns h, Some "Please select a location on the map first"%string)).
Proof.
  split; [ | split].
  - intros target targetAltitude h.
    unfold handleGoto, WebRTC.sendCommand, WebRTC.mayCommand.
    destruct (WebRTC.peerRef h) as [i | ]; [ | split; reflexivity].
    destruct (String.eqb (WebRTC.connectionStatus h) "connected" || WebRTC.videoActive h);
      cbn [negb]; [ | split; reflexivity].
    destruct (nth_error (WebRTC.peers h) i) as [p | ]; [ | split; reflexivity].
    destruct (WebRTC.send _ p); split; reflexivity.
  - intros st a.
    unfold MapPanel.startSurveillanceMission, WebRTC.sendCommand, WebRTC.mayCommand.
    destruct (WebRTC.peerRef (Admin.rtc a)) as [i | ]; [ | split; reflexivity].
    destruct (String.eqb (WebRTC.connectionStatus (Admin.rtc a)) "connected"
              || WebRTC.videoActive (Admin.rtc a));
      cbn [negb]; [ | split; reflexivity].
    destruct (nth_error (WebRTC.peers (Admin.rtc a)) i) as [p | ]; [ | split; reflexivity].
    destruct (WebRTC.send _ p); split; reflexivity.
  - reflexivity.
Qed.

End MapControlsFacts.

Module LimitFacts.
Import Js.

Section Limit.
Variable V : Type.
Implicit Types (o : obj V) (k : string) (v : V).

Lemma get_absent o k : ~ In k (keys o) -> get o k = None.
Proof.
  intro H. destruct (get o k) as [v | ] eqn:E; [ | reflexivity].
  exfalso. apply H. apply CacheFacts.get_present. eauto.
Qed.

Lemma get_app_absent o o' k : ~ In k (keys o) -> get (o ++ o') k = get o' k.
Proof.
  induction o as [ | [k' v'] r IH]; cbn; [reflexivity | ].
  intro H. destruct (String.eqb_spec k' k) as [E | N]; [tauto | ].
  apply IH. tauto.
Qed.

(** X23: [limitCacheSize] on an object, for any bound.  The result is the
    object without its oldest properties: it has [min(size, maxSize)]
    properties, they are the newest ones in their order with their values,
    and a key that was dropped reads as absent; limiting again changes
    nothing, and an object within the bound is returned as it is. *)
Theorem limitCacheSize_keeps_newest o (maxSize : nat) :
  wf o ->
  exists dropped,
    o = dropped ++ Utils.limitCacheSize o maxSize
    /\ List.length (Utils.limitCacheSize o maxSize) = Nat.min (List.length o) maxSize
    /\ wf (Utils.limitCacheSize o maxSize)
    /\ (forall k v, get (Utils.limitCacheSize o maxSize) k = Some v -> get o k = Some v)
    /\ (forall k, In k (keys dropped) -> get (Utils.limitCacheSize o maxSize) k = None)
    /\ Utils.limitCacheSize (Utils.limitCacheSize o maxSize) maxSize
       = Utils.limitCacheSize o maxSize
    /\ ((List.length o <= maxSize)%nat -> Utils.limitCacheSize o maxSize = o).
Proof.
  intro Hwf. rewrite (CacheFacts.limitCacheSize_spec maxSize Hwf).
  set (n := (List.length o - maxSize)%nat).
  exists (firstn n o).
  assert (Hsplit : o = firstn n o ++ skipn n o) by (symmetry; apply firstn_skipn).
  assert (Hwf' : wf (skipn n o)) by (apply CacheFacts.wf_skipn; exact Hwf).
  assert (Hdisj : forall k, In k (keys (firstn n o)) -> ~ In k (keys (skipn n o))).
  { intros k H1 H2. unfold wf, keys in *. rewrite Hsplit, map_app in Hwf.
    revert H1 H2. generalize (map fst (firstn n o)) (map fst (skipn n o)) Hwf.
    intros l1 l2 Hnd H1 H2. induction l1 as [ | x l1 IH]; [destruct H1 | ].
    cbn in Hnd. inversion Hnd as [ | ? ? Hx Hr]; subst.
    destruct H1 as [-> | H1]; [ | exact (IH Hr H1)].
    apply Hx. apply in_or_app. right. exact H2. }
  split; [exact Hsplit | split; [ | split; [exact Hwf' | split; [ | split; [ | split]]]]].
  - rewrite length_skipn. unfold n. lia.
  - intros k v Hg. rewrite Hsplit. rewrite get_app_absent; [exact Hg | ].
    intro Hin. apply (Hdisj k Hin). apply CacheFacts.get_present. eauto.
  - intros k Hin. apply get_absent. apply Hdisj. exact Hin.
  - rewrite (CacheFacts.limitCacheSize_spec maxSize Hwf').
    rewrite length_skipn.
    replace (List.length o - n - maxSize)%nat with 0%nat by (unfold n; lia).
    reflexivity.
  - intro Hle. replace n with 0%nat by (unfold n; lia). reflexivity.
Qed.
End Limit.

(** Five positions limited to three. *)
Lemma limitCacheSize_keeps_newest_witness :
  exists dropped,
    [("a", 1%Z); ("b", 2%Z); ("c", 3%Z); ("d", 4%Z); ("e", 5%Z)]%string
    = dropped
      ++ Utils.limitCacheSize
           [("a", 1%Z); ("b", 2%Z); ("c", 3%Z); ("d", 4%Z); ("e", 5%Z)]%string 3
    /\ List.length
         (Utils.limitCacheSize
            [("a", 1%Z); ("b", 2%Z); ("c", 3%Z); ("d", 4%Z); ("e", 5%Z)]%string 3)
       = 3%nat.
Proof.
  destruct (@limitCacheSize_keeps_newest Z
              [("a", 1%Z); ("b", 2%Z); ("c", 3%Z); ("d", 4%Z); ("e", 5%Z)]%string 3)
    as (dropped & H1 & H2 & _).
  - apply CacheFacts.nodupb_sound. reflexivity.
  - exists dropped. split; [exact H1 | exact H2].
Defined.

End LimitFacts.

(** ** The data listeners and the remote candidates *)

Module Wiring.
Import WebRTC.

Definition dataListenerEqb (a b : DataListener) : bool :=
  match a, b with
  | InitialDataListener, InitialDataListener => true
  | HandleDataMessage, HandleDataMessage => true
  | _, _ => false
  end.

Definition listenerEqb (a b : Listener) : bool :=
  match a, b with
  | OnSignal, OnSignal | OnConnect, OnConnect | OnClose, OnClose
  | OnError, OnError | OnStream, OnStream | OnTrack, OnTrack => true
  | OnData x, OnData y => dataListenerEqb x y
  | _, _ => false
  end.

Fixpoint removeFirst (event : string) (l : Listener) (ls : list (string * Listener))
  : list (string * Listener) :=
  match ls with
  | [] => []
  | (e', l') :: r =>
      if String.eqb e' event && listenerEqb l' l then r
      else (e', l') :: removeFirst event l r
  end.

(** [peer.removeListener(event, l)]: at most one instance goes, the one
    added last. *)
Definition removeListener (event : string) (l : Listener) (p : Peer) : Peer :=
  setp_listeners (rev (removeFirst event l (rev (listeners p)))) p.

(** [handleRemoteICE(candidateData)]: an error of [signal] is caught. *)
Definition handleRemoteICE (candidateData : Signal) (h : Hook) : Hook :=
  match peerRef h with
  | None => h
  | Some i =>
      let data :=
        {| sdp := None; type := None;
           candidate :=
             Some ("candidate:" ++ match candidate candidateData with
                                   | Some c => c
                                   | None => "undefined"
                                   end)%string |} in
      withPeer i (fun p => match signal data p with
                           | Some p' => p'
                           | None => p
                           end) h
  end.

(** [setupDataListener] of the first effect of WebRTCAdmin. *)
Definition setupDataListener (h : Hook) : Hook :=
  match peerRef h, activeListenersRef h with
  | Some i, None =>
      set_activeListenersRef (Some InitialDataListener)
        (withPeer i (on "data" (OnData InitialDataListener)) h)
  | _, _ => h
  end.

(** The effect, and the tick of its interval: both look at the status. *)
Definition setupWhenConnected (h : Hook) : Hook :=
  if String.eqb (connectionStatus h) "connected" then setupDataListener h else h.

(** The body of the effect that owns [handleDataMessage], past the
    definitions of the handlers. *)
Definition installDataListener (h : Hook) : Hook :=
  match peerRef h with
  | Some i =>
      let h1 := match activeListenersRef h with
                | Some l => withPeer i (removeListener "data" (OnData l)) h
                | None => h
                end in
      set_activeListenersRef (Some HandleDataMessage)
        (withPeer i (on "data" (OnData HandleDataMessage)) h1)
  | None => h
  end.

(** The clean-up of that effect. *)
Definition uninstallDataListener (h : Hook) : Hook :=
  match peerRef h, activeListenersRef h with
  | Some i, Some l =>
      set_activeListenersRef None (withPeer i (removeListener "data" (OnData l)) h)
  | _, _ => h
  end.

End Wiring.

Module WiringFacts.
Import WebRTC WebRTCFacts Wiring.

Inductive WiringEvent : Type :=
| OfHook (e : SessionFacts.HookEvent)
| RemoteICE (candidateData : Signal)
| Setup
| Install
| Uninstall.

Definition wiringStep (h : Hook) (e : WiringEvent) : Hook :=
  match e with
  | OfHook e' => SessionFacts.hookStep h e'
  | RemoteICE candidateData => handleRemoteICE candidateData h
  | Setup => setupWhenConnected h
  | Install => installDataListener h
  | Uninstall => uninstallDataListener h
  end.

Definition wiring (events : list WiringEvent) (h : Hook) : Hook :=
  fold_left wiringStep events h.

(** The listeners [handleOffer] registers. *)
Definition offerListeners : list (string * Listener) :=
  [("signal", OnSignal); ("connect", OnConnect); ("close", OnClose);
   ("error", OnError); ("stream", OnStream); ("track", OnTrack)]%string.

Definition dataPart (r : option DataListener) : list (string * Listener) :=
  match r with
  | Some l => [("data"%string, OnData l)]
  | None => []
  end.

(** The peer the hook points to carries the listeners of [handleOffer] and
    the data listener the hook has on record, and no other. *)
Definition wired (h : Hook) : Prop :=
  match peerRef h with
  | Some i =>
      exists p, nth_error (peers h) i = Some p
                /\ listeners p = offerListeners ++ dataPart (activeListenersRef h)
  | None => activeListenersRef h = None
  end.

Lemma wired_with i f r' h :
  peerRef h = Some i -> wired h ->
  (forall p, listeners p = offerListeners ++ dataPart (activeListenersRef h) ->
             listeners (f p) = offerListeners ++ dataPart r') ->
  wired (set_activeListenersRef r' (withPeer i f h)).
Proof.
  unfold wired. intros Hi Hw Hf. rewrite Hi in Hw. destruct Hw as (p & Hp & Hl).
  cbn. rewrite Hi. exists (f p). rewrite updateAt_same, Hp. split; [reflexivity | ].
  apply Hf. exact Hl.
Qed.

Lemma wired_quiet i f h :
  peerRef h = Some i -> wired h ->
  (forall p, listeners (f p) = listeners p) ->
  wired (withPeer i f h).
Proof.
  unfold wired. intros Hi Hw Hf. rewrite Hi in Hw. destruct Hw as (p & Hp & Hl).
  cbn. rewrite Hi. exists (f p). rewrite updateAt_same, Hp. split; [reflexivity | ].
  rewrite Hf. exact Hl.
Qed.

Lemma wired_same h h' :
  peers h' = peers h -> peerRef h' = peerRef h ->
  activeListenersRef h' = activeListenersRef h -> wired h -> wired h'.
Proof. unfold wired. intros -> -> ->. tauto. Qed.

Lemma cleanupPeer_wired h :
  wired h -> peerRef (cleanupPeer h) = None /\ activeListenersRef (cleanupPeer h) = None.
Proof.
  intro Hw. destruct (peerRef h) as [i | ] eqn:Hi.
  - destruct (@cleanupPeer_spec h i Hi) as (_ & Er & Ea & _). auto.
  - rewrite cleanupPeer_idle by exact Hi. unfold wired in Hw. rewrite Hi in Hw. auto.
Qed.

Lemma handleTrack_wiring track h :
  peers (handleTrack track h) = peers h
  /\ peerRef (handleTrack track h) = peerRef h
  /\ activeListenersRef (handleTrack track h) = activeListenersRef h.
Proof.
  unfold handleTrack, stopBound, stopSource.
  repeat match goal with
         | |- context [if ?c then _ else _] => destruct c
         | |- context [match ?c with Some _ => _ | None => _ end] => destruct c
         end; cbn; repeat split; reflexivity.
Qed.

Lemma removeListener_data (l : DataListener) (p : Peer) :
  listeners p = offerListeners ++ dataPart (Some l) ->
  listeners (removeListener "data" (OnData l) p) = offerListeners.
Proof.
  intro H. unfold removeListener. cbn [listeners setp_listeners]. rewrite H.
  destruct l; reflexivity.
Qed.

Lemma hookStep_wired h e : wired h -> wired (SessionFacts.hookStep h e).
Proof.
  intro Hw. destruct e as [offerData | | | | track | | command | ];
    cbn [SessionFacts.hookStep].
  - destruct offerData as [offer | ]; [ | exact Hw].
    destruct (wellFormedOffer (Some offer)) eqn:Hwf.
    + destruct (@handleOffer_spec offer h Hwf) as (Ep & Er & _ & Ea & _).
      destruct (@cleanupPeer_wired h Hw) as [_ Hnone].
      unfold wired. rewrite Er, Ep, Ea, Hnone, nth_error_last.
      exists (answering offer). split; reflexivity.
    + unfold handleOffer. rewrite Hwf. exact Hw.
  - unfold onConnect. destruct (peerRef h) as [i | ] eqn:Hi; [ | exact Hw].
    eapply wired_same; [reflexivity | reflexivity | reflexivity | ].
    apply wired_quiet; [exact Hi | exact Hw | reflexivity].
  - unfold onClose.
    assert (Hw' : wired (set_connectionStatus "disconnected" h)) by exact Hw.
    destruct (@cleanupPeer_wired _ Hw') as [E1 E2]. unfold wired. rewrite E1. exact E2.
  - exact Hw.
  - destruct (handleTrack_wiring track h) as (E1 & E2 & E3).
    eapply wired_same; eassumption.
  - exact Hw.
  - destruct (sendCommand_cases command h)
      as [[_ E] | [[_ E] | (i & p & _ & Hi & Hp & _ & _ & E)]]; rewrite E;
      try exact Hw.
    unfold wired in *. rewrite Hi in Hw. destruct Hw as (p0 & Hp0 & Hl).
    assert (p0 = p) by congruence. subst p0.
    cbn. rewrite Hi, updateAt_same, Hp. eexists. split; [reflexivity | exact Hl].
  - destruct (@cleanupPeer_wired h Hw) as [E1 E2]. unfold wired. rewrite E1. exact E2.
Qed.

Lemma wiringStep_wired h e : wired h -> wired (wiringStep h e).
Proof.
  intro Hw. destruct e as [e' | candidateData | | | ]; cbn [wiringStep].
  - apply hookStep_wired. exact Hw.
  - unfold handleRemoteICE. destruct (peerRef h) as [i | ] eqn:Hi; [ | exact Hw].
    apply wired_quiet; [exact Hi | exact Hw | ].
    intro p. unfold signal. destruct (destroyed p); reflexivity.
  - unfold setupWhenConnected, setupDataListener.
    destruct (String.eqb (connectionStatus h) "connected"); [ | exact Hw].
    destruct (peerRef h) as [i | ] eqn:Hi; [ | exact Hw].
    destruct (activeListenersRef h) as [l | ] eqn:Ha; [exact Hw | ].
    apply wired_with; [exact Hi | exact Hw | ].
    intros p Hl. cbn. rewrite Hl, Ha. cbn. reflexivity.
  - unfold installDataListener.
    destruct (peerRef h) as [i | ] eqn:Hi; [ | exact Hw].
    destruct (activeListenersRef h) as [l | ] eqn:Ha.
    + assert (Hw1 : wired (set_activeListenersRef None
                             (withPeer i (removeListener "data" (OnData l)) h))).
      { apply wired_with; [exact Hi | exact Hw | ].
        intros p Hl. rewrite Ha in Hl. rewrite (@removeListener_data l p Hl). reflexivity. }
      assert (Hw2 : wired (set_activeListenersRef (Some HandleDataMessage)
                             (withPeer i (on "data" (OnData HandleDataMessage))
                                (set_activeListenersRef None
                                   (withPeer i (removeListener "data" (OnData l)) h))))).
      { apply wired_with; [exact Hi | exact Hw1 | ].
        intros p Hl. cbn in Hl. cbn. rewrite Hl. reflexivity. }
      exact Hw2.
    + apply wired_with; [exact Hi | exact Hw | ].
      intros p Hl. rewrite Ha in Hl. cbn. rewrite Hl. reflexivity.
  - unfold uninstallDataListener.
    destruct (peerRef h) as [i | ] eqn:Hi; [ | exact Hw].
    destruct (activeListenersRef h) as [l | ] eqn:Ha; [ | exact Hw].
    apply wired_with; [exact Hi | exact Hw | ].
    intros p Hl. rewrite Ha in Hl. rewrite (@removeListener_data l p Hl). reflexivity.
Qed.

Lemma initial_wired regularEl thermalEl : wired (initialHook regularEl thermalEl).
Proof. reflexivity. Qed.

(** X24: the data listeners over a session.  Whatever the order of offers,
    peer events, commands, remote candidates and runs of the two effects that
    register a data listener, the peer the hook points to carries the six
    listeners of [handleOffer] and at most one data listener, the one the
    hook has on record; without a peer the hook has none on record; and
    when the effect that owns [handleDataMessage] runs on a hook with a
    peer, that handler becomes the only data listener, the simplified
    listener of the first effect being removed if it was there. *)
Theorem data_listener_wiring (events : list WiringEvent)
  (regularEl thermalEl : option VideoElement) :
  (forall i,
     peerRef (wiring events (initialHook regularEl thermalEl)) = Some i ->
     exists p,
       nth_error (peers (wiring events (initialHook regularEl thermalEl))) i = Some p
       /\ listeners p
          = offerListeners
            ++ dataPart (activeListenersRef (wiring events (initialHook regularEl thermalEl))))
  /\ (peerRef (wiring events (initialHook regularEl thermalEl)) = None ->
        activeListenersRef (wiring events (initialHook regularEl thermalEl)) = None)
  /\ (forall i,
        peerRef (wiring events (initialHook regularEl thermalEl)) = Some i ->
        exists p,
          nth_error
            (peers (installDataListener (wiring events (initialHook regularEl thermalEl)))) i
          = Some p
          /\ listeners p = offerListeners ++ [("data"%string, OnData HandleDataMessage)]).
Proof.
  assert (H : forall h, wired h -> wired (wiring events h)).
  { induction events as [ | e rest IH]; intros h Hw; [exact Hw | ].
    unfold wiring. cbn [fold_left]. apply IH. apply wiringStep_wired. exact Hw. }
  specialize (H _ (initial_wired regularEl thermalEl)).
  set (h := wiring events (initialHook regularEl thermalEl)) in *.
  pose proof (@wiringStep_wired h Install H) as Hinst. cbn [wiringStep] in Hinst.
  split; [ | split].
  - intros i Hi. unfold wired in H. rewrite Hi in H. exact H.
  - intro Hn. unfold wired in H. rewrite Hn in H. exact H.
  - intros i Hi. unfold wired in Hinst.
    assert (Hr : peerRef (installDataListener h) = Some i
                 /\ activeListenersRef (installDataListener h) = Some HandleDataMessage).
    { unfold installDataListener. rewrite Hi. cbn.
      destruct (activeListenersRef h); cbn; rewrite Hi; auto. }
    destruct Hr as [Hr1 Hr2]. rewrite Hr1, Hr2 in Hinst. exact Hinst.
Qed.

(** The simplified listener is registered first, then replaced. *)
Lemma data_listener_wiring_witness :
  (exists p,
     nth_error
       (peers (wiring [OfHook (SessionFacts.Offer (Some sampleOffer));
                       OfHook SessionFacts.Connected; Setup]
                 (initialHook None None))) 0 = Some p
     /\ listeners p = offerListeners ++ [("data"%string, OnData InitialDataListener)])
  /\ (exists p,
        nth_error
          (peers (installDataListener
                    (wiring [OfHook (SessionFacts.Offer (Some sampleOffer));
                             OfHook SessionFacts.Connected; Setup]
                       (initialHook None None)))) 0 = Some p
        /\ listeners p = offerListeners ++ [("data"%string, OnData HandleDataMessage)]).
Proof.
  destruct (@data_listener_wiring
              [OfHook (SessionFacts.Offer (Some sampleOffer));
               OfHook SessionFacts.Connected; Setup]
              None None) as (H1 & _ & H3).
  split.
  - destruct (H1 0%nat) as (p & Hp & Hl); [vm_compute; reflexivity | ].
    exists p. split; [exact Hp | ]. rewrite Hl. vm_compute. reflexivity.
  - apply (H3 0%nat). vm_compute. reflexivity.
Defined.

End WiringFacts.

(** ** The video display mode *)

Module Display.
Import WebRTC.

Definition set_videoDisplayMode (v : VideoDisplayMode) (h : Hook) : Hook :=
  {| connectionStatus := connectionStatus h;
     videoActive := videoActive h;
     videoDisplayMode := v;
     thermalAvailable := thermalAvailable h;
     peerRef := peerRef h;
     peers := peers h;
     regularVideoRef := regularVideoRef h;
     thermalVideoRef := thermalVideoRef h;
     videoTracksRef := videoTracksRef h;
     activeListenersRef := activeListenersRef h;
     streamRef := streamRef h;
     trackCountRef := trackCountRef h;
     stopped := stopped h;
     onended := onended h |}.

(** [setThermalAvailable(v)] *)
Definition set_thermalAvailable (v : bool) (h : Hook) : Hook :=
  {| connectionStatus := connectionStatus h;
     videoActive := videoActive h;
     videoDisplayMode := videoDisplayMode h;
     thermalAvailable := v;
     peerRef := peerRef h;
     peers := peers h;
     regularVideoRef := regularVideoRef h;
     thermalVideoRef := thermalVideoRef h;
     videoTracksRef := videoTracksRef h;
     activeListenersRef := activeListenersRef h;
     streamRef := streamRef h;
     trackCountRef := trackCountRef h;
     stopped := stopped h;
     onended := onended h |}.

(** The [switch] of [toggleVideoDisplayMode]. *)
Definition newMode (prevMode : VideoDisplayMode) : VideoDisplayMode :=
  match prevMode with
  | REGULAR => THERMAL
  | THERMAL => SIDE_BY_SIDE
  | SIDE_BY_SIDE => PICTURE_IN_PICTURE
  | PICTURE_IN_PICTURE => REGULAR
  end.

(** [toggleVideoDisplayMode] *)
Definition toggleVideoDisplayMode (h : Hook) : Hook :=
  if negb (thermalAvailable h) then h
  else set_videoDisplayMode (newMode (videoDisplayMode h)) h.

End Display.

Module DisplayFacts.
Import WebRTC Display.

Lemma newMode_four (n : nat) (m : VideoDisplayMode) :
  Nat.iter (n + 4) newMode m = Nat.iter n newMode m.
Proof.
  rewrite Nat.iter_add. f_equal. destruct m; reflexivity.
Qed.

Lemma newMode_period (n : nat) : forall m,
  Nat.iter n newMode m = m <-> (n mod 4 = 0)%nat.
Proof.
  induction n as [n IH] using (well_founded_induction lt_wf). intro m.
  destruct (Nat.lt_ge_cases n 4) as [Hlt | Hge].
  - destruct n as [ | [ | [ | [ | n]]]]; [ | | | | lia];
      destruct m; cbn; split; intro H; try reflexivity; discriminate H.
  - destruct (Nat.le_exists_sub 4 n Hge) as (k & -> & _).
    rewrite newMode_four, (IH k) by lia.
    replace (k + 4)%nat with (k + 1 * 4)%nat by lia.
    rewrite Nat.Div0.mod_add. reflexivity.
Qed.

Lemma toggles (n : nat) (h : Hook) :
  thermalAvailable h = true ->
  Nat.iter n toggleVideoDisplayMode h
  = set_videoDisplayMode (Nat.iter n newMode (videoDisplayMode h)) h.
Proof.
  intro Ht. induction n as [ | n IH]; [destruct h; reflexivity | ].
  rewrite !Nat.iter_succ, IH. unfold toggleVideoDisplayMode. cbn. rewrite Ht. reflexivity.
Qed.

(** X25: the display mode goes round in four.  With the thermal camera
    available, [n] presses of the toggle bring the hook back to where it was
    exactly when [n] is a multiple of 4, and they change nothing but the
    display mode; without it the toggle does nothing. *)
Theorem display_mode_cycle (n : nat) (h : Hook) :
  (thermalAvailable h = true ->
     (Nat.iter n toggleVideoDisplayMode h = h <-> (n mod 4 = 0)%nat)
     /\ Nat.iter n toggleVideoDisplayMode h
        = set_videoDisplayMode
            (videoDisplayMode (Nat.iter n toggleVideoDisplayMode h)) h)
  /\ (thermalAvailable h = false -> Nat.iter n toggleVideoDisplayMode h = h).
Proof.
  split.
  - intro Ht. rewrite (@toggles n h Ht). split; [ | reflexivity].
    rewrite <- (newMode_period n (videoDisplayMode h)). split.
    + intro E. apply (f_equal videoDisplayMode) in E. exact E.
    + intro E. rewrite E. destruct h; reflexivity.
  - intro Hf. induction n as [ | n IH]; [reflexivity | ].
    rewrite Nat.iter_succ, IH. unfold toggleVideoDisplayMode. rewrite Hf. reflexivity.
Qed.

(** A console whose thermal camera is available, in the regular view. *)
Definition thermalHook : Hook := set_thermalAvailable true (initialHook None None).

(** Four presses come back to the regular view, one and two do not; and the
    console without a thermal camera stays as it is. *)
Lemma display_mode_cycle_witness :
  Nat.iter 4 toggleVideoDisplayMode thermalHook = thermalHook
  /\ Nat.iter 1 toggleVideoDisplayMode thermalHook <> thermalHook
  /\ Nat.iter 2 toggleVideoDisplayMode thermalHook
     = set_videoDisplayMode SIDE_BY_SIDE thermalHook
  /\ Nat.iter 8 toggleVideoDisplayMode (initialHook None None) = initialHook None None.
Proof.
  destruct (display_mode_cycle 4 thermalHook) as [H4 _].
  destruct (H4 eq_refl) as [[_ E4] _].
  destruct (display_mode_cycle 1 thermalHook) as [H1 _].
  destruct (H1 eq_refl) as [[N1 _] _].
  destruct (display_mode_cycle 2 thermalHook) as [H2 _].
  destruct (H2 eq_refl) as [_ E2].
  destruct (display_mode_cycle 8 (initialHook None None)) as [_ H8].
  split; [apply E4; reflexivity | split; [ | split; [ | apply H8; reflexivity]]].
  - intro E. apply N1 in E. discriminate E.
  - rewrite E2. reflexivity.
Defined.

End DisplayFacts.

(** ** Keyboard controls *)

Module Keyboard.
Import WebRTC.

Record Control : Type := mkControl {
  command : string;
  key : string
}.

Definition MANUAL_CONTROLS : list Control :=
  [ {| command := "MANUAL_THROTTLE_UP"; key := "w" |};
    {| command := "MANUAL_YAW_RIGHT"; key := "d" |};
    {| command := "MANUAL_THROTTLE_DOWN"; key := "s" |};
    {| command := "MANUAL_YAW_LEFT"; key := "a" |};
    {| command := "MANUAL_PITCH_FORWARD"; key := "ArrowUp" |};
    {| command := "MANUAL_ROLL_RIGHT"; key := "ArrowRight" |};
    {| command := "MANUAL_PITCH_BACKWARD"; key := "ArrowDown" |};
    {| command := "MANUAL_ROLL_LEFT"; key := "ArrowLeft" |} ]%string.

(** [MANUAL_CONTROLS.find((ctrl) => ctrl.key === event.key)] *)
Definition findControl (eventKey : string) : option Control :=
  find (fun ctrl => String.eqb (key ctrl) eventKey) MANUAL_CONTROLS.

(** [activeKeys[event.key]], read as a condition. *)
Definition isActive (activeKeys : Js.obj bool) (eventKey : string) : bool :=
  match Js.get activeKeys eventKey with
  | Some b => b
  | None => false
  end.

(** [peerRef.current.send(c)] under the guard the key handlers write out. *)
Definition sendIfConnected (c : string) (h : Hook) : Outcome :=
  match peerRef h with
  | Some i =>
      if String.eqb (connectionStatus h) "connected" || videoActive h then
        match nth_error (peers h) i with
        | Some p =>
            match send c p with
            | Some p' => Returns (withPeer i (fun _ => p') h)
            | None => Throws
            end
        | None => Throws
        end
      else Returns h
  | None => Returns h
  end.

Definition Keys : Type := (Js.obj bool * Hook)%type.

(** [handleKeyDown]: the update of [activeKeys] is made before the send. *)
Definition handleKeyDown (controlMode eventKey : string) (s : Keys) : JoystickSend.Run Keys :=
  let (activeKeys, h) := s in
  if negb (String.eqb controlMode "manual") then JoystickSend.Completed s
  else if isActive activeKeys eventKey then JoystickSend.Completed s
  else
    match findControl eventKey with
    | Some control =>
        let activeKeys' := Js.set activeKeys eventKey true in
        match sendIfConnected (command control) h with
        | Returns h' => JoystickSend.Completed (activeKeys', h')
        | Throws => JoystickSend.Raised (activeKeys', h)
        end
    | None => JoystickSend.Completed s
    end.

(** [handleKeyUp] *)
Definition handleKeyUp (controlMode eventKey : string) (s : Keys) : JoystickSend.Run Keys :=
  let (activeKeys, h) := s in
  if negb (String.eqb controlMode "manual") then JoystickSend.Completed s
  else
    match findControl eventKey with
    | Some control =>
        let activeKeys' := Js.set activeKeys eventKey false in
        match sendIfConnected (command control ++ "_STOP") h with
        | Returns h' => JoystickSend.Completed (activeKeys', h')
        | Throws => JoystickSend.Raised (activeKeys', h)
        end
    | None => JoystickSend.Completed s
    end.

Inductive KeyEvent : Type :=
| KeyDown (eventKey : string)
| KeyUp (eventKey : string).

Definition keyStep (controlMode : string) (s : Keys) (e : KeyEvent) : Keys :=
  JoystickSend.stateOf
    (match e with
     | KeyDown k => handleKeyDown controlMode k s
     | KeyUp k => handleKeyUp controlMode k s
     end).

Definition typing (controlMode : string) (events : list KeyEvent) (s : Keys) : Keys :=
  fold_left (keyStep controlMode) events s.

End Keyboard.

Module KeyboardFacts.
Import WebRTC Keyboard SendFacts.

(** What one event sends, and the keys held after it. *)
Definition keySends (activeKeys : Js.obj bool) (e : KeyEvent) : list string :=
  match e with
  | KeyDown k =>
      if isActive activeKeys k then []
      else match findControl k with
           | Some control => [command control]
           | None => []
           end
  | KeyUp k =>
      match findControl k with
      | Some control => [(command control ++ "_STOP")%string]
      | None => []
      end
  end.

Definition keysAfter (activeKeys : Js.obj bool) (e : KeyEvent) : Js.obj bool :=
  match e with
  | KeyDown k =>
      if isActive activeKeys k then activeKeys
      else match findControl k with
           | Some _ => Js.set activeKeys k true
           | None => activeKeys
           end
  | KeyUp k =>
      match findControl k with
      | Some _ => Js.set activeKeys k false
      | None => activeKeys
      end
  end.

Fixpoint keyCommands (events : list KeyEvent) (activeKeys : Js.obj bool) : list string :=
  match events with
  | [] => []
  | e :: rest => keySends activeKeys e ++ keyCommands rest (keysAfter activeKeys e)
  end.

(** No two starts of [X] without a stop of [X] in between, [moving] telling
    whether a start is pending. *)
Fixpoint alternates (X : string) (moving : bool) (trace : list string) : bool :=
  match trace with
  | [] => true
  | m :: rest =>
      if String.eqb m X then negb moving && alternates X true rest
      else if String.eqb m (X ++ "_STOP") then alternates X false rest
      else alternates X moving rest
  end.

Lemma sendIfConnected_sendCommand c h : sendIfConnected c h = sendCommand c h.
Proof.
  unfold sendIfConnected, sendCommand.
  destruct (peerRef h); [ | reflexivity].
  destruct (String.eqb (connectionStatus h) "connected" || videoActive h); reflexivity.
Qed.

Lemma keyStep_ready e activeKeys h :
  ready h ->
  exists h',
    keyStep "manual" (activeKeys, h) e = (keysAfter activeKeys e, h')
    /\ ready h'
    /\ outbox h' = outbox h ++ keySends activeKeys e.
Proof.
  intro Hr.
  destruct e as [k | k];
    unfold keyStep, handleKeyDown, handleKeyUp, keysAfter, keySends;
    change (negb (String.eqb "manual" "manual")) with false; cbv beta iota.
  - destruct (isActive activeKeys k);
      [exists h; rewrite app_nil_r; cbn [JoystickSend.stateOf]; auto | ].
    destruct (findControl k) as [control | ];
      [ | exists h; rewrite app_nil_r; cbn [JoystickSend.stateOf]; auto].
    rewrite sendIfConnected_sendCommand.
    destruct (@sendCommand_ready (command control) h Hr) as (E & Hr' & Ho & _).
    rewrite E. eexists. split; [reflexivity | split; [exact Hr' | exact Ho]].
  - destruct (findControl k) as [control | ];
      [ | exists h; rewrite app_nil_r; cbn [JoystickSend.stateOf]; auto].
    rewrite sendIfConnected_sendCommand.
    destruct (@sendCommand_ready (command control ++ "_STOP") h Hr) as (E & Hr' & Ho & _).
    rewrite E. eexists. split; [reflexivity | split; [exact Hr' | exact Ho]].
Qed.

Lemma typing_ready events : forall activeKeys h,
  ready h ->
  exists activeKeys' h',
    typing "manual" events (activeKeys, h) = (activeKeys', h')
    /\ ready h'
    /\ outbox h' = outbox h ++ keyCommands events activeKeys.
Proof.
  induction events as [ | e rest IH]; intros activeKeys h Hr.
  - exists activeKeys, h. cbn. rewrite app_nil_r. auto.
  - destruct (@keyStep_ready e activeKeys h Hr) as (h1 & E & Hr1 & Ho1).
    destruct (IH (keysAfter activeKeys e) h1 Hr1) as (a' & h' & E' & Hr' & Ho').
    exists a', h'. unfold typing in *. cbn [fold_left]. rewrite E.
    split; [exact E' | split; [exact Hr' | ]].
    cbn [keyCommands]. rewrite Ho', Ho1, <- app_assoc. reflexivity.
Qed.

Lemma get_set_other (V : Type) (o : Js.obj V) (k k' : string) (v : V) :
  k <> k' -> Js.get (Js.set o k v) k' = Js.get o k'.
Proof.
  intro Hne. induction o as [ | [k0 v0] r IH]; cbn.
  - destruct (String.eqb_spec k k'); [contradiction | reflexivity].
  - destruct (String.eqb_spec k0 k) as [E | N]; cbn.
    + subst. destruct (String.eqb_spec k k'); [contradiction | reflexivity].
    + destruct (String.eqb_spec k0 k'); [reflexivity | exact IH].
Qed.

Lemma isActive_set_same activeKeys k b : isActive (Js.set activeKeys k b) k = b.
Proof. unfold isActive. rewrite CacheFacts.get_set_same. reflexivity. Qed.

Lemma isActive_set_other activeKeys k k' b :
  k <> k' -> isActive (Js.set activeKeys k b) k' = isActive activeKeys k'.
Proof. intro H. unfold isActive. rewrite get_set_other by exact H. reflexivity. Qed.

Lemma findControl_some k control :
  findControl k = Some control -> In control MANUAL_CONTROLS /\ key control = k.
Proof.
  unfold findControl. intro H. apply find_some in H. destruct H as [Hin He].
  split; [exact Hin | apply String.eqb_eq; exact He].
Qed.

(** One event, seen from one control. *)
Lemma keySends_alternates (c : Control) (e : KeyEvent) (activeKeys : Js.obj bool)
  (rest : list string) :
  In c MANUAL_CONTROLS ->
  alternates (command c) (isActive (keysAfter activeKeys e) (key c)) rest = true ->
  alternates (command c) (isActive activeKeys (key c)) (keySends activeKeys e ++ rest) = true.
Proof.
  intros Hc Hrest. destruct e as [k | k]; cbn [keySends keysAfter] in *.
  - destruct (isActive activeKeys k) eqn:Ea; [exact Hrest | ].
    destruct (findControl k) as [c0 | ] eqn:Ef; [ | exact Hrest].
    destruct (findControl_some k Ef) as [Hc0 Hk]. subst k.
    cbn [app alternates].
    cbn [In MANUAL_CONTROLS] in Hc, Hc0.
    repeat (destruct Hc as [<- | Hc]; [ | ]); try destruct Hc;
      repeat (destruct Hc0 as [<- | Hc0]; [ | ]); try destruct Hc0;
      cbn [command key String.eqb Ascii.eqb Bool.eqb String.append] in *;
      try (rewrite isActive_set_same in Hrest; rewrite Ea; exact Hrest);
      (rewrite isActive_set_other in Hrest by discriminate; exact Hrest).
  - destruct (findControl k) as [c0 | ] eqn:Ef; [ | exact Hrest].
    destruct (findControl_some k Ef) as [Hc0 Hk]. subst k.
    cbn [app alternates].
    cbn [In MANUAL_CONTROLS] in Hc, Hc0.
    repeat (destruct Hc as [<- | Hc]; [ | ]); try destruct Hc;
      repeat (destruct Hc0 as [<- | Hc0]; [ | ]); try destruct Hc0;
      cbn [command key String.eqb Ascii.eqb Bool.eqb String.append] in *;
      try (rewrite isActive_set_same in Hrest; exact Hrest);
      (rewrite isActive_set_other in Hrest by discriminate; exact Hrest).
Qed.

Lemma keyCommands_alternate (c : Control) (events : list KeyEvent) :
  In c MANUAL_CONTROLS ->
  forall activeKeys,
    alternates (command c) (isActive activeKeys (key c)) (keyCommands events activeKeys)
    = true.
Proof.
  intro Hc. induction events as [ | e rest IH]; intro activeKeys; [reflexivity | ].
  cbn [keyCommands]. apply keySends_alternates; [exact Hc | apply IH].
Qed.

(** X26: the keyboard commands are bracketed.  On a console that can send,
    in manual mode, any sequence of key presses and releases runs to its end
    and hands the peer, in order: for a press of a control key that is not
    marked held, its command (an auto-repeated press sends nothing), and for
    every release of a control key its command with _STOP; so for each of
    the eight controls no second start is ever sent without a stop of the
    same control in between. *)
Theorem keyboard_commands_bracketed (events : list KeyEvent) (activeKeys : Js.obj bool)
  (h : Hook) :
  ready h ->
  exists activeKeys' h',
    typing "manual" events (activeKeys, h) = (activeKeys', h')
    /\ outbox h' = outbox h ++ keyCommands events activeKeys
    /\ (forall c, In c MANUAL_CONTROLS ->
          alternates (command c) (isActive activeKeys (key c))
            (keyCommands events activeKeys) = true).
Proof.
  intro Hr.
  destruct (@typing_ready events activeKeys h Hr) as (a' & h' & E & _ & Ho).
  exists a', h'. split; [exact E | split; [exact Ho | ]].
  intros c Hc. apply keyCommands_alternate. exact Hc.
Qed.

(** W pressed, auto-repeated twice, released. *)
Lemma keyboard_commands_bracketed_witness :
  exists activeKeys' h',
    typing "manual" [KeyDown "w"; KeyDown "w"; KeyDown "w"; KeyUp "w"]
      ([], WebRTCFacts.connectedHook) = (activeKeys', h')
    /\ outbox h' = ["MANUAL_THROTTLE_UP"; "MANUAL_THROTTLE_UP_STOP"]%string.
Proof.
  destruct (@keyboard_commands_bracketed
              [KeyDown "w"; KeyDown "w"; KeyDown "w"; KeyUp "w"] []
              WebRTCFacts.connectedHook) as (a' & h' & E & Ho & _).
  - exists 0%nat,
      (setp_channelOpen true (WebRTCFacts.answering WebRTCFacts.sampleOffer)).
    repeat split; auto.
  - exists a', h'. split; [exact E | exact Ho].
Defined.

End KeyboardFacts.
